(** * Geocoding service: provider orchestration and review aggregation

    A shallow embedding of the provider fallback logic of
    [app/api/v1/geocode/route.ts], of the free provider's country heuristic
    ([CensusProvider.isUSAddress]) and of the review aggregation and
    pagination code of [GoogleReviewsProvider], followed by the properties
    the specification states about them. Further sections cover the API
    key check, the request handlers of the geocode and reviews routes, the
    caches of the reviews provider and the Census batch library. *)

From Stdlib Require Import ZArith Ascii String List Bool Lia.
From stdpp Require Import base decidable list gmap strings.

Set Warnings "-register-all,-clear-no-such-hyp".

Local Open Scope string_scope.
Local Open Scope list_scope.
Local Open Scope Z_scope.

(** ** JavaScript strings and the two regular expressions

    Strings are sequences of characters; the model covers ASCII text, on
    which [String.prototype.toUpperCase] maps [a-z] to [A-Z] and leaves
    every other character alone. *)

Module JsString.

Definition isLower (c : ascii) : bool :=
  ((97 <=? nat_of_ascii c) && (nat_of_ascii c <=? 122))%nat.

Definition upperChar (c : ascii) : ascii :=
  if isLower c then ascii_of_nat (nat_of_ascii c - 32) else c.

(** [String.prototype.toUpperCase] on ASCII text. Outside ASCII the
    JavaScript function also maps letters, some to several characters
    (sharp s to SS), which this function does not: what is stated about
    it as the code's uppercasing is stated for ASCII text, see [isAscii]. *)
Fixpoint toUpperCase (s : string) : string :=
  match s with
  | EmptyString => EmptyString
  | String c s' => String (upperChar c) (toUpperCase s')
  end.


(** [startsWith p s]: [p] is a prefix of [s]. *)
Fixpoint startsWith (p s : string) : bool :=
  match p, s with
  | EmptyString, _ => true
  | String a p', String b s' => Ascii.eqb a b && startsWith p' s'
  | String _ _, EmptyString => false
  end.

(** [String.prototype.includes]: substring containment at any offset. *)
Fixpoint includes (s needle : string) : bool :=
  startsWith needle s ||
  match s with
  | EmptyString => false
  | String _ s' => includes s' needle
  end.

(** Character classes of the regular expression dialect: [\d] is [0-9] and
    [\w] is [A-Za-z0-9_]. *)
Definition isDigit (c : ascii) : bool :=
  ((48 <=? nat_of_ascii c) && (nat_of_ascii c <=? 57))%nat.

Definition isWordChar (c : ascii) : bool :=
  let n := nat_of_ascii c in
  (((48 <=? n) && (n <=? 57)) || ((65 <=? n) && (n <=? 90)) ||
   ((97 <=? n) && (n <=? 122)) || (n =? 95))%nat.

(** The fragment of regular expressions the source uses: word boundary,
    character class, literal, sequence, alternation and option. *)
Inductive regex : Type :=
  | Boundary : regex
  | Class : (ascii -> bool) -> regex
  | Lit : string -> regex
  | Seq : regex -> regex -> regex
  | Alt : regex -> regex -> regex
  | Opt : regex -> regex
  | Never : regex.

Definition isWordOpt (c : option ascii) : bool :=
  match c with Some a => isWordChar a | None => false end.

Definition headChar (s : string) : option ascii :=
  match s with EmptyString => None | String c _ => Some c end.

(** [\b] holds between a word character and a non-word character or a
    string end. [prev] is the character just before the current position. *)
Definition atBoundary (prev : option ascii) (s : string) : bool :=
  xorb (isWordOpt prev) (isWordOpt (headChar s)).

(** Consume the literal [p] from [s], returning the last character read and
    the rest. *)
Fixpoint consume (p : string) (prev : option ascii) (s : string)
  : option (option ascii * string) :=
  match p with
  | EmptyString => Some (prev, s)
  | String a p' =>
      match s with
      | String b s' => if Ascii.eqb a b then consume p' (Some b) s' else None
      | EmptyString => None
      end
  end.

(** Backtracking matcher in continuation style: [matchAt r prev s k] tries
    every way of matching [r] at the current position, greedy option
    first, and hands what is left to [k]. *)
Fixpoint matchAt (r : regex) (prev : option ascii) (s : string)
    (k : option ascii -> string -> bool) : bool :=
  match r with
  | Boundary => atBoundary prev s && k prev s
  | Class p =>
      match s with
      | String c s' => p c && k (Some c) s'
      | EmptyString => false
      end
  | Lit p =>
      match consume p prev s with
      | Some (prev', s') => k prev' s'
      | None => false
      end
  | Seq r1 r2 => matchAt r1 prev s (fun prev' s' => matchAt r2 prev' s' k)
  | Alt r1 r2 => matchAt r1 prev s k || matchAt r2 prev s k
  | Opt r1 => matchAt r1 prev s k || k prev s
  | Never => false
  end.

Fixpoint searchFrom (r : regex) (prev : option ascii) (s : string) : bool :=
  matchAt r prev s (fun _ _ => true) ||
  match s with
  | EmptyString => false
  | String c s' => searchFrom r (Some c) s'
  end.

(** [RegExp.prototype.test] for a pattern without flags: a match may start
    at any offset. *)
Definition test (r : regex) (s : string) : bool := searchFrom r None s.

Definition alternatives (ws : list string) : regex :=
  fold_right (fun w r => Alt (Lit w) r) Never ws.

Fixpoint times (n : nat) (r : regex) : regex :=
  match n with
  | O => Lit EmptyString
  | S n' => Seq r (times n' r)
  end.

End JsString.

(** ** The free provider's country heuristic *)

Module CensusHeuristic.
Import JsString.

Definition usStates : list string :=
  [ "AL"; "AK"; "AZ"; "AR"; "CA"; "CO"; "CT"; "DE"; "FL"; "GA";
    "HI"; "ID"; "IL"; "IN"; "IA"; "KS"; "KY"; "LA"; "ME"; "MD";
    "MA"; "MI"; "MN"; "MS"; "MO"; "MT"; "NE"; "NV"; "NH"; "NJ";
    "NM"; "NY"; "NC"; "ND"; "OH"; "OK"; "OR"; "PA"; "RI"; "SC";
    "SD"; "TN"; "TX"; "UT"; "VT"; "VA"; "WA"; "WV"; "WI"; "WY";
    "DC"; "PR" ].

(** [new RegExp(`\\b(${usStates.join('|')})\\b`)] *)
Definition statePattern : regex :=
  Seq Boundary (Seq (alternatives usStates) Boundary).

(** [/\b\d{5}(-\d{4})?\b/] *)
Definition zipPattern : regex :=
  Seq Boundary
    (Seq (times 5 (Class isDigit))
       (Seq (Opt (Seq (Lit "-") (times 4 (Class isDigit)))) Boundary)).

Definition usIndicators : list string :=
  [ "USA"; "US"; "UNITED STATES";
    "STREET"; "AVENUE"; "BOULEVARD"; "ROAD"; "LANE"; "DRIVE";
    "ST"; "AVE"; "BLVD"; "RD"; "LN"; "DR" ].

(** [CensusProvider.isUSAddress]. The state pattern and the indicators are
    looked up in the uppercased address, the zip pattern in the address as
    given. *)
Definition isUSAddress (address : string) : bool :=
  let addressUpper := toUpperCase address in
  if test statePattern addressUpper then true
  else if test zipPattern address then true
  else if existsb (includes addressUpper) usIndicators then true
  else if includes addressUpper "CANADA" ||
          includes addressUpper "MEXICO" ||
          includes addressUpper "UK" ||
          includes addressUpper "ENGLAND" ||
          includes addressUpper "FRANCE" ||
          includes addressUpper "GERMANY" then false
  else true.

End CensusHeuristic.

(** ** Geocoding providers and the provider selection of the geocode route *)

Module Geocoding.
Import JsString.

Record GeocodeError := { code : string; message : string }.

(** Outbound HTTP requests, the only effect of a provider. *)
Inductive Host := CensusHost | GoogleHost.

Inductive Event := Upstream (host : Host) (address : string).

(** Effectful computations carry the list of upstream requests they made,
    oldest first. *)
Definition M (A : Type) : Type := A * list Event.

Definition ret {A} (a : A) : M A := (a, []).

Definition bind {A B} (m : M A) (f : A -> M B) : M B :=
  let (a, l1) := m in let (b, l2) := f a in (b, l1 ++ l2).

Definition request {A} (h : Host) (address : string) (reply : A) : M A :=
  (reply, [Upstream h address]).

Definition value {A} (m : M A) : A := fst m.
Definition effects {A} (m : M A) : list Event := snd m.

Notation "'await' x ':=' m 'in' k" := (bind m (fun x => k))
  (at level 10, x name, m at level 100, k at level 200).

(** The result of awaiting a call that may reject. *)
Inductive Attempt (A : Type) : Type :=
  | Returned (a : A)
  | Threw.
Arguments Returned {A} a.
Arguments Threw {A}.

Section Registry.

(** [Result] stands for one entry of [GeocodeResponse.results] and
    [Options] for [GeocodeRequest.options]; neither is inspected by the
    selection logic. *)
Context {Result Options : Type}.

Record GeocodeResponse := {
  success : bool;
  provider : string;
  results : list Result;
  error : option GeocodeError
}.

Record GeocodeRequest := {
  address : string;
  preferredProvider : option string;
  options : option Options
}.

(** The [GeocodingProvider] interface. *)
Record GeocodingProvider := {
  name : string;
  geocode : string -> option Options -> M (Attempt GeocodeResponse);
  isAvailable : M (Attempt bool)
}.

Inductive Body :=
  | ErrorBody (error : string)
  | GeocodeBody (response : GeocodeResponse).

Record HttpResponse := { status : Z; body : Body }.

(** [Response.json(b)] and [Response.json(b, { status })]. *)
Definition json (b : Body) : HttpResponse := {| status := 200; body := b |}.
Definition jsonStatus (b : Body) (st : Z) : HttpResponse :=
  {| status := st; body := b |}.

Definition allProvidersFailed : GeocodeError :=
  {| code := "ALL_PROVIDERS_FAILED";
     message := "All geocoding providers failed or returned no results" |}.

Definition providerError (p : GeocodingProvider) : GeocodeError :=
  {| code := "PROVIDER_ERROR";
     message := "Provider " +:+ name p +:+ " encountered an error" |}.

(** The [for (const provider of providers)] loop of [POST], with the
    variable [lastError] threaded through; [None] is [null] or
    [undefined]. *)
Fixpoint tryProviders (ps : list GeocodingProvider) (address : string)
    (options : option Options) (lastError : option GeocodeError)
  : M HttpResponse :=
  match ps with
  | [] =>
      ret (json (GeocodeBody
        {| success := false;
           provider := "multiple";
           results := [];
           error := Some (match lastError with
                          | Some e => e
                          | None => allProvidersFailed
                          end) |}))
  | p :: rest =>
      await available := isAvailable p in
      match available with
      | Threw => tryProviders rest address options (Some (providerError p))
      | Returned false => tryProviders rest address options lastError
      | Returned true =>
          await outcome := geocode p address options in
          match outcome with
          | Threw => tryProviders rest address options (Some (providerError p))
          | Returned response =>
              if success response && (0 <? Z.of_nat (length (results response)))
              then ret (json (GeocodeBody response))
              else if success response && (Z.of_nat (length (results response)) =? 0)
              then tryProviders rest address options lastError
              else if negb (success response)
              then tryProviders rest address options (error response)
              else tryProviders rest address options lastError
          end
      end
  end.

(** The branch [if (preferredProvider)] of [POST]: the named provider
    only. An exception escaping here reaches the handler's outer [catch]. *)
Definition usePreferred (ps : list GeocodingProvider) (preferred : string)
    (address : string) (options : option Options) : M HttpResponse :=
  match find (fun p => String.eqb (name p) preferred) ps with
  | None => ret (jsonStatus (ErrorBody "Provider not found or not available") 400)
  | Some p =>
      await available := isAvailable p in
      match available with
      | Threw => ret (jsonStatus (ErrorBody "Internal server error") 500)
      | Returned false =>
          ret (jsonStatus (ErrorBody "Selected provider is not available") 503)
      | Returned true =>
          await outcome := geocode p address options in
          match outcome with
          | Threw => ret (jsonStatus (ErrorBody "Internal server error") 500)
          | Returned response => ret (json (GeocodeBody response))
          end
      end
  end.

(** [POST] of the geocode route, from the point where the API key and the
    request body have been validated. An empty provider name is falsy and
    selects the fallback loop. *)
Definition POST (providers : list GeocodingProvider) (req : GeocodeRequest)
  : M HttpResponse :=
  match preferredProvider req with
  | Some preferred =>
      if String.eqb preferred EmptyString
      then tryProviders providers (address req) (options req) None
      else usePreferred providers preferred (address req) (options req)
  | None => tryProviders providers (address req) (options req) None
  end.

(** *** The two concrete providers *)

(** What a thrown value looks like to the [catch] blocks:
    [error.response?.status?.toString()] and [error.message]. *)
Record Thrown := { responseStatus : option string; thrownMessage : string }.

Definition orDefault (s : option string) (d : string) : string :=
  match s with
  | Some v => if String.eqb v EmptyString then d else v
  | None => d
  end.

(** Replies of the Census endpoint: [fetch] or [response.json()] rejects,
    the response is not [ok], or a body whose [result.addressMatches] is
    absent ([None]) or a list. *)
Context {CensusAddressMatch : Type}.

Inductive CensusReply :=
  | CensusRejected (e : Thrown)
  | CensusNotOk (status statusText : string)
  | CensusData (addressMatches : option (list CensusAddressMatch)).

(** Replies of the Google geocoding endpoint: axios rejects, or a body
    with a [status] and [results]. *)
Context {GoogleResult : Type}.

Inductive GoogleReply :=
  | GoogleRejected (e : Thrown)
  | GoogleData (status : string) (rawResults : list GoogleResult).

(** The network, as an oracle that fixes the reply to each request, and
    the two result transformations. *)
Variable censusApi : string -> CensusReply.
Variable googleApi : string -> option Options -> GoogleReply.
Variable fromCensusMatch : CensusAddressMatch -> Result.
Variable transformResult : GoogleResult -> Result.

Definition censusFailure (c m : string) : GeocodeResponse :=
  {| success := false; provider := "census"; results := [];
     error := Some {| code := c; message := m |} |}.

(** [CensusProvider.geocode]; every exception is caught inside. *)
Definition censusGeocode (address : string) (_options : option Options)
  : M GeocodeResponse :=
  if negb (CensusHeuristic.isUSAddress address)
  then ret (censusFailure "NON_US_ADDRESS" "Census geocoder only supports US addresses")
  else
    await reply := request CensusHost address (censusApi address) in
    match reply with
    | CensusRejected e =>
        ret (censusFailure "CENSUS_ERROR"
               (orDefault (Some (thrownMessage e)) "Unknown error occurred"))
    | CensusNotOk st txt =>
        ret (censusFailure "CENSUS_ERROR"
               (orDefault (Some ("Census API error: " +:+ st +:+ " " +:+ txt))
                  "Unknown error occurred"))
    | CensusData None
    | CensusData (Some []) =>
        ret {| success := true; provider := "census"; results := [];
               error := None |}
    | CensusData (Some matches) =>
        ret {| success := true; provider := "census";
               results := map fromCensusMatch matches; error := None |}
    end.

Definition censusProbeAddress : string :=
  "1600 Pennsylvania Avenue NW, Washington, DC 20500".

Definition CensusProvider : GeocodingProvider :=
  {| name := "census";
     geocode := fun a o => await r := censusGeocode a o in ret (Returned r);
     isAvailable :=
       await response := censusGeocode censusProbeAddress None in
       ret (Returned (success response &&
                      (0 <? Z.of_nat (length (results response))))) |}.

(** [GoogleProvider.geocode]; every exception is caught inside. *)
Definition googleGeocode (address : string) (options : option Options)
  : M GeocodeResponse :=
  await reply := request GoogleHost address (googleApi address options) in
  match reply with
  | GoogleRejected e =>
      ret {| success := false; provider := "google"; results := [];
             error := Some {| code := orDefault (responseStatus e) "UNKNOWN";
                              message := orDefault (Some (thrownMessage e))
                                           "Unknown error occurred" |} |}
  | GoogleData st raws =>
      if String.eqb st "OK"
      then ret {| success := true; provider := "google";
                  results := map transformResult raws; error := None |}
      else ret {| success := false; provider := "google"; results := [];
                  error := Some {| code := "UNKNOWN";
                                   message := orDefault
                                     (Some ("Geocoding failed: " +:+ st))
                                     "Unknown error occurred" |} |}
  end.

Definition googleProbeAddress : string :=
  "1600 Amphitheatre Parkway, Mountain View, CA".

Definition GoogleProvider : GeocodingProvider :=
  {| name := "google";
     geocode := fun a o => await r := googleGeocode a o in ret (Returned r);
     isAvailable :=
       await response := googleGeocode googleProbeAddress None in
       ret (Returned (success response)) |}.

(** [const providers = [new CensusProvider(), new GoogleProvider()]] *)
Definition providers : list GeocodingProvider :=
  [CensusProvider; GoogleProvider].

End Registry.

Arguments GeocodeResponse : clear implicits.
Arguments GeocodeRequest : clear implicits.
Arguments GeocodingProvider : clear implicits.
Arguments Body : clear implicits.
Arguments HttpResponse : clear implicits.
Arguments CensusReply : clear implicits.
Arguments GoogleReply : clear implicits.

End Geocoding.

(** ** JSON documents and the JavaScript operations applied to them

    A page token is the base64 text of a JSON document. The model works on
    what [JSON.parse(Buffer.from(token, 'base64').toString('utf-8'))]
    yields: a document, or a [SyntaxError]. [JSON.stringify] followed by
    that decoding gives back the document written, in which members whose
    value is [undefined] are left out. Numbers are integers. *)

Module Json.
Import JsString.

Inductive json : Type :=
  | JNull
  | JBool (b : bool)
  | JNumber (n : Z)
  | JString (s : string)
  | JArray (items : list json)
  | JObject (members : list (string * json)).

Inductive Decoded :=
  | SyntaxError
  | Document (j : json).

(** Member lookup; [JSON.parse] lets a later duplicate key win. *)
Fixpoint getField (members : list (string * json)) (key : string)
  : option json :=
  match members with
  | [] => None
  | (k, v) :: rest =>
      match getField rest key with
      | Some v' => Some v'
      | None => if String.eqb k key then Some v else None
      end
  end.

(** [ToBoolean]; [None] is [undefined]. *)
Definition truthy (v : option json) : bool :=
  match v with
  | None | Some JNull => false
  | Some (JBool b) => b
  | Some (JNumber n) => negb (n =? 0)
  | Some (JString s) => negb (String.eqb s EmptyString)
  | Some (JArray _) | Some (JObject _) => true
  end.

(** [a || b] on values. *)
Definition orElse (v : option json) (d : json) : json :=
  match v with
  | Some j => if truthy v then j else d
  | None => d
  end.

(** [SameValueZero], the equality of [Array.prototype.includes] and of
    [Set]: primitives by value, and two distinct parsed arrays or objects
    are never the same value. *)
Definition sameValueZero (a b : json) : bool :=
  match a, b with
  | JNull, JNull => true
  | JBool x, JBool y => Bool.eqb x y
  | JNumber x, JNumber y => x =? y
  | JString x, JString y => String.eqb x y
  | _, _ => false
  end.

Definition setHas (set : list json) (v : json) : bool :=
  existsb (sameValueZero v) set.

(** [set.add(v)]: insertion order is kept. *)
Definition setAdd (set : list json) (v : json) : list json :=
  if setHas set v then set else set ++ [v].

Definition setOfList (items : list json) : list json :=
  fold_left setAdd items [].

Fixpoint characters (s : string) : list json :=
  match s with
  | EmptyString => []
  | String c s' => JString (String c EmptyString) :: characters s'
  end.

End Json.

(** ** Review aggregation and the two pagination modes *)

Module Reviews.
Import JsString Json.

Record Review := {
  author : string;
  authorProfilePhoto : option string;
  rating : Z;
  text : string;
  time : string;
  relativeTime : option string;
  language : option string
}.

Record PlaceSummary := {
  placeName : string;
  placeRating : Z * Z;      (* a decimal rating as numerator and denominator *)
  placeTotalReviews : Z;
  placeUrl : option string
}.

Record ReviewError := { code : string; message : string }.

Record Pagination := {
  nextPageToken : option json;
  hasMoreReviews : bool;
  currentPage : option Z;
  totalPages : option Z;
  pageSize : option Z;
  totalReviews : option Z
}.

Record ReviewResponse := {
  success : bool;
  provider : string;
  results : list Review;
  summary : option PlaceSummary;
  pagination : option Pagination;
  error : option ReviewError
}.

(** The [options] argument of [getReviews] and [getReviewsChunked]. An
    empty [pageToken] string is falsy and counts as absent. [maxResults]
    and [minimumRating] are whole numbers here: the methods take any
    number, and what is stated about page sizes is stated for whole
    ones. *)
Record ReviewOptions := {
  maxResults : option Z;
  optLanguage : option string;
  optMinimumRating : option Z;
  pageToken : option Decoded
}.

Definition DEFAULT_PAGE_SIZE : Z := 6.

(** [options?.maxResults || this.DEFAULT_PAGE_SIZE], for a [maxResults]
    that is a whole number. *)
Definition pageSizeOf (options : ReviewOptions) : Z :=
  match maxResults options with
  | Some n => if n =? 0 then DEFAULT_PAGE_SIZE else n
  | None => DEFAULT_PAGE_SIZE
  end.

(** What a thrown value looks like to the [catch] blocks. *)
Record Thrown := { responseStatus : option string; thrownMessage : string }.

Definition orDefault (s : option string) (d : string) : string :=
  match s with
  | Some v => if String.eqb v EmptyString then d else v
  | None => d
  end.

Definition failureOf (e : Thrown) : ReviewResponse :=
  {| success := false; provider := "google"; results := [];
     summary := None; pagination := None;
     error := Some {| code := orDefault (responseStatus e) "UNKNOWN";
                      message := orDefault (Some (thrownMessage e))
                                   "Unknown error occurred" |} |}.

Definition emptySuccess : ReviewResponse :=
  {| success := true; provider := "google"; results := [];
     summary := None; pagination := None; error := None |}.

(** The outcome of [getPlaceDetails]: a summary, or a failure response. *)
Inductive PlaceDetails :=
  | DetailsOk (s : PlaceSummary)
  | DetailsFailed (e : ReviewError).

Definition detailsResponse (d : PlaceDetails) : ReviewResponse :=
  match d with
  | DetailsOk s =>
      {| success := true; provider := "google"; results := [];
         summary := Some s; pagination := None; error := None |}
  | DetailsFailed e =>
      {| success := false; provider := "google"; results := [];
         summary := None; pagination := None; error := Some e |}
  end.

(** Replies of the place-details endpoint asked for [reviews]: axios (or
    [transformReview]) throws, or a body with a [status] and an optional
    list of reviews, given here as [transformReview] returns them. *)
Inductive ReviewsReply :=
  | ReviewsRejected (e : Thrown)
  | ReviewsData (status : string) (reviews : option (list Review)).

(** [fetchReviewsWithSort] *)
Definition fetchReviewsWithSort (reply : ReviewsReply) : ReviewResponse :=
  match reply with
  | ReviewsRejected e => failureOf e
  | ReviewsData st rs =>
      if negb (String.eqb st "OK") then emptySuccess
      else match rs with
           | None | Some [] => emptySuccess
           | Some reviews =>
               {| success := true; provider := "google"; results := reviews;
                  summary := None; pagination := None; error := None |}
           end
  end.

(** The identity key [`${review.author}_${review.time}`]. *)
Definition reviewKey (r : Review) : string :=
  author r +:+ "_" +:+ time r.

(** [deduplicateReviews]: a filter whose predicate updates the set [seen]. *)
Fixpoint dedupFrom (seen : gset string) (reviews : list Review)
  : list Review :=
  match reviews with
  | [] => []
  | review :: rest =>
      let key := reviewKey review in
      if decide (key ∈ seen) then dedupFrom seen rest
      else review :: dedupFrom ({[key]} ∪ seen) rest
  end.

Definition deduplicateReviews (reviews : list Review) : list Review :=
  dedupFrom ∅ reviews.

(** The rating filter at the end of [getReviewsForPlace]. *)
Definition applyRatingFilter (minimumRating : option Z)
    (allReviews : list Review) : list Review :=
  match minimumRating with
  | Some m => filter (fun review => m <= rating review) allReviews
  | None => allReviews
  end.

Record CacheEntry := { cachedReviews : list Review; timestamp : Z }.

Definition CACHE_EXPIRATION : Z := 60 * 60 * 1000.

(** [getReviewsForPlace], with the cache passed in and out; [now] is
    [Date.now()] and [api] the endpoint's reply per sort order. *)
Definition getReviewsForPlace (reviewsCache : gmap string CacheEntry)
    (now : Z) (api : string -> ReviewsReply)
    (placeId lang : string) (minimumRating : option Z)
  : list Review * gmap string CacheEntry :=
  let cacheKey := placeId +:+ "_" +:+ lang in
  let fresh :=
    match reviewsCache !! cacheKey with
    | Some entry =>
        if now - timestamp entry <? CACHE_EXPIRATION then Some entry else None
    | None => None
    end in
  match fresh with
  | Some entry => (applyRatingFilter minimumRating (cachedReviews entry), reviewsCache)
  | None =>
      let combinedReviews :=
        deduplicateReviews
          (results (fetchReviewsWithSort (api "most_relevant")) ++
           results (fetchReviewsWithSort (api "newest")) ++
           results (fetchReviewsWithSort (api "highest_rating"))) in
      (applyRatingFilter minimumRating combinedReviews,
       <[cacheKey := {| cachedReviews := combinedReviews; timestamp := now |}]>
         reviewsCache)
  end.

(** [Array.prototype.slice(start, end)] *)
Definition relativeIndex (len k : Z) : Z :=
  if k <? 0 then Z.max (len + k) 0 else Z.min k len.

Definition slice {A} (l : list A) (start finish : Z) : list A :=
  let len := Z.of_nat (length l) in
  let from := relativeIndex len start in
  let to := relativeIndex len finish in
  take (Z.to_nat (to - from)) (drop (Z.to_nat from) l).

(** Reading [tokenData.startIndex] off a decoded page token inside the
    [try] of [getReviews]: a syntax error, or property access on [null],
    lands in the [catch], which resets [startIndex] to 0. *)
Definition startIndexOf (token : option Decoded) : Z :=
  match token with
  | Some (Document (JObject members)) =>
      match getField members "startIndex" with
      | Some (JNumber n) => if 0 <=? n then n else 0
      | _ => 0
      end
  | _ => 0
  end.

Definition optionalMember (key : string) (v : option json)
  : list (string * json) :=
  match v with Some j => [(key, j)] | None => [] end.

(** The document written by the standard mode. *)
Definition offsetToken (endIndex : Z) (placeId : string) (total : Z)
    (minimumRating : option Z) : json :=
  JObject ([("startIndex", JNumber endIndex);
            ("placeId", JString placeId);
            ("totalReviews", JNumber total)] ++
           optionalMember "minimumRating" (JNumber <$> minimumRating)).

(** [Math.ceil(a / b)] on integers. *)
Definition ceilDiv (a b : Z) : Z := - ((- a) / b).

(** [getReviews], given what [getPlaceDetails] and [getReviewsForPlace]
    returned. *)
Definition getReviews (placeDetails : PlaceDetails) (allReviews : list Review)
    (placeId : string) (options : ReviewOptions) : ReviewResponse :=
  let size := pageSizeOf options in
  match placeDetails with
  | DetailsFailed _ => detailsResponse placeDetails
  | DetailsOk s =>
      let startIndex := startIndexOf (pageToken options) in
      let endIndex := startIndex + size in
      let pageReviews := slice allReviews startIndex endIndex in
      let total := Z.of_nat (length allReviews) in
      let more := endIndex <? total in
      {| success := true;
         provider := "google";
         results := pageReviews;
         summary := Some s;
         pagination := Some
           {| nextPageToken :=
                if more
                then Some (offsetToken endIndex placeId total
                             (optMinimumRating options))
                else None;
              hasMoreReviews := more;
              currentPage := Some (startIndex / size + 1);
              totalPages := Some (ceilDiv total size);
              pageSize := Some size;
              totalReviews := Some total |};
         error := None |}
  end.

(** *** Chunked mode *)

(** Computations that may throw into the enclosing [catch]. *)
Inductive Outcome (A : Type) : Type :=
  | Done (a : A)
  | Raised (e : Thrown).
Arguments Done {A} a.
Arguments Raised {A} e.

Definition andThen {A B} (m : Outcome A) (f : A -> Outcome B) : Outcome B :=
  match m with
  | Done a => f a
  | Raised e => Raised e
  end.

Notation "'try' x ':=' m 'in' k" := (andThen m (fun x => k))
  (at level 10, x name, m at level 100, k at level 200).

(** A [TypeError]; the message is the one V8 prints. *)
Definition typeError (msg : string) : Thrown :=
  {| responseStatus := None; thrownMessage := msg |}.

Section Chunked.

(** [ToNumber] of a string, array or object, and
    [new Date(s).getTime()] ([None] is [NaN]). *)
Variable coerceToNumber : json -> option Z.
Variable dateGetTime : string -> option Z.

Definition toNumber (v : json) : option Z :=
  match v with
  | JNull => Some 0
  | JBool b => Some (if b then 1 else 0)
  | JNumber n => Some n
  | other => coerceToNumber other
  end.

(** The local variable [tokenData]. Its members hold whatever the token
    contained: nothing checks their types. *)
Record TokenData := {
  sortMethod : json;
  fetchedMethods : json;
  reviewIds : list json;               (* a [Set], in insertion order *)
  lastReviewTime : json;
  minimumRating : option json
}.

Definition freshTokenData (options : ReviewOptions) : TokenData :=
  {| sortMethod := JString "most_relevant";
     fetchedMethods := JArray [];
     reviewIds := [];
     lastReviewTime := JNumber 0;
     minimumRating := JNumber <$> optMinimumRating options |}.

(** [parsedToken.key]: a [TypeError] on [null], [undefined] on the other
    primitives and on arrays for the keys read here. *)
Definition getProp (parsedToken : json) (key : string)
  : Outcome (option json) :=
  match parsedToken with
  | JNull =>
      Raised (typeError ("Cannot read properties of null (reading '" +:+ key +:+ "')"))
  | JObject members => Done (getField members key)
  | _ => Done None
  end.

(** [new Set(v)]: arrays and strings are iterable. *)
Definition newSet (v : json) : Outcome (list json) :=
  match v with
  | JArray items => Done (setOfList items)
  | JString s => Done (setOfList (characters s))
  | _ => Raised (typeError "object is not iterable (cannot read property Symbol(Symbol.iterator))")
  end.

(** The [try] block that parses the page token; any exception leaves
    [tokenData] as initialised. *)
Definition decodeChunkToken (options : ReviewOptions) : TokenData :=
  match pageToken options with
  | None | Some SyntaxError => freshTokenData options
  | Some (Document parsedToken) =>
      let parsed :=
        try sm := getProp parsedToken "sortMethod" in
        try fm := getProp parsedToken "fetchedMethods" in
        try ids := getProp parsedToken "reviewIds" in
        try idSet := newSet (orElse ids (JArray [])) in
        try lrt := getProp parsedToken "lastReviewTime" in
        try mr := getProp parsedToken "minimumRating" in
        Done {| sortMethod := orElse sm (JString "most_relevant");
                fetchedMethods := orElse fm (JArray []);
                reviewIds := idSet;
                lastReviewTime := orElse lrt (JNumber 0);
                minimumRating := mr |} in
      match parsed with
      | Done td => td
      | Raised _ => freshTokenData options
      end
  end.

Definition allSortMethods : list string :=
  ["most_relevant"; "newest"; "highest_rating"].

(** [v.length > 0] *)
Definition lengthPositive (v : json) : Outcome bool :=
  match v with
  | JArray items => Done (0 <? Z.of_nat (length items))
  | JString s => Done (0 <? Z.of_nat (String.length s))
  | JObject members =>
      Done (match getField members "length" with
            | Some l => match toNumber l with
                        | Some n => 0 <? n
                        | None => false
                        end
            | None => false
            end)
  | JNull => Raised (typeError "Cannot read properties of null (reading 'length')")
  | _ => Done false
  end.

(** [tokenData.fetchedMethods.includes(method)] *)
Definition includesMethod (v : json) (method : string) : Outcome bool :=
  match v with
  | JArray items => Done (existsb (sameValueZero (JString method)) items)
  | JString s => Done (includes s method)
  | _ => Raised (typeError "tokenData.fetchedMethods.includes is not a function")
  end.

(** [tokenData.fetchedMethods.push(method)] *)
Definition pushMethod (v : json) (method : string) : Outcome json :=
  match v with
  | JArray items => Done (JArray (items ++ [JString method]))
  | _ => Raised (typeError "tokenData.fetchedMethods.push is not a function")
  end.

(** [allSortMethods.filter(method => !fetched.includes(method))] *)
Fixpoint notYetFetched (fetched : json) (methods : list string)
  : Outcome (list string) :=
  match methods with
  | [] => Done []
  | method :: rest =>
      try inc := includesMethod fetched method in
      try others := notYetFetched fetched rest in
      Done (if inc then others else method :: others)
  end.

Definition nextSortMethodsOf (td : TokenData) : Outcome (list string) :=
  try some := lengthPositive (fetchedMethods td) in
  if some then
    try remaining := notYetFetched (fetchedMethods td) allSortMethods in
    Done (match remaining with
          | [] => ["most_relevant"]
          | _ => remaining
          end)
  else Done allSortMethods.

(** [review.rating < tokenData.minimumRating] guarded by
    [tokenData.minimumRating !== undefined]. *)
Definition belowMinimum (minimum : option json) (review : Review) : bool :=
  match minimum with
  | None => false
  | Some v => match toNumber v with
              | Some n => rating review <? n
              | None => false
              end
  end.

(** The [for (const review of reviewsResponse.results)] loop:
    [uniqueReviews] and the set [tokenData.reviewIds] are accumulated, and
    the loop is left once [uniqueReviews] has reached the page size. *)
Fixpoint collectUnique (size : Z) (minimum : option json)
    (fetched : list Review) (uniqueReviews : list Review) (ids : list json)
  : list Review * list json :=
  match fetched with
  | [] => (uniqueReviews, ids)
  | review :: rest =>
      let reviewId := reviewKey review in
      if setHas ids (JString reviewId)
      then collectUnique size minimum rest uniqueReviews ids
      else if belowMinimum minimum review
      then collectUnique size minimum rest uniqueReviews ids
      else
        let uniqueReviews' := uniqueReviews ++ [review] in
        let ids' := setAdd ids (JString reviewId) in
        if size <=? Z.of_nat (length uniqueReviews')
        then (uniqueReviews', ids')
        else collectUnique size minimum rest uniqueReviews' ids'
  end.

Definition numberOrNull (n : option Z) : json :=
  match n with Some z => JNumber z | None => JNull end.

(** The document written by the chunked mode. *)
Definition chunkToken (current : string) (fetched : json) (ids : list json)
    (uniqueReviews : list Review) (minimum : option json) : json :=
  JObject ([("sortMethod", JString current);
            ("fetchedMethods", fetched);
            ("reviewIds", JArray ids);
            ("lastReviewTime",
               match last uniqueReviews with
               | Some r => numberOrNull (dateGetTime (time r))
               | None => JNumber 0
               end)] ++
           optionalMember "minimumRating" minimum).

(** [summary?.totalReviews || 0] *)
Definition estimatedTotal (s : option PlaceSummary) : Z :=
  match s with Some p => placeTotalReviews p | None => 0 end.

(** The body of [getReviewsChunked] after the token has been parsed;
    what it raises reaches the method's outer [catch]. *)
Definition chunkedPage (s : PlaceSummary) (api : string -> ReviewsReply)
    (options : ReviewOptions) : Outcome ReviewResponse :=
  let size := pageSizeOf options in
  let tokenData := decodeChunkToken options in
  try nextSortMethods := nextSortMethodsOf tokenData in
  let currentSortMethod := hd EmptyString nextSortMethods in
  let reviewsResponse := fetchReviewsWithSort (api currentSortMethod) in
  if negb (success reviewsResponse) then Done reviewsResponse
  else
    let '(uniqueReviews, ids) :=
      collectUnique size (minimumRating tokenData) (results reviewsResponse)
        [] (reviewIds tokenData) in
    try already := includesMethod (fetchedMethods tokenData) currentSortMethod in
    try fetched' :=
      (if already then Done (fetchedMethods tokenData)
       else pushMethod (fetchedMethods tokenData) currentSortMethod) in
    let more :=
      (1 <? Z.of_nat (length nextSortMethods)) ||
      (Z.of_nat (length uniqueReviews) <? Z.of_nat (length (results reviewsResponse))) in
    Done {| success := true;
            provider := "google";
            results := uniqueReviews;
            summary := Some s;
            pagination := Some
              {| nextPageToken :=
                   if more
                   then Some (chunkToken currentSortMethod fetched' ids
                                uniqueReviews (minimumRating tokenData))
                   else None;
                 hasMoreReviews := more;
                 currentPage := None;
                 totalPages := None;
                 pageSize := Some size;
                 totalReviews := Some (estimatedTotal (Some s)) |};
            error := None |}.

(** [getReviewsChunked], given what [getPlaceDetails] returned and the
    endpoint's reply per sort order. *)
Definition getReviewsChunked (placeDetails : PlaceDetails)
    (api : string -> ReviewsReply) (placeId : string)
    (options : ReviewOptions) : ReviewResponse :=
  match placeDetails with
  | DetailsFailed _ => detailsResponse placeDetails
  | DetailsOk s =>
      match chunkedPage s api options with
      | Done response => response
      | Raised e => failureOf e
      end
  end.

End Chunked.

End Reviews.



(** ** What the selector observes of one adapter

    The vocabulary in which the selection properties are stated: the
    verdict on an adapter, the upstream traffic it causes and the error it
    leaves behind. *)

Module Selection.
Import Geocoding.

Section Observation.
Context {Result Options : Type}.

Inductive Verdict :=
  | Unavailable
  | Accepted (response : GeocodeResponse Result)
  | SoftMiss
  | Failure (e : option GeocodeError)
  | Exception.

Definition verdictOf (p : GeocodingProvider Result Options)
    (address : string) (options : option Options) : Verdict :=
  match value (isAvailable p) with
  | Threw => Exception
  | Returned false => Unavailable
  | Returned true =>
      match value (geocode p address options) with
      | Threw => Exception
      | Returned r =>
          if success r
          then match results r with
               | [] => SoftMiss
               | _ :: _ => Accepted r
               end
          else Failure (error r)
      end
  end.

Definition isAccepted (v : Verdict) : bool :=
  match v with Accepted _ => true | _ => false end.

(** The upstream requests an adapter makes when it is consulted: those of
    its probe, and those of its geocode call if the probe said yes. *)
Definition callsOf (p : GeocodingProvider Result Options)
    (address : string) (options : option Options) : list Event :=
  effects (isAvailable p) ++
  match value (isAvailable p) with
  | Returned true => effects (geocode p address options)
  | _ => []
  end.

(** The errors recorded while going through the adapters, oldest first.
    A failure outcome records its [error] member, which may be absent. *)
Definition recordedBy (p : GeocodingProvider Result Options)
    (address : string) (options : option Options)
  : list (option GeocodeError) :=
  match verdictOf p address options with
  | Failure e => [e]
  | Exception => [Some (providerError p)]
  | _ => []
  end.

Definition recordedErrors (ps : list (GeocodingProvider Result Options))
    (address : string) (options : option Options)
  : list (option GeocodeError) :=
  flat_map (fun p => recordedBy p address options) ps.

Definition lastRecorded (ps : list (GeocodingProvider Result Options))
    (address : string) (options : option Options) : option GeocodeError :=
  match last (recordedErrors ps address options) with
  | Some e => e
  | None => None
  end.

(** The synthetic outcome returned when every adapter was exhausted. *)
Definition exhausted (lastError : option GeocodeError)
  : GeocodeResponse Result :=
  {| success := false;
     provider := "multiple";
     results := [];
     error := Some (match lastError with
                    | Some e => e
                    | None => allProvidersFailed
                    end) |}.

End Observation.

Definition downingStreet : string := "10 Downing Street, London, UK".

(** Whether a reply of the Census endpoint carries at least one match. *)
Definition censusHasMatches {A} (reply : CensusReply A) : bool :=
  match reply with
  | CensusData (Some (_ :: _)) => true
  | _ => false
  end.

Definition nonUSFailure {Result} : GeocodeResponse Result :=
  censusFailure "NON_US_ADDRESS" "Census geocoder only supports US addresses".

End Selection.
(** ** A small concrete world

    A Census endpoint that knows only the probe address and a Google
    endpoint that always answers with one result; used to run the
    selection on concrete requests. *)

Module Demo.
Import Geocoding.

Definition censusApi (a : string) : CensusReply unit :=
  if String.eqb a censusProbeAddress
  then CensusData (Some [tt])
  else CensusData None.

Definition googleApi (a : string) (o : option unit) : GoogleReply unit :=
  GoogleData "OK" [tt].

Definition registry : list (GeocodingProvider unit unit) :=
  providers censusApi googleApi (fun m => m) (fun r => r).

Definition eiffel : string := "Tour Eiffel, Paris, France".

Definition googleAnswer : GeocodeResponse unit :=
  {| success := true; provider := "google"; results := [tt]; error := None |}.

End Demo.
(** ** Vocabulary of the review properties *)

Module ReviewSpec.
Import JsString Json Reviews.

(** The identity of a review as the specification defines it: the pair of
    author and timestamp. *)
Definition sameIdentity (a b : Review) : Prop :=
  author a = author b /\ time a = time b.

#[global] Instance sameIdentity_dec a b : Decision (sameIdentity a b).
Proof. unfold sameIdentity. apply _. Defined.

(** Characters of the timestamps [Date.prototype.toISOString] produces
    (as [transformReview] fills [time]): digits and the punctuation of
    [YYYY-MM-DDTHH:mm:ss.sssZ], with a sign for expanded years. *)
Definition isoChar (c : ascii) : bool :=
  isDigit c ||
  existsb (Ascii.eqb c) ["-"; ":"; "."; "T"; "Z"; "+"]%char.

Fixpoint isoTimestamp (t : string) : bool :=
  match t with
  | EmptyString => true
  | String c t' => isoChar c && isoTimestamp t'
  end.

(** The identity keys of some reviews, as a set. *)
Definition keysOf (reviews : list Review) : gset string :=
  list_to_set (map reviewKey reviews).

Definition wellFormed (reviews : list Review) : Prop :=
  Forall (fun r => isoTimestamp (time r) = true) reviews.

(** [options] with another page token. *)
Definition withPageToken (options : ReviewOptions) (token : option Decoded)
  : ReviewOptions :=
  {| maxResults := maxResults options;
     optLanguage := optLanguage options;
     optMinimumRating := optMinimumRating options;
     pageToken := token |}.

(** [options] with another minimum rating. *)
Definition withMinimumRating (options : ReviewOptions) (m : option Z)
  : ReviewOptions :=
  {| maxResults := maxResults options;
     optLanguage := optLanguage options;
     optMinimumRating := m;
     pageToken := pageToken options |}.

(** The token a response hands out, if any. *)
Definition emittedToken (response : ReviewResponse) : option json :=
  match pagination response with
  | Some pg => nextPageToken pg
  | None => None
  end.

Definition saysMore (response : ReviewResponse) : bool :=
  match pagination response with
  | Some pg => hasMoreReviews pg
  | None => false
  end.

(** A client of the standard mode: start without a cursor and follow
    [nextPageToken] for as long as [hasMoreReviews] is set. [None] when
    [fuel] requests did not reach the last page, or a page announced more
    without handing out a token. *)
Fixpoint followPages (fuel : nat) (placeDetails : PlaceDetails)
    (allReviews : list Review) (placeId : string) (options : ReviewOptions)
  : option (list ReviewResponse) :=
  match fuel with
  | O => None
  | S fuel' =>
      let response := getReviews placeDetails allReviews placeId options in
      if saysMore response then
        match emittedToken response with
        | Some token =>
            cons response <$>
              followPages fuel' placeDetails allReviews placeId
                (withPageToken options (Some (Document token)))
        | None => None
        end
      else Some [response]
  end.

(** Whether a token carries a [startIndex] the standard mode will use. *)
Definition hasUsableStartIndex (token : Decoded) : bool :=
  match token with
  | Document (JObject members) =>
      match getField members "startIndex" with
      | Some (JNumber n) => 0 <=? n
      | _ => false
      end
  | _ => false
  end.

Definition memberNames (token : json) : list string :=
  match token with
  | JObject members => map fst members
  | _ => []
  end.

End ReviewSpec.
(** ** Some concrete reviews *)

Module DemoReviews.
Import Json Reviews.

Definition review (who : string) (stars : Z) (body when : string) : Review :=
  {| author := who; authorProfilePhoto := None; rating := stars;
     text := body; time := when; relativeTime := None; language := None |}.

Definition ann : Review := review "Ann" 5 "Great" "2024-01-01T00:00:00.000Z".
Definition bob : Review := review "Bob" 3 "Fine" "2024-01-02T00:00:00.000Z".
Definition annAgain : Review :=
  review "Ann" 5 "Great (edited)" "2024-01-01T00:00:00.000Z".
Definition cyd : Review := review "Cyd" 4 "Good" "2024-01-03T00:00:00.000Z".

Definition place : PlaceSummary :=
  {| placeName := "Cafe"; placeRating := (9, 2); placeTotalReviews := 40;
     placeUrl := None |}.

Definition options (size : option Z) (minimum : option Z)
    (token : option Decoded) : ReviewOptions :=
  {| maxResults := size; optLanguage := None; optMinimumRating := minimum;
     pageToken := token |}.

(** An endpoint that returns the same reviews under every sort order. *)
Definition always (reviews : list Review) (sortBy : string) : ReviewsReply :=
  ReviewsData "OK" (Some reviews).

Definition noCoercion (v : json) : option Z := None.
Definition noDate (s : string) : option Z := None.

End DemoReviews.
(** ** Vocabulary of the chunked-mode properties *)

Module ChunkSpec.
Import JsString Json Reviews ReviewSpec.

(** [set.has(k)] for a string [k], and whether [k] is the key of one of
    some reviews. *)
Definition hasKey (ids : list json) (k : string) : bool :=
  setHas ids (JString k).

Definition keyAmong (reviews : list Review) (k : string) : bool :=
  existsb (fun r => String.eqb k (reviewKey r)) reviews.

(** All reviews of a run of pages, in the order they were handed out. *)
Definition emitted (pages : list ReviewResponse) : list Review :=
  concat (map results pages).

Section Chains.
Variable coerceToNumber : json -> option Z.
Variable dateGetTime : string -> option Z.

(** What one request of a continuation chain brings with it, apart from
    the page token: the place details, the endpoint's replies at that
    moment, and the caller's options. *)
Record Call := {
  callDetails : PlaceDetails;
  callApi : string -> ReviewsReply;
  callPlace : string;
  callOptions : ReviewOptions
}.

Definition answer (c : Call) (token : option Decoded) : ReviewResponse :=
  getReviewsChunked coerceToNumber dateGetTime (callDetails c) (callApi c)
    (callPlace c) (withPageToken (callOptions c) token).

(** A continuation chain: every call resumes from the token the previous
    call handed out, and the chain ends when none is handed out. *)
Fixpoint chunkedChain (calls : list Call) (token : option Decoded)
  : list ReviewResponse :=
  match calls with
  | [] => []
  | c :: rest =>
      let response := answer c token in
      response ::
      match emittedToken response with
      | Some t => chunkedChain rest (Some (Document t))
      | None => []
      end
  end.

(** The seen keys a token carries, as the chunked mode reads them. *)
Definition seenKeys (token : option Decoded) : list json :=
  reviewIds (decodeChunkToken
               {| maxResults := None; optLanguage := None;
                  optMinimumRating := None; pageToken := token |}).

(** The seen keys written into a token. *)
Definition writtenKeys (token : json) : list json :=
  match token with
  | JObject members =>
      match getField members "reviewIds" with
      | Some (JArray ids) => ids
      | _ => []
      end
  | _ => []
  end.

(** The sort order a call uses. *)
Definition currentSortMethodOf (options : ReviewOptions) : string :=
  match nextSortMethodsOf coerceToNumber (decodeChunkToken options) with
  | Done methods => hd EmptyString methods
  | Raised _ => EmptyString
  end.

(** A sort order counts as tried after a call when the incoming token
    listed it or the call used it. *)
Definition triedAfter (options : ReviewOptions) (method : string) : Prop :=
  includesMethod (fetchedMethods (decodeChunkToken options)) method = Done true
  \/ method = currentSortMethodOf options.

(** The reviews of a fetched batch that are new to the chain and pass the
    rating filter. *)
Definition uniqueCandidates (options : ReviewOptions)
    (fetched : list Review) : list Review :=
  let td := decodeChunkToken options in
  List.filter
    (fun r => negb (setHas (reviewIds td) (JString (reviewKey r))) &&
              negb (belowMinimum coerceToNumber (minimumRating td) r))
    fetched.

(** The reviews the endpoint returned for the sort order a call uses. *)
Definition fetchedFor (api : string -> ReviewsReply)
    (options : ReviewOptions) : list Review :=
  results (fetchReviewsWithSort (api (currentSortMethodOf options))).

End Chains.

End ChunkSpec.

(** ** Concrete chunked-mode runs *)

Module DemoChunks.
Import Json Reviews ReviewSpec ChunkSpec DemoReviews.

(** A call for six reviews against an endpoint that knows only [ann]. *)
Definition annOnly : Call :=
  {| callDetails := DetailsOk place;
     callApi := always [ann];
     callPlace := "place";
     callOptions := options None None None |}.

Definition threeCalls : list ReviewResponse :=
  chunkedChain noCoercion noDate [annOnly; annOnly; annOnly] None.

(** The options of the third call of [threeCalls]. *)
Definition thirdCallOptions : ReviewOptions :=
  match threeCalls with
  | _ :: second :: _ =>
      withPageToken (callOptions annOnly) (Document <$> emittedToken second)
  | _ => callOptions annOnly
  end.

(** A token whose [fetchedMethods] member is a number. *)
Definition mistypedToken : Decoded :=
  Document (JObject [("fetchedMethods", JNumber 5)]).

(** The token the standard mode hands out after the first page of two
    five-star reviews, asked with a minimum rating of 5. *)
Definition offsetTokenOfFiveStars : option json :=
  emittedToken
    (getReviews (DetailsOk place) [ann; review "Dee" 5 "Top" "2024-01-04T00:00:00.000Z"]
       "place" (options (Some 1) (Some 5) None)).

End DemoChunks.
(** ** API keys and the request handler of the geocode route *)

Module Auth.
Import JsString.

(** [String.prototype.split(sep)] for a one-character separator. *)
Fixpoint split (sep : ascii) (s : string) : list string :=
  match s with
  | EmptyString => [EmptyString]
  | String c s' =>
      if Ascii.eqb c sep then EmptyString :: split sep s'
      else match split sep s' with
           | piece :: pieces => String c piece :: pieces
           | [] => [String c EmptyString]
           end
  end.

(** [Array.prototype.join(sep)] for a one-character separator. *)
Fixpoint join (sep : ascii) (pieces : list string) : string :=
  match pieces with
  | [] => EmptyString
  | [piece] => piece
  | piece :: rest => piece +:+ String sep (join sep rest)
  end.

Definition nonEmpty (s : string) : bool := negb (String.eqb s EmptyString).

(** [(process.env.ALLOWED_API_KEYS || '').split(',').filter(Boolean)] *)
Definition ALLOWED_API_KEYS (env : option string) : list string :=
  List.filter nonEmpty
    (split ","%char (match env with Some v => v | None => EmptyString end)).

(** [validateApiKey] *)
Definition validateApiKey (allowed : list string) (apiKey : option string)
  : bool :=
  match apiKey with
  | None => false
  | Some key =>
      if String.eqb key EmptyString then false
      else existsb (String.eqb key) allowed
  end.

(** [getApiKeyFromRequest]: the value of the [x-api-key] header, an empty
    value counting as none. *)
Definition getApiKeyFromRequest (header : option string) : option string :=
  match header with
  | Some v => if String.eqb v EmptyString then None else Some v
  | None => None
  end.

End Auth.

Module GeocodeRoute.
Import Geocoding Auth.

Section Handler.
Context {Result Options Details : Type}.

(** What [await request.json()] and [geocodeRequestSchema.safeParse]
    make of the body: reading it throws, the schema rejects it with some
    details, or it is a request. *)
Inductive ParsedBody :=
  | Unreadable
  | Rejected (details : Details)
  | Parsed (req : GeocodeRequest Options).

(** The responses of the handler: those of the selection, and the 400 of
    the schema check, which carries the details. *)
Inductive Answer :=
  | Plain (response : HttpResponse Result)
  | InvalidRequest (details : Details).

(** The whole [POST] handler. *)
Definition handle (env : option string)
    (providers : list (GeocodingProvider Result Options))
    (header : option string) (parsed : ParsedBody) : M Answer :=
  let apiKey := getApiKeyFromRequest header in
  if negb (validateApiKey (ALLOWED_API_KEYS env) apiKey)
  then ret (Plain (jsonStatus (ErrorBody "Unauthorized - Invalid API key") 401))
  else
    match parsed with
    | Unreadable => ret (Plain (jsonStatus (ErrorBody "Internal server error") 500))
    | Rejected details => ret (InvalidRequest details)
    | Parsed req =>
        await response := POST providers req in
        ret (Plain response)
    end.

End Handler.

Arguments ParsedBody : clear implicits.
Arguments Answer : clear implicits.

End GeocodeRoute.
(** ** Vocabulary of the further geocoding properties *)

Module GeocodeSpec.
Import Geocoding Selection.

(** An outcome is well formed when a success carries no error and a
    failure carries no results and an error whose code and message are
    not empty. *)
Definition wellFormedOutcome {Result} (r : GeocodeResponse Result) : Prop :=
  if success r then error r = None
  else results r = []
       /\ exists e, error r = Some e
                    /\ Geocoding.code e <> EmptyString
                    /\ Geocoding.message e <> EmptyString.

(** Whether a reply of the Google endpoint has the status OK. *)
Definition googleOk {A} (reply : GoogleReply A) : bool :=
  match reply with
  | GoogleData st _ => String.eqb st "OK"
  | GoogleRejected _ => false
  end.

Definition googleHasResults {A} (reply : GoogleReply A) : bool :=
  match reply with
  | GoogleData st (_ :: _) => String.eqb st "OK"
  | _ => false
  end.

(** The free provider answers the request: it is available, the address
    passes its heuristic, and its upstream has a match. *)
Definition censusAnswers {A} (censusApi : string -> CensusReply A)
    (address : string) : bool :=
  censusHasMatches (censusApi censusProbeAddress)
  && CensusHeuristic.isUSAddress address
  && censusHasMatches (censusApi address).

Definition isGoogleRequest (e : Event) : bool :=
  match e with
  | Upstream GoogleHost _ => true
  | _ => false
  end.

Definition noProvider {Options} (address : string) (options : option Options)
  : GeocodeRequest Options :=
  {| address := address; preferredProvider := None; options := options |}.

End GeocodeSpec.
(** ** Vocabulary of the further review properties *)

Module PageSpec.
Import Json Reviews ReviewSpec ChunkSpec.

Definition currentPageOf (response : ReviewResponse) : option Z :=
  match pagination response with
  | Some pg => currentPage pg
  | None => None
  end.

Definition totalPagesOf (response : ReviewResponse) : option Z :=
  match pagination response with
  | Some pg => totalPages pg
  | None => None
  end.

(** The page numbers [first], [first + 1], ... of [n] pages in a row. *)
Fixpoint numbering (first : Z) (n : nat) : list (option Z) :=
  match n with
  | O => []
  | S n' => Some first :: numbering (first + 1) n'
  end.

Section Chains.
Variable coerceToNumber : json -> option Z.
Variable dateGetTime : string -> option Z.

(** The options, page token included, with which the calls of a
    continuation chain are made; it follows [chunkedChain]. *)
Fixpoint chainOptions (calls : list Call) (token : option Decoded)
  : list ReviewOptions :=
  match calls with
  | [] => []
  | c :: rest =>
      withPageToken (callOptions c) token ::
      match emittedToken (answer coerceToNumber dateGetTime c token) with
      | Some t => chainOptions rest (Some (Document t))
      | None => []
      end
  end.

(** The minimum rating in force for a call. *)
Definition minimumInForce (options : ReviewOptions) : option json :=
  minimumRating (decodeChunkToken options).

(** The sort orders a call's token lists as fetched. *)
Definition fetchedBefore (options : ReviewOptions) : json :=
  fetchedMethods (decodeChunkToken options).

End Chains.

(** The sort order of the [k]-th call of a chain that starts afresh. *)
Definition rotation (k : nat) : string :=
  nth k allSortMethods "most_relevant".

(** The [fetchedMethods] array after the first [k] sort orders. *)
Definition listed (k : nat) : json :=
  JArray (map JString (take k allSortMethods)).

End PageSpec.
(** ** Concrete runs for the further chunked-mode properties *)

Module DemoFilter.
Import Json Reviews ReviewSpec ChunkSpec DemoReviews.

(** A first call that asks for reviews rated 4 or more, and a second call
    that asks for no minimum at all, against an endpoint that knows
    [ann], [bob] and [cyd]. *)
Definition pickyCall : Call :=
  {| callDetails := DetailsOk place;
     callApi := always [ann; bob; cyd];
     callPlace := "place";
     callOptions := options None (Some 4) None |}.

Definition laxCall : Call :=
  {| callDetails := DetailsOk place;
     callApi := always [ann; bob; cyd];
     callPlace := "place";
     callOptions := options None None None |}.

(** The options of the second call of the chain [pickyCall; laxCall]. *)
Definition secondCallOptions : ReviewOptions :=
  match emittedToken (answer noCoercion noDate pickyCall None) with
  | Some t => withPageToken (callOptions laxCall) (Some (Document t))
  | None => callOptions laxCall
  end.

End DemoFilter.
(** ** The reviews provider with its caches, its clock and its upstream

    [GoogleReviewsProvider] keeps two in-memory caches, reads the clock
    with [Date.now()] and asks the place-details endpoint with
    [axios.get]. The methods are embedded as state transformers: the
    state holds the two caches, the number of clock readings made so far
    and the log of the requests sent; the clock is the sequence of the
    values [Date.now()] returns, and the upstream says how each request is
    answered at the time of the call. *)

Module GoogleReviewsProvider.
Import JsString Json Reviews.

(** The [params] of a request to the place-details endpoint. *)
Record Request := {
  place_id : string;
  key : string;
  reqLanguage : string;
  fields : string;
  reviews_sort : option string
}.

(** The [result] member of a reply asked for place fields. *)
Record PlaceResult := {
  resultName : option string;
  resultRating : option (Z * Z);
  userRatingsTotal : option Z;
  resultUrl : option string
}.

Inductive DetailsReply :=
  | DetailsRejected (e : Thrown)
  | DetailsData (status : string) (error_message : option string)
      (result : option PlaceResult).

Record Upstream := {
  detailsOf : Request -> DetailsReply;
  reviewsOf : Request -> ReviewsReply
}.

Record DetailsEntry := { cachedSummary : PlaceSummary; storedAt : Z }.

Record State := {
  reviewsCache : gmap string CacheEntry;
  detailsCache : gmap string DetailsEntry;
  reads : nat;
  traffic : list Request
}.

Definition Prog (A : Type) : Type := State -> A * State.

Definition ret {A} (a : A) : Prog A := fun st => (a, st).

Definition seq {A B} (m : Prog A) (f : A -> Prog B) : Prog B :=
  fun st => let '(a, st') := m st in f a st'.

Notation "'perform' x ':=' m 'in' k" := (seq m (fun x => k))
  (at level 10, x name, m at level 100, k at level 200).

(** [axios.get(url, { params })] against an endpoint. *)
Definition axiosGet {R} (endpoint : Request -> R) (req : Request) : Prog R :=
  fun st =>
    (endpoint req,
     {| reviewsCache := reviewsCache st; detailsCache := detailsCache st;
        reads := reads st; traffic := traffic st ++ [req] |}).

Definition setDetails (cacheKey : string) (entry : DetailsEntry) : Prog unit :=
  fun st =>
    (tt,
     {| reviewsCache := reviewsCache st;
        detailsCache := <[cacheKey := entry]> (detailsCache st);
        reads := reads st; traffic := traffic st |}).

Definition setReviews (cacheKey : string) (entry : CacheEntry) : Prog unit :=
  fun st =>
    (tt,
     {| reviewsCache := <[cacheKey := entry]> (reviewsCache st);
        detailsCache := detailsCache st;
        reads := reads st; traffic := traffic st |}).

(** What a [catch] block makes of a thrown value. *)
Definition errorOf (e : Thrown) : ReviewError :=
  {| code := orDefault (responseStatus e) "UNKNOWN";
     message := orDefault (Some (thrownMessage e)) "Unknown error occurred" |}.

Definition thrownError (msg : string) : Thrown :=
  {| responseStatus := None; thrownMessage := msg |}.

Definition detailsRequest (apiKey placeId lang wanted : string) : Request :=
  {| place_id := placeId; key := apiKey; reqLanguage := lang;
     fields := wanted; reviews_sort := None |}.

Definition reviewsRequest (apiKey placeId lang sortBy : string) : Request :=
  {| place_id := placeId; key := apiKey; reqLanguage := lang;
     fields := "reviews"; reviews_sort := Some sortBy |}.

Definition detailsKey (placeId lang : string) : string :=
  placeId +:+ "_" +:+ lang +:+ "_details".

Definition reviewsKey (placeId lang : string) : string :=
  placeId +:+ "_" +:+ lang.

(** The summary built from the two replies. *)
Definition summaryOf (placeId : string) (basicResult : PlaceResult)
    (detailsResult : option PlaceResult) : PlaceSummary :=
  {| placeName := orDefault (resultName basicResult) EmptyString;
     placeRating := match resultRating basicResult with
                    | Some r => r
                    | None => (0, 1)
                    end;
     placeTotalReviews := match userRatingsTotal basicResult with
                          | Some n => n
                          | None => 0
                          end;
     placeUrl := Some (orDefault (detailsResult ≫= resultUrl)
                         ("https://www.google.com/maps/place/?q=place_id:"
                          +:+ placeId)) |}.

Definition failedMessage (status : string) (error_message : option string)
  : string :=
  "Fetching place details failed: " +:+ status +:+
  match error_message with
  | Some m => if String.eqb m EmptyString then EmptyString else " - " +:+ m
  | None => EmptyString
  end.

Definition sortOrders : list string :=
  ["most_relevant"; "newest"; "highest_rating"].

Definition probePlace : string := "ChIJK7PWTAelK4cRA4mU_lf0uXc".

Section Provider.
Variable apiKey : string.
Variable clock : nat -> Z.

(** [Date.now()] *)
Definition dateNow : Prog Z :=
  fun st =>
    (clock (reads st),
     {| reviewsCache := reviewsCache st; detailsCache := detailsCache st;
        reads := S (reads st); traffic := traffic st |}).

(** [cachedData && (Date.now() - cachedData.timestamp) < CACHE_EXPIRATION]:
    the clock is read only when there is an entry. *)
Definition unexpired {E} (stamp : E -> Z) (cachedData : option E)
  : Prog (option E) :=
  match cachedData with
  | None => ret None
  | Some entry =>
      perform now := dateNow in
      ret (if now - stamp entry <? CACHE_EXPIRATION then Some entry else None)
  end.

Definition getPlaceDetails (up : Upstream) (placeId lang : string)
  : Prog PlaceDetails :=
  let cacheKey := detailsKey placeId lang in
  fun st =>
  (perform usable := unexpired storedAt (detailsCache st !! cacheKey) in
   match usable with
   | Some cachedData => ret (DetailsOk (cachedSummary cachedData))
   | None =>
       if String.eqb apiKey EmptyString
       then ret (DetailsFailed
                   {| code := "API_KEY_MISSING";
                      message := "Google Maps API key is not configured" |})
       else
         perform basicResponse :=
           axiosGet (detailsOf up)
             (detailsRequest apiKey placeId lang
                "name,rating,user_ratings_total,formatted_address") in
         match basicResponse with
         | DetailsRejected e => ret (DetailsFailed (errorOf e))
         | DetailsData status error_message basicResult =>
             if negb (String.eqb status "OK")
             then ret (DetailsFailed
                         (errorOf (thrownError
                                     (failedMessage status error_message))))
             else
               perform detailsResponse :=
                 axiosGet (detailsOf up)
                   (detailsRequest apiKey placeId lang "url") in
               match detailsResponse with
               | DetailsRejected e => ret (DetailsFailed (errorOf e))
               | DetailsData _ _ detailsResult =>
                   match basicResult with
                   | None =>
                       ret (DetailsFailed
                              (errorOf (typeError
                                 "Cannot read properties of undefined (reading 'name')")))
                   | Some basic =>
                       let summary := summaryOf placeId basic detailsResult in
                       perform now := dateNow in
                       perform _ :=
                         setDetails cacheKey
                           {| cachedSummary := summary; storedAt := now |} in
                       ret (DetailsOk summary)
                   end
               end
         end
   end) st.

(** [getReviewsForPlace]: the three requests are sent in the order of the
    array literal. *)
Definition getReviewsForPlace (up : Upstream) (placeId lang : string)
    (minimumRating : option Z) : Prog (list Review) :=
  let cacheKey := reviewsKey placeId lang in
  fun st =>
  (perform usable := unexpired timestamp (reviewsCache st !! cacheKey) in
   perform allReviews :=
     match usable with
     | Some cachedData => ret (cachedReviews cachedData)
     | None =>
         perform relevant :=
           axiosGet (reviewsOf up)
             (reviewsRequest apiKey placeId lang "most_relevant") in
         perform newest :=
           axiosGet (reviewsOf up)
             (reviewsRequest apiKey placeId lang "newest") in
         perform highest :=
           axiosGet (reviewsOf up)
             (reviewsRequest apiKey placeId lang "highest_rating") in
         let combinedReviews :=
           deduplicateReviews
             (results (fetchReviewsWithSort relevant) ++
              results (fetchReviewsWithSort newest) ++
              results (fetchReviewsWithSort highest)) in
         perform now := dateNow in
         perform _ :=
           setReviews cacheKey
             {| cachedReviews := combinedReviews; timestamp := now |} in
         ret combinedReviews
     end in
   ret (applyRatingFilter minimumRating allReviews)) st.

Definition isAvailable (up : Upstream) : Prog bool :=
  if String.eqb apiKey EmptyString then ret false
  else
    perform response := getPlaceDetails up probePlace "en" in
    ret (success (detailsResponse response)).

(** [getReviews]: the details, then the list, then the page. *)
Definition getReviews (up : Upstream) (placeId : string)
    (options : ReviewOptions) : Prog ReviewResponse :=
  let lang := orDefault (optLanguage options) "en" in
  perform placeDetails := getPlaceDetails up placeId lang in
  match placeDetails with
  | DetailsFailed _ => ret (detailsResponse placeDetails)
  | DetailsOk _ =>
      perform allReviews :=
        getReviewsForPlace up placeId lang (optMinimumRating options) in
      ret (Reviews.getReviews placeDetails allReviews placeId options)
  end.

Variable coerceToNumber : json -> option Z.
Variable dateGetTime : string -> option Z.

(** [getReviewsChunked]: the details, then one request for the sort order
    of the call, unless choosing the sort order has thrown. *)
Definition getReviewsChunked (up : Upstream) (placeId : string)
    (options : ReviewOptions) : Prog ReviewResponse :=
  let lang := orDefault (optLanguage options) "en" in
  perform placeDetails := getPlaceDetails up placeId lang in
  match placeDetails with
  | DetailsFailed _ => ret (detailsResponse placeDetails)
  | DetailsOk _ =>
      let endpoint sortBy :=
        reviewsOf up (reviewsRequest apiKey placeId lang sortBy) in
      perform _ :=
        match nextSortMethodsOf coerceToNumber (decodeChunkToken options) with
        | Done methods =>
            perform _ :=
              axiosGet (reviewsOf up)
                (reviewsRequest apiKey placeId lang (hd EmptyString methods)) in
            ret tt
        | Raised _ => ret tt
        end in
      ret (Reviews.getReviewsChunked coerceToNumber dateGetTime placeDetails
             endpoint placeId options)
  end.

End Provider.

End GoogleReviewsProvider.
(** ** Vocabulary of the provider properties *)

Module ProviderSpec.
Import JsString Json Reviews GoogleReviewsProvider.

(** The requests sent between two states. *)
Definition sent (before after : State) : list Request :=
  drop (length (traffic before)) (traffic after).

(** The state after [n] more clock readings and nothing else. *)
Definition later (n : nat) (st : State) : State :=
  {| reviewsCache := reviewsCache st; detailsCache := detailsCache st;
     reads := (n + reads st)%nat; traffic := traffic st |}.

(** An entry stamped [stamp] is still usable at the clock value [now]. *)
Definition usableAt (now stamp : Z) : Prop :=
  now - stamp < CACHE_EXPIRATION.

Definition isDetailsRequest (r : Request) : Prop := reviews_sort r = None.

(** The three requests of a refill of the reviews cache. *)
Definition refill (apiKey placeId lang : string) : list Request :=
  map (reviewsRequest apiKey placeId lang) sortOrders.

(** The list a refill stores. *)
Definition combined (apiKey : string) (up : Upstream) (placeId lang : string)
  : list Review :=
  let fetched sortBy :=
    results (fetchReviewsWithSort
               (reviewsOf up (reviewsRequest apiKey placeId lang sortBy))) in
  deduplicateReviews
    (fetched "most_relevant" ++ fetched "newest" ++ fetched "highest_rating").

(** No usable entry under a key: none at all, or an expired one. *)
Definition noneUsable {E} (stamp : E -> Z) (cachedData : option E) (now : Z)
  : Prop :=
  forall entry, cachedData = Some entry -> ~ usableAt now (stamp entry).

(** A reply to a request for reviews from which no review comes. *)
Definition yieldsNothing (reply : ReviewsReply) : Prop :=
  match reply with
  | ReviewsRejected _ => True
  | ReviewsData status reviews =>
      status <> "OK" \/ reviews = None \/ reviews = Some []
  end.

Definition languageOf (options : ReviewOptions) : string :=
  orDefault (optLanguage options) "en".

End ProviderSpec.

(** ** A concrete provider run *)

Module DemoProvider.
Import Json Reviews GoogleReviewsProvider DemoReviews.

Definition cafe : PlaceResult :=
  {| resultName := Some "Cafe"; resultRating := Some (9, 2);
     userRatingsTotal := Some 40; resultUrl := None |}.

(** An upstream that knows the cafe and three of its reviews. *)
Definition online : Upstream :=
  {| detailsOf := fun _ => DetailsData "OK" None (Some cafe);
     reviewsOf := fun _ => ReviewsData "OK" (Some [ann; bob; cyd]) |}.

(** An upstream that rejects every request. *)
Definition timedOut : Thrown :=
  {| responseStatus := None; thrownMessage := "timeout of 5000ms exceeded" |}.

Definition offline : Upstream :=
  {| detailsOf := fun _ => DetailsRejected timedOut;
     reviewsOf := fun _ => ReviewsRejected timedOut |}.

(** A clock that advances one second per reading. *)
Definition seconds (n : nat) : Z := 1000 * Z.of_nat n.

Definition start : State :=
  {| reviewsCache := ∅; detailsCache := ∅; reads := 0; traffic := [] |}.

End DemoProvider.
(** ** The request handler of the reviews route *)

Module ReviewsRoute.
Import JsString Json Reviews Auth GoogleReviewsProvider.

(** The data of a parsed request; the page token is kept as the provider
    will decode it. The numbers of [options] are whole numbers. *)
Record ReviewRequest := {
  placeId : string;
  options : ReviewOptions;
  chunked : option bool
}.

(** [reviewRequestSchema] on a request whose [maxResults] and
    [minimumRating] are whole numbers, for the members the handler uses.
    The schema has no [.int()]: it accepts fractions as well, which are
    not requests of this model. *)
Definition schemaAcceptsWhole (req : ReviewRequest) : Prop :=
  placeId req <> EmptyString
  /\ (forall n, maxResults (options req) = Some n -> 0 < n <= 100)
  /\ (forall m, optMinimumRating (options req) = Some m -> 1 <= m <= 5).

Section Handler.
Context {Details : Type}.

Inductive ParsedBody :=
  | Unreadable
  | Rejected (details : Details)
  | Parsed (req : ReviewRequest).

Inductive Body :=
  | ErrorBody (error : string)
  | InvalidRequest (details : Details)
  | ReviewsBody (response : ReviewResponse).

Record HttpResponse := { body : Body; status : Z }.

(** [Response.json(body, { status })]; the status defaults to 200. *)
Definition json (b : Body) : HttpResponse := {| body := b; status := 200 |}.
Definition jsonStatus (b : Body) (st : Z) : HttpResponse :=
  {| body := b; status := st |}.

Variable env : option string.
Variable apiKey : string.
Variable clock : nat -> Z.
Variable coerceToNumber : Json.json -> option Z.
Variable dateGetTime : string -> option Z.

(** [searchParams.get('chunked') === 'true' || body.chunked === true] *)
Definition useChunkedLoading (query : option string) (req : ReviewRequest)
  : bool :=
  match query with Some v => String.eqb v "true" | None => false end
  || match chunked req with Some b => b | None => false end.

(** The [POST] handler; [query] is the [chunked] search parameter. *)
Definition POST (header query : option string) (parsed : ParsedBody)
    (up : Upstream) : Prog HttpResponse :=
  if negb (validateApiKey (ALLOWED_API_KEYS env) (getApiKeyFromRequest header))
  then ret (jsonStatus (ErrorBody "Unauthorized - Invalid API key") 401)
  else
    match parsed with
    | Unreadable => ret (jsonStatus (ErrorBody "Internal server error") 500)
    | Rejected details => ret (jsonStatus (InvalidRequest details) 400)
    | Parsed req =>
        perform available := isAvailable apiKey clock up in
        if negb available
        then ret (jsonStatus (ErrorBody "Reviews provider is not available") 503)
        else
          perform response :=
            (if useChunkedLoading query req
             then getReviewsChunked apiKey clock coerceToNumber dateGetTime up
                    (placeId req) (options req)
             else getReviews apiKey clock up (placeId req) (options req)) in
          ret (json (ReviewsBody response))
    end.

End Handler.

Arguments ParsedBody : clear implicits.
Arguments Body : clear implicits.
Arguments HttpResponse : clear implicits.

End ReviewsRoute.
(** ** Vocabulary and a concrete run of the reviews route *)

Module RouteSpec.
Import Json Reviews Auth GoogleReviewsProvider ReviewsRoute.

Definition authorised (env header : option string) : bool :=
  validateApiKey (ALLOWED_API_KEYS env) (getApiKeyFromRequest header).

(** The reviews a response of the route carries. *)
Definition reviewsOfBody {Details} (b : Body Details) : list Review :=
  match b with
  | ReviewsBody response => results response
  | _ => []
  end.

(** The mode the handler chooses. *)
Definition modeOf (apiKey : string) (clock : nat -> Z)
    (coerceToNumber : Json.json -> option Z) (dateGetTime : string -> option Z)
    (query : option string) (req : ReviewRequest) (up : Upstream)
  : Prog ReviewResponse :=
  if useChunkedLoading query req
  then GoogleReviewsProvider.getReviewsChunked apiKey clock coerceToNumber
         dateGetTime up (placeId req) (options req)
  else GoogleReviewsProvider.getReviews apiKey clock up (placeId req)
         (options req).

End RouteSpec.

Module DemoRoute.
Import Json Reviews GoogleReviewsProvider DemoReviews DemoProvider ReviewsRoute.

(** A request for the reviews of the cafe rated 4 or more. *)
Definition request : ReviewRequest :=
  {| placeId := "place";
     options := DemoReviews.options None (Some 4) None;
     chunked := None |}.

(** The answer of a server configured with the client key [k1] and a
    Google key, to that request sent with the key [k1]. *)
Definition answer : HttpResponse unit :=
  fst (POST (Some "k1,k2") "key" seconds noCoercion noDate
         (Some "k1") None (Parsed request) online start).

Definition answered : ReviewResponse :=
  match body answer with
  | ReviewsBody response => response
  | _ => emptySuccess
  end.

End DemoRoute.
(** ** Census batch geocoding ([lib/census-batch.ts]) *)

Module CensusBatch.
Import JsString Auth Reviews.

Record BatchGeocodeAddress := {
  addressId : string;
  street : string;
  city : string;
  state : string;
  zip : option string
}.

Definition quote : ascii := "034"%char.
Definition newline : ascii := "010"%char.

(** [field.replace] of every double quote by [replacement]. *)
Fixpoint replaceQuotes (replacement field : string) : string :=
  match field with
  | EmptyString => EmptyString
  | String c rest =>
      if Ascii.eqb c quote then replacement +:+ replaceQuotes replacement rest
      else String c (replaceQuotes replacement rest)
  end.

Definition quoteText : string := String quote EmptyString.

Definition escapeField (field : string) : string :=
  if includes field "," || includes field quoteText
  then quoteText +:+ replaceQuotes (String quote quoteText) field +:+ quoteText
  else field.

Definition csvRow (addr : BatchGeocodeAddress) : string :=
  join ","%char
    [escapeField (addressId addr); escapeField (street addr);
     escapeField (city addr); escapeField (state addr);
     escapeField (orDefault (zip addr) EmptyString)].

Definition formatAddressesForBatch (addresses : list BatchGeocodeAddress)
  : string :=
  "ID,Address,City,State,ZIP" +:+ String newline EmptyString +:+
  join newline (map csvRow addresses).

(** [String.prototype.trim] on ASCII text. *)
Definition isSpace (c : ascii) : bool :=
  ((9 <=? nat_of_ascii c) && (nat_of_ascii c <=? 13) || (nat_of_ascii c =? 32))%nat.

Fixpoint trimStart (s : string) : string :=
  match s with
  | EmptyString => EmptyString
  | String c rest => if isSpace c then trimStart rest else s
  end.

Fixpoint trimEnd (s : string) : string :=
  match s with
  | EmptyString => EmptyString
  | String c rest =>
      let kept := trimEnd rest in
      if isSpace c && String.eqb kept EmptyString then EmptyString
      else String c kept
  end.

Definition trim (s : string) : string := trimEnd (trimStart s).

Section Batch.
(** The finite numbers, which of them are zero, and [parseFloat] on
    strings. *)
Variable V : Type.
Variable isZero : V -> bool.

Inductive JsNumber :=
  | NaN
  | Num (v : V).

Variable parseFloat : string -> JsNumber.

(** [parseFloat] of an element that may be [undefined], whose text is
    not a number. *)
Definition parseFloatOf (s : option string) : JsNumber :=
  match s with
  | Some text => parseFloat text
  | None => NaN
  end.

(** Truthiness of a number that may be [undefined]. *)
Definition truthyNumber (n : option JsNumber) : bool :=
  match n with
  | Some (Num v) => negb (isZero v)
  | _ => false
  end.

Record BatchGeocodeResult := {
  resultId : string;
  inputAddress : string;
  matched : bool;
  latitude : option JsNumber;
  longitude : option JsNumber;
  matchedAddress : option string;
  matchType : option string;
  coordinates : option string;
  tigerLineId : option string;
  side : option string
}.

(** The body of the loop of [parseBatchResults] for one line. *)
Definition parseLine (line : string) : list BatchGeocodeResult :=
  if String.eqb (trim line) EmptyString then []
  else
    match split ","%char line with
    | id :: input :: matchedText :: matchTypeText :: coordinatesText :: rest =>
        let located := negb (String.eqb coordinatesText EmptyString) in
        let pieces := split ","%char coordinatesText in
        let lng := pieces !! 0%nat in
        let lat := pieces !! 1%nat in
        let isMatch := String.eqb matchedText "Match" in
        [{| resultId := replaceQuotes EmptyString id;
            inputAddress := replaceQuotes EmptyString input;
            matched := isMatch;
            latitude := if located then Some (parseFloatOf lat) else None;
            longitude := if located then Some (parseFloatOf lng) else None;
            matchedAddress :=
              if isMatch then Some (replaceQuotes EmptyString input) else None;
            matchType := Some (replaceQuotes EmptyString matchTypeText);
            coordinates := Some (replaceQuotes EmptyString coordinatesText);
            tigerLineId := replaceQuotes EmptyString <$> rest !! 0%nat;
            side := replaceQuotes EmptyString <$> rest !! 1%nat |}]
    | _ => []
    end.

(** [parseBatchResults]: the first line is skipped. *)
Definition parseBatchResults (csvData : string) : list BatchGeocodeResult :=
  flat_map parseLine (tail (split newline (trim csvData))).

Record Located := {
  locLatitude : option JsNumber;
  locLongitude : option JsNumber;
  formattedAddress : string;
  raw : BatchGeocodeResult
}.

Record StandardResponse := {
  success : bool;
  provider : string;
  results : list Located;
  error : option ReviewError
}.

Definition convertOne (result : BatchGeocodeResult) : StandardResponse :=
  {| success := matched result;
     provider := "census-batch";
     results :=
       if matched result && truthyNumber (latitude result)
          && truthyNumber (longitude result)
       then [{| locLatitude := latitude result;
                locLongitude := longitude result;
                formattedAddress :=
                  orDefault (matchedAddress result) (inputAddress result);
                raw := result |}]
       else [];
     error :=
       if matched result then None
       else Some {| code := "NO_MATCH";
                    message := "Address could not be matched" |} |}.

Definition convertBatchResultsToStandardFormat
    (results : list BatchGeocodeResult) : list StandardResponse :=
  map convertOne results.

(** The form posted to the batch endpoint. *)
Record BatchRequest := {
  url : string;
  addressFile : string;
  benchmark : string;
  vintage : string
}.

(** What [submitBatchGeocode] throws. *)
Variable E : Type.

Inductive BatchError :=
  | TooManyAddresses
  | ApiError (status : Z) (statusText : string)
  | Rejected (e : E).

(** [fetch] rejects, or gives a response whose [text()] may reject. *)
Inductive FetchReply :=
  | FetchRejected (e : E)
  | FetchResponse (ok : bool) (status : Z) (statusText : string)
      (text : E + string).

Variable upstream : BatchRequest -> FetchReply.

Definition batchRequest (addresses : list BatchGeocodeAddress)
    (returnType benchmarkName : string) : BatchRequest :=
  {| url := "https://geocoding.geo.census.gov/geocoder/" +:+ returnType
            +:+ "/addressbatch";
     addressFile := formatAddressesForBatch addresses;
     benchmark := benchmarkName;
     vintage := "Current_Current" |}.

(** [submitBatchGeocode]: what it returns or throws, and the requests it
    has sent. *)
Definition submitBatchGeocode (addresses : list BatchGeocodeAddress)
    (returnType benchmarkName : string)
  : (BatchError + list BatchGeocodeResult) * list BatchRequest :=
  if (length addresses =? 0)%nat then (inr [], [])
  else if 10000 <? Z.of_nat (length addresses) then (inl TooManyAddresses, [])
  else
    let request := batchRequest addresses returnType benchmarkName in
    (match upstream request with
     | FetchRejected e => inl (Rejected e)
     | FetchResponse ok status statusText text =>
         if negb ok then inl (ApiError status statusText)
         else match text with
              | inl e => inl (Rejected e)
              | inr resultCsv => inr (parseBatchResults resultCsv)
              end
     end, [request]).

(** The [for] loop of [processLargeBatch] from index [i]; [None] when
    [fuel] iterations did not leave the loop. *)
Fixpoint batchLoop (fuel : nat) (addresses : list BatchGeocodeAddress)
    (chunkSize : Z) (returnType benchmarkName : string)
    (i : Z) (collected : list BatchGeocodeResult)
  : option (list BatchGeocodeResult * list BatchRequest) :=
  match fuel with
  | O => None
  | S fuel' =>
      if i <? Z.of_nat (length addresses) then
        let chunk := slice addresses i (i + chunkSize) in
        let '(outcome, sent) :=
          submitBatchGeocode chunk returnType benchmarkName in
        let collected' :=
          match outcome with
          | inr chunkResults => collected ++ chunkResults
          | inl _ => collected
          end in
        match batchLoop fuel' addresses chunkSize returnType benchmarkName
                (i + chunkSize) collected' with
        | Some (all, later) => Some (all, sent ++ later)
        | None => None
        end
      else Some (collected, [])
  end.

Definition processLargeBatch (fuel : nat)
    (addresses : list BatchGeocodeAddress) (chunkSize : Z)
    (returnType benchmarkName : string)
  : option (list BatchGeocodeResult * list BatchRequest) :=
  batchLoop fuel addresses chunkSize returnType benchmarkName 0 [].

(** What one chunk contributes. *)
Definition chunkResults (returnType benchmarkName : string)
    (chunk : list BatchGeocodeAddress) : list BatchGeocodeResult :=
  match fst (submitBatchGeocode chunk returnType benchmarkName) with
  | inr parsed => parsed
  | inl _ => []
  end.

Definition chunkRequests (returnType benchmarkName : string)
    (chunk : list BatchGeocodeAddress) : list BatchRequest :=
  snd (submitBatchGeocode chunk returnType benchmarkName).

End Batch.

Arguments NaN {V}.
Arguments Num {V} v.

End CensusBatch.

(** ** The key check of the distance route ([api/v1/distance/route.ts]) *)

Module DistanceRoute.
Import JsString Auth.

(** [process.env.ALLOWED_API_KEYS?.split(',') || []] *)
Definition ALLOWED_API_KEYS (env : option string) : list string :=
  match env with
  | Some v => split ","%char v
  | None => []
  end.

(** [!(!apiKey || !ALLOWED_API_KEYS.includes(apiKey))] for the value of
    the [x-api-key] header. *)
Definition authorised (env header : option string) : bool :=
  match header with
  | None => false
  | Some apiKey =>
      negb (String.eqb apiKey EmptyString
            || negb (existsb (String.eqb apiKey) (ALLOWED_API_KEYS env)))
  end.

End DistanceRoute.

(** ** A concrete batch *)

Module DemoBatch.
Import CensusBatch.

Definition address (n : string) : BatchGeocodeAddress :=
  {| addressId := n; street := "1 Main St"; city := "Mesa"; state := "AZ";
     zip := None |}.

Definition threeAddresses : list BatchGeocodeAddress :=
  [address "1"; address "2"; address "3"].

Definition notANumber (s : string) : JsNumber Z := NaN.

(** An endpoint that answers every batch with a header line only. *)
Definition headerOnly (r : BatchRequest) : FetchReply unit :=
  FetchResponse unit true 200 "OK" (inr "ID,Address,Match").

End DemoBatch.
(** ** The health route ([api/v1/health/route.ts]) *)

Module HealthRoute.
Import Auth.

(** Whether the upstream answers both requests of [getPlaceDetails] for a
    place so that a summary can be built. *)
Definition detailsAnswered (apiKey : string)
    (up : GoogleReviewsProvider.Upstream) (placeId lang : string) : bool :=
  match GoogleReviewsProvider.detailsOf up
          (GoogleReviewsProvider.detailsRequest apiKey placeId lang
             "name,rating,user_ratings_total,formatted_address") with
  | GoogleReviewsProvider.DetailsData status _ (Some _) =>
      String.eqb status "OK" &&
      match GoogleReviewsProvider.detailsOf up
              (GoogleReviewsProvider.detailsRequest apiKey placeId lang "url") with
      | GoogleReviewsProvider.DetailsData _ _ _ => true
      | GoogleReviewsProvider.DetailsRejected _ => false
      end
  | _ => false
  end.

(** [new GoogleReviewsProvider()] when the clock has been read [n] times:
    both caches are empty. *)
Definition fresh (n : nat) : GoogleReviewsProvider.State :=
  {| GoogleReviewsProvider.reviewsCache := ∅;
     GoogleReviewsProvider.detailsCache := ∅;
     GoogleReviewsProvider.reads := n;
     GoogleReviewsProvider.traffic := [] |}.

(** The answers: 401, 200 with the two flags, and the 500 of the [catch]. *)
Inductive Answer :=
  | Unauthorized
  | Healthy (geocoding reviews : bool)
  | Failed.

Section Handler.
Context {Result Options GoogleResult : Type}.
Variable env : option string.
Variable googleApi : string -> option Options -> Geocoding.GoogleReply GoogleResult.
Variable transformResult : GoogleResult -> Result.
Variable apiKey : string.
Variable clock : nat -> Z.

(** [GET]: the answer, the requests of the geocoding provider and those
    of the reviews provider; both providers are created by the call. *)
Definition GET (header : option string) (up : GoogleReviewsProvider.Upstream)
    (n : nat)
  : Answer * list Geocoding.Event * list GoogleReviewsProvider.Request :=
  if negb (validateApiKey (ALLOWED_API_KEYS env) (getApiKeyFromRequest header))
  then (Unauthorized, [], [])
  else
    let geocoding :=
      Geocoding.isAvailable (Geocoding.GoogleProvider googleApi transformResult) in
    let reviews := GoogleReviewsProvider.isAvailable apiKey clock up (fresh n) in
    (match Geocoding.value geocoding with
     | Geocoding.Returned available => Healthy available (fst reviews)
     | Geocoding.Threw => Failed
     end,
     Geocoding.effects geocoding,
     GoogleReviewsProvider.traffic (snd reviews)).

End Handler.

End HealthRoute.
(** * Properties *)

(** ** The country heuristic *)

Section HeuristicFacts.
Import JsString CensusHeuristic.

Lemma upperChar_idem c : upperChar (upperChar c) = upperChar c.
Proof.
  destruct c as [[] [] [] [] [] [] [] []]; vm_compute; reflexivity.
Qed.




End HeuristicFacts.



(** The heuristic on addresses of the repository's test scripts and on
    the two words the claim gives. *)
Example isUSAddress_white_house :
  CensusHeuristic.isUSAddress "1600 Pennsylvania Avenue NW, Washington, DC 20500" = true.
Proof. vm_compute. reflexivity. Qed.

Example isUSAddress_zip_only : CensusHeuristic.isUSAddress "90210" = true.
Proof. vm_compute. reflexivity. Qed.

Example isUSAddress_rivoli :
  CensusHeuristic.isUSAddress "1 Rue de Rivoli, Paris, France" = true.
Proof. vm_compute. reflexivity. Qed.

Example isUSAddress_australia :
  CensusHeuristic.isUSAddress "Sydney Opera House, Australia" = true.
Proof. vm_compute. reflexivity. Qed.

Example isUSAddress_eiffel :
  CensusHeuristic.isUSAddress "Tour Eiffel, Paris, France" = false.
Proof. vm_compute. reflexivity. Qed.

Example zipPattern_cases :
  JsString.test CensusHeuristic.zipPattern "Beverly Hills 90210" = true
  /\ JsString.test CensusHeuristic.zipPattern "12345-6789" = true
  /\ JsString.test CensusHeuristic.zipPattern "123456" = false
  /\ JsString.test CensusHeuristic.zipPattern "x12345" = false
  /\ JsString.test CensusHeuristic.statePattern "PARIS, TX" = true
  /\ JsString.test CensusHeuristic.statePattern "TEXAS" = false.
Proof. vm_compute. repeat split. Qed.

(** ** Provider selection *)

Section SelectionFacts.
Import Geocoding Selection.
Context {Result Options : Type}.

Local Abbreviation Provider := (GeocodingProvider Result Options).

Lemma value_bind {A B} (m : M A) (f : A -> M B) :
  value (bind m f) = value (f (value m)).
Proof. destruct m as [a l]. simpl. by destruct (f a). Qed.

Lemma effects_bind {A B} (m : M A) (f : A -> M B) :
  effects (bind m f) = effects m ++ effects (f (value m)).
Proof. destruct m as [a l]. simpl. by destruct (f a). Qed.

(** One turn of the loop, by verdict. *)
Lemma tryProviders_step (p : Provider) rest address options lastError :
  tryProviders (p :: rest) address options lastError =
  match verdictOf p address options with
  | Accepted r =>
      (json (GeocodeBody r), callsOf p address options)
  | Unavailable | SoftMiss =>
      let run := tryProviders rest address options lastError in
      (value run, callsOf p address options ++ effects run)
  | Failure e =>
      let run := tryProviders rest address options e in
      (value run, callsOf p address options ++ effects run)
  | Exception =>
      let run := tryProviders rest address options (Some (providerError p)) in
      (value run, callsOf p address options ++ effects run)
  end.
Proof.
  unfold verdictOf, callsOf. simpl.
  destruct (isAvailable p) as [[[]|] l1]; simpl.
  - destruct (geocode p address options) as [[r|] l2]; simpl.
    + destruct (success r); simpl.
      * destruct (results r) as [|x xs]; simpl.
        -- destruct (tryProviders rest _ _ _); simpl. by rewrite app_assoc.
        -- by rewrite app_nil_r.
      * destruct (tryProviders rest _ _ _); simpl. by rewrite app_assoc.
    + destruct (tryProviders rest _ _ _); simpl. by rewrite app_assoc.
  - destruct (tryProviders rest _ _ _); simpl. by rewrite app_nil_r.
  - destruct (tryProviders rest _ _ _); simpl. by rewrite app_nil_r.
Qed.

Lemma recordedErrors_cons (p : Provider) ps address options :
  recordedErrors (p :: ps) address options =
  recordedBy p address options ++ recordedErrors ps address options.
Proof. reflexivity. Qed.

(** When no adapter is accepted the loop runs to its end, and the error it
    reports is the last one recorded, or the one it started with. *)
Lemma tryProviders_exhausted (ps : list Provider) address options lastError :
  Forall (fun q => isAccepted (verdictOf q address options) = false) ps ->
  tryProviders ps address options lastError =
  (json (GeocodeBody
     (exhausted (match last (recordedErrors ps address options) with
                 | Some e => e
                 | None => lastError
                 end))),
   flat_map (fun q => callsOf q address options) ps).
Proof.
  intros Hall. revert lastError.
  induction Hall as [|p ps Hp _ IH]; intros lastError; [reflexivity|].
  rewrite tryProviders_step, recordedErrors_cons, last_app.
  unfold recordedBy.
  destruct (verdictOf p address options) eqn:Hv; try done;
    rewrite IH; simpl;
    by destruct (last (recordedErrors ps address options)).
Qed.

(** The adapters before the first accepted one are gone through and the
    accepted outcome comes back as it is. *)
Lemma tryProviders_accepts (pre : list Provider) p post r address options lastError :
  Forall (fun q => isAccepted (verdictOf q address options) = false) pre ->
  verdictOf p address options = Accepted r ->
  tryProviders (pre ++ p :: post) address options lastError =
  (json (GeocodeBody r),
   flat_map (fun q => callsOf q address options) (pre ++ [p])).
Proof.
  intros Hpre Hp. revert lastError.
  induction Hpre as [|q pre Hq _ IH]; intros lastError.
  - change ([] ++ p :: post) with (p :: post).
    rewrite tryProviders_step, Hp. simpl. by rewrite app_nil_r.
  - change ((q :: pre) ++ p :: post) with (q :: (pre ++ p :: post)).
    rewrite tryProviders_step.
    destruct (verdictOf q address options) eqn:Hv; try done;
      by rewrite IH.
Qed.

Lemma usePreferred_calls (ps : list Provider) preferred address options p :
  find (fun q => String.eqb (name q) preferred) ps = Some p ->
  effects (usePreferred ps preferred address options) =
  callsOf p address options.
Proof.
  intros Hfind. unfold usePreferred, callsOf. rewrite Hfind.
  destruct (isAvailable p) as [[[]|] l1]; simpl; try by rewrite app_nil_r.
  destruct (geocode p address options) as [[r|] l2]; simpl;
    by rewrite app_nil_r.
Qed.

End SelectionFacts.

Section RegistryFacts.
Import Geocoding Selection.
Context {Result Options CensusAddressMatch GoogleResult : Type}.
Variable censusApi : string -> CensusReply CensusAddressMatch.
Variable googleApi : string -> option Options -> GoogleReply GoogleResult.
Variable fromCensusMatch : CensusAddressMatch -> Result.
Variable transformResult : GoogleResult -> Result.

Local Abbreviation Provider := (GeocodingProvider Result Options).
Local Abbreviation registry :=
  (providers censusApi googleApi fromCensusMatch transformResult).
Local Abbreviation census :=
  (CensusProvider (Options := Options) censusApi fromCensusMatch).
Local Abbreviation google := (GoogleProvider googleApi transformResult).

Lemma probe_address_is_US :
  CensusHeuristic.isUSAddress censusProbeAddress = true.
Proof. vm_compute. reflexivity. Qed.

Lemma downingStreet_is_US : CensusHeuristic.isUSAddress downingStreet = true.
Proof. vm_compute. reflexivity. Qed.

(** [CensusProvider.geocode] on an address the heuristic lets through:
    one upstream request, answered from the reply. *)
Lemma censusGeocode_US address (options : option Options) :
  CensusHeuristic.isUSAddress address = true ->
  effects (censusGeocode censusApi fromCensusMatch address options)
    = [Upstream CensusHost address]
  /\ (censusHasMatches (censusApi address) = false ->
      results (value (censusGeocode censusApi fromCensusMatch address options)) = []).
Proof.
  intros HUS. unfold censusGeocode. rewrite HUS. simpl.
  destruct (censusApi address) as [e|st txt|[[|m ms]|]]; simpl; done.
Qed.

(** [CensusProvider.geocode] on an address the heuristic rejects: the
    failure is produced without any upstream request. *)
Lemma censusGeocode_nonUS address (options : option Options) :
  CensusHeuristic.isUSAddress address = false ->
  censusGeocode censusApi fromCensusMatch address options = (nonUSFailure, []).
Proof. intros HnonUS. unfold censusGeocode. by rewrite HnonUS. Qed.

Lemma census_never_throws address (options : option Options) :
  value (isAvailable census) <> Threw
  /\ value (geocode census address options) <> Threw.
Proof.
  split; simpl; rewrite value_bind; done.
Qed.

(** The free provider is not accepted for an address its upstream has no
    match for. *)
Lemma census_not_accepted address (options : option Options) :
  censusHasMatches (censusApi address) = false ->
  isAccepted (verdictOf census address options) = false.
Proof.
  intros Hno. unfold verdictOf.
  destruct (value (isAvailable census)) as [[]|] eqn:Hav; try done.
  change (geocode census address options)
    with (await r := censusGeocode censusApi fromCensusMatch address options
          in ret (Returned r)).
  rewrite value_bind. simpl.
  destruct (CensusHeuristic.isUSAddress address) eqn:HUS.
  - destruct (censusGeocode_US address options HUS) as [_ Hres].
    rewrite (Hres Hno). by destruct (success _).
  - by rewrite (censusGeocode_nonUS address options HUS).
Qed.

Lemma google_accepts address (options : option Options) raws :
  googleApi googleProbeAddress None = GoogleData "OK" raws ->
  forall found,
  googleApi address options = GoogleData "OK" found ->
  found <> [] ->
  verdictOf google address options =
  Accepted {| success := true; provider := "google";
              results := map transformResult found; error := None |}.
Proof.
  intros Hprobe found Hfound Hne.
  unfold verdictOf. simpl. unfold googleGeocode, request. simpl.
  rewrite Hprobe, Hfound. simpl.
  destruct found; done.
Qed.

End RegistryFacts.

(** ** The selection claims *)

Section SelectionClaims.
Import Geocoding Selection.
Context {Result Options CensusAddressMatch GoogleResult : Type}.
Variable censusApi : string -> CensusReply CensusAddressMatch.
Variable googleApi : string -> option Options -> GoogleReply GoogleResult.
Variable fromCensusMatch : CensusAddressMatch -> Result.
Variable transformResult : GoogleResult -> Result.

Local Abbreviation Provider := (GeocodingProvider Result Options).
Local Abbreviation registry :=
  (providers censusApi googleApi fromCensusMatch transformResult).
Local Abbreviation census :=
  (CensusProvider (Options := Options) censusApi fromCensusMatch).
Local Abbreviation google := (GoogleProvider googleApi transformResult).

Local Arguments CensusHeuristic.isUSAddress : simpl never.

(** C1: without an explicit provider name the adapters are consulted in
    list order, and the registry lists census before google. An adapter
    whose probe says no is skipped without a geocode call; an outcome with
    success and no result moves on and leaves the recorded error alone; a
    failure outcome moves on with its error recorded; the first adapter
    whose outcome has success and at least one result ends the loop and its
    outcome is the response, unchanged, later adapters not being
    contacted; and when no adapter is accepted the response is the
    synthetic outcome (success false, provider 'multiple', no results)
    carrying the last recorded error, or the generic all-providers-failed
    error when none was recorded. What is recorded is the error member of
    a failure outcome, and a PROVIDER_ERROR for an adapter that threw. *)
Theorem C1_fallback_in_priority_order
    (ps : list Provider) (address : string) (options : option Options) :
  let request :=
    {| Geocoding.address := address; preferredProvider := None;
       Geocoding.options := options |} in
  map name registry = ["census"; "google"]
  /\ POST ps request = tryProviders ps address options None
  /\ (forall (p : Provider) rest lastError,
        value (isAvailable p) = Returned false ->
        tryProviders (p :: rest) address options lastError =
        (value (tryProviders rest address options lastError),
         effects (isAvailable p) ++
         effects (tryProviders rest address options lastError)))
  /\ (forall (p : Provider) rest lastError r,
        value (isAvailable p) = Returned true ->
        value (geocode p address options) = Returned r ->
        success r = true -> results r = [] ->
        value (tryProviders (p :: rest) address options lastError) =
        value (tryProviders rest address options lastError))
  /\ (forall (p : Provider) rest lastError r,
        value (isAvailable p) = Returned true ->
        value (geocode p address options) = Returned r ->
        success r = false ->
        value (tryProviders (p :: rest) address options lastError) =
        value (tryProviders rest address options (error r)))
  /\ (forall pre (p : Provider) post r,
        ps = pre ++ p :: post ->
        Forall (fun q => isAccepted (verdictOf q address options) = false) pre ->
        value (isAvailable p) = Returned true ->
        value (geocode p address options) = Returned r ->
        success r = true -> results r <> [] ->
        POST ps request =
        (json (GeocodeBody r),
         flat_map (fun q => callsOf q address options) (pre ++ [p])))
  /\ (Forall (fun q => isAccepted (verdictOf q address options) = false) ps ->
      POST ps request =
      (json (GeocodeBody
         {| success := false; provider := "multiple"; results := [];
            error := Some (match lastRecorded ps address options with
                           | Some e => e
                           | None => allProvidersFailed
                           end) |}),
       flat_map (fun q => callsOf q address options) ps)).
Proof.
  intros request.
  split; [reflexivity|]. split; [reflexivity|].
  repeat split.
  - intros p rest lastError Hav. rewrite tryProviders_step.
    unfold verdictOf, callsOf. rewrite Hav. simpl. by rewrite app_nil_r.
  - intros p rest lastError r Hav Hgeo Hok Hnone. rewrite tryProviders_step.
    unfold verdictOf. by rewrite Hav, Hgeo, Hok, Hnone.
  - intros p rest lastError r Hav Hgeo Hfail. rewrite tryProviders_step.
    unfold verdictOf. by rewrite Hav, Hgeo, Hfail.
  - intros pre p post r -> Hpre Hav Hgeo Hok Hsome.
    apply tryProviders_accepts; [done|].
    unfold verdictOf. rewrite Hav, Hgeo, Hok. by destruct (results r).
  - intros Hall. unfold POST. simpl.
    rewrite (tryProviders_exhausted ps address options None Hall).
    unfold lastRecorded, exhausted.
    by destruct (last (recordedErrors ps address options)) as [[e|]|].
Qed.

(** C2: with an explicit, non-empty provider name only the adapter of
    that name is contacted. A name no adapter carries gives the
    provider-not-found response with no upstream traffic; otherwise all
    upstream traffic of the request is that of the named adapter, what its
    geocode call returns is the response as it is, success or failure, and
    a negative probe ends the request without a geocode call. For the
    registry: asking 'census' by name for an address its heuristic rejects
    returns the non-US failure, with the probe as only traffic and no
    request to the commercial provider. *)
Theorem C2_explicit_provider_never_falls_back
    (ps : list Provider) (address preferred : string)
    (options : option Options) :
  preferred <> EmptyString ->
  let request :=
    {| Geocoding.address := address; preferredProvider := Some preferred;
       Geocoding.options := options |} in
  match find (fun q => String.eqb (name q) preferred) ps with
  | None =>
      POST ps request =
      (jsonStatus (ErrorBody "Provider not found or not available") 400, [])
  | Some p =>
      name p = preferred
      /\ effects (POST ps request) = callsOf p address options
      /\ (forall r,
            value (isAvailable p) = Returned true ->
            value (geocode p address options) = Returned r ->
            value (POST ps request) = json (GeocodeBody r))
      /\ (value (isAvailable p) = Returned false ->
          POST ps request =
          (jsonStatus (ErrorBody "Selected provider is not available") 503,
           effects (isAvailable p)))
  end
  /\ (CensusHeuristic.isUSAddress address = false ->
      censusHasMatches (censusApi censusProbeAddress) = true ->
      POST registry
        {| Geocoding.address := address; preferredProvider := Some "census";
           Geocoding.options := options |} =
      (json (GeocodeBody nonUSFailure), [Upstream CensusHost censusProbeAddress])).
Proof.
  intros Hname request.
  assert (Hpost : POST ps request = usePreferred ps preferred address options).
  { unfold POST, request. simpl.
    destruct (String.eqb preferred EmptyString) eqn:E; [|done].
    by apply String.eqb_eq in E. }
  split.
  - destruct (find _ ps) as [p|] eqn:Hfind.
    + split.
      { apply find_some in Hfind as [_ E]. by apply String.eqb_eq in E. }
      split.
      { rewrite Hpost. by apply usePreferred_calls. }
      split.
      { intros r Hav Hgeo. rewrite Hpost. unfold usePreferred.
        rewrite Hfind, value_bind, Hav, value_bind, Hgeo. done. }
      intros Hav. rewrite Hpost. unfold usePreferred. rewrite Hfind.
        destruct (isAvailable p) as [a l]. simpl in *. subst a. simpl.
        by rewrite app_nil_r.
    + rewrite Hpost. unfold usePreferred. by rewrite Hfind.
  - intros HnonUS Hprobe. unfold POST, usePreferred. simpl.
    unfold censusGeocode. rewrite probe_address_is_US, HnonUS. simpl.
    destruct (censusApi censusProbeAddress) as [e|st txt|[[|m ms]|]];
      simpl in *; done.
Qed.

(** C3, as the code has it: '10 Downing Street, London, UK' contains the
    street-suffix token 'STREET', so the free provider's heuristic
    classifies it as a US address and the free adapter does send it to its
    upstream. When that upstream has no match for it and the commercial
    provider is available and finds at least one result, the response is
    the commercial provider's successful outcome, tagged 'google'. *)
Theorem C3_downing_street_reaches_census_upstream
    (options : option Options) (probed found : list GoogleResult) :
  censusHasMatches (censusApi downingStreet) = false ->
  googleApi googleProbeAddress None = GoogleData "OK" probed ->
  googleApi downingStreet options = GoogleData "OK" found ->
  found <> [] ->
  CensusHeuristic.isUSAddress downingStreet = true
  /\ effects (censusGeocode censusApi fromCensusMatch downingStreet options)
     = [Upstream CensusHost downingStreet]
  /\ value (POST registry
              {| address := downingStreet; preferredProvider := None;
                 Geocoding.options := options |}) =
     json (GeocodeBody
             {| success := true; provider := "google";
                results := map transformResult found; error := None |}).
Proof.
  intros Hnone Hprobe Hfound Hne.
  split; [exact downingStreet_is_US|].
  split; [apply (censusGeocode_US _ _ _ _ downingStreet_is_US)|].
  change (POST registry _)
    with (tryProviders ([census] ++ google :: []) downingStreet options None).
  erewrite (tryProviders_accepts [census] google []);
    [done| |by eapply google_accepts].
  constructor; [|constructor]. by apply census_not_accepted.
Qed.

End SelectionClaims.

(** The C1 theorem run in the demo world on an address the free provider
    rejects: census records its failure and google's outcome is returned. *)
Lemma C1_witness_demo :
  Geocoding.POST Demo.registry
    {| Geocoding.address := Demo.eiffel;
       Geocoding.preferredProvider := None;
       Geocoding.options := None |} =
  (Geocoding.json (Geocoding.GeocodeBody Demo.googleAnswer),
   [Geocoding.Upstream Geocoding.CensusHost Geocoding.censusProbeAddress;
    Geocoding.Upstream Geocoding.GoogleHost Geocoding.googleProbeAddress;
    Geocoding.Upstream Geocoding.GoogleHost Demo.eiffel]).
Proof.
  pose proof (C1_fallback_in_priority_order
                Demo.censusApi Demo.googleApi (fun m => m) (fun r => r)
                Demo.registry Demo.eiffel None) as H.
  destruct H as (_ & _ & _ & _ & _ & Haccept & _).
  rewrite (Haccept
             [Geocoding.CensusProvider Demo.censusApi (fun m => m)]
             (Geocoding.GoogleProvider Demo.googleApi (fun r => r))
             [] Demo.googleAnswer).
  - vm_compute. reflexivity.
  - reflexivity.
  - constructor; [vm_compute; reflexivity | constructor].
  - vm_compute. reflexivity.
  - vm_compute. reflexivity.
  - reflexivity.
  - discriminate.
Defined.

(** The C2 theorem run in the demo world: census asked by name for an
    address it rejects. *)
Lemma C2_witness_demo :
  "census" <> EmptyString
  /\ Geocoding.POST Demo.registry
       {| Geocoding.address := Demo.eiffel;
          Geocoding.preferredProvider := Some "census";
          Geocoding.options := None |} =
     (Geocoding.json (Geocoding.GeocodeBody Selection.nonUSFailure),
      [Geocoding.Upstream Geocoding.CensusHost Geocoding.censusProbeAddress]).
Proof.
  assert (Hne : "census" <> EmptyString) by discriminate.
  split; [exact Hne|].
  apply (proj2 (C2_explicit_provider_never_falls_back
                  Demo.censusApi Demo.googleApi (fun m => m) (fun r => r)
                  Demo.registry Demo.eiffel "census" None Hne)).
  - vm_compute. reflexivity.
  - vm_compute. reflexivity.
Defined.

(** The C3 theorem run in the demo world. *)
Lemma C3_witness_demo :
  Geocoding.value
    (Geocoding.POST Demo.registry
       {| Geocoding.address := Selection.downingStreet;
          Geocoding.preferredProvider := None;
          Geocoding.options := None |}) =
  Geocoding.json (Geocoding.GeocodeBody Demo.googleAnswer).
Proof.
  apply (C3_downing_street_reaches_census_upstream
           Demo.censusApi Demo.googleApi (fun m => m) (fun r => r)
           None [tt] [tt]).
  - vm_compute. reflexivity.
  - reflexivity.
  - reflexivity.
  - discriminate.
Defined.

(** C3 as stated fails: the heuristic does not classify the address as
    non-US, and the free adapter does not short-circuit; in the demo world
    its answer comes from its upstream. *)
Lemma C3_counterexample_downing_street :
  ~ (CensusHeuristic.isUSAddress Selection.downingStreet = false
     /\ Geocoding.censusGeocode Demo.censusApi (fun m => m)
          Selection.downingStreet (None : option unit) =
        (Selection.nonUSFailure, [])).
Proof.
  intros [H _]. vm_compute in H. discriminate H.
Qed.

(** ** Deduplication *)

Section DedupFacts.
Import JsString Json Reviews ReviewSpec.

Lemma append_nil_l (s : string) : EmptyString +:+ s = s.
Proof. reflexivity. Qed.

Lemma append_cons_l c (a s : string) : String c a +:+ s = String c (a +:+ s).
Proof. reflexivity. Qed.

Lemma isoTimestamp_no_underscore a t :
  isoTimestamp (a +:+ String "_" t) = false.
Proof.
  induction a as [|c a IH]; simpl; [reflexivity|].
  rewrite IH. apply andb_false_r.
Qed.

(** Joining author and timestamp with an underscore loses nothing when the
    timestamps have the ISO shape: the last underscore of the key is the
    separator. *)
Lemma reviewKey_inj a b :
  isoTimestamp (time a) = true -> isoTimestamp (time b) = true ->
  reviewKey a = reviewKey b -> sameIdentity a b.
Proof.
  unfold reviewKey, sameIdentity.
  generalize (time a) (time b) (author a) (author b).
  intros ta tb aa ab Ha Hb.
  revert ab; induction aa as [|c aa IH]; intros [|d ab]; intros E;
    rewrite ?append_cons_l, ?append_nil_l in E.
  - by injection E as ->.
  - injection E as _ E. subst ta.
    by rewrite isoTimestamp_no_underscore in Ha.
  - injection E as _ E. subst tb.
    by rewrite isoTimestamp_no_underscore in Hb.
  - injection E as -> E. destruct (IH _ E) as [-> ->]. done.
Qed.

Lemma sameIdentity_key a b : sameIdentity a b -> reviewKey a = reviewKey b.
Proof. unfold reviewKey. by intros [-> ->]. Qed.

Lemma elem_of_keysOf k reviews :
  k ∈ keysOf reviews <-> exists r, r ∈ reviews /\ reviewKey r = k.
Proof.
  unfold keysOf. rewrite elem_of_list_to_set.
  change (map reviewKey reviews) with (reviewKey <$> reviews).
  rewrite list_elem_of_fmap. naive_solver.
Qed.

Lemma dedupFrom_app seen l1 l2 :
  dedupFrom seen (l1 ++ l2) =
  dedupFrom seen l1 ++ dedupFrom (keysOf l1 ∪ seen) l2.
Proof.
  revert seen; induction l1 as [|r l1 IH]; intros seen; simpl.
  - f_equal. unfold keysOf. simpl. set_solver.
  - case_decide as Hin.
    + rewrite IH. do 2 f_equal. unfold keysOf. simpl. set_solver.
    + rewrite IH. simpl. do 3 f_equal. unfold keysOf. simpl. set_solver.
Qed.

Lemma dedupFrom_sublist seen l : dedupFrom seen l `sublist_of` l.
Proof.
  revert seen; induction l as [|r l IH]; intros seen; simpl; [constructor|].
  case_decide; [apply sublist_cons, IH | apply sublist_skip, IH].
Qed.

Lemma dedupFrom_keys seen l :
  NoDup (map reviewKey (dedupFrom seen l))
  /\ (forall r, r ∈ dedupFrom seen l -> reviewKey r ∉ seen).
Proof.
  revert seen; induction l as [|r l IH]; intros seen; simpl.
  - split; [constructor | intros r H; by apply elem_of_nil in H].
  - case_decide as Hin; [apply IH|].
    destruct (IH ({[reviewKey r]} ∪ seen)) as [Hnd Hfresh]. split.
    + simpl. apply NoDup_cons. split; [|done].
      intros Hdup.
      change (map reviewKey ?l) with (reviewKey <$> l) in Hdup.
      apply list_elem_of_fmap in Hdup as (r' & Hk & Hr').
      apply Hfresh in Hr'. set_solver.
    + intros r' [->|Hr']%elem_of_cons; [done|].
      apply Hfresh in Hr'. set_solver.
Qed.

End DedupFacts.

(** C4: on reviews whose timestamps have the ISO-8601 shape that
    [transformReview] produces, deduplication keeps exactly the first
    occurrence of each (author, timestamp) pair. Going through the input
    from the left, a review whose author and timestamp both equal those of
    an earlier review is dropped, and a review that differs from every
    earlier one in author or timestamp is kept, behind the ones kept
    before it; the kept reviews are a subsequence of the input, no two of
    them have the same identity, every identity of the input is kept
    once, and what follows in the input does not change what was kept. *)
Theorem C4_dedup_keeps_first_of_each_identity
    (before : list Reviews.Review) (r : Reviews.Review) :
  ReviewSpec.wellFormed (before ++ [r]) ->
  Reviews.deduplicateReviews (before ++ [r]) =
    (if decide (Exists (fun e => ReviewSpec.sameIdentity e r) before)
     then Reviews.deduplicateReviews before
     else Reviews.deduplicateReviews before ++ [r])
  /\ Reviews.deduplicateReviews (before ++ [r]) `sublist_of` (before ++ [r])
  /\ (forall i j a b,
        Reviews.deduplicateReviews (before ++ [r]) !! i = Some a ->
        Reviews.deduplicateReviews (before ++ [r]) !! j = Some b ->
        ReviewSpec.sameIdentity a b -> i = j)
  /\ (forall e, e ∈ before ++ [r] ->
        exists k, k ∈ Reviews.deduplicateReviews (before ++ [r])
                  /\ ReviewSpec.sameIdentity k e)
  /\ (forall after,
        exists tail,
          Reviews.deduplicateReviews ((before ++ [r]) ++ after)
          = Reviews.deduplicateReviews (before ++ [r]) ++ tail).
Proof.
  intros Hwf. unfold Reviews.deduplicateReviews.
  assert (Hsnoc :
    Reviews.dedupFrom ∅ (before ++ [r]) =
    (if decide (Exists (fun e => ReviewSpec.sameIdentity e r) before)
     then Reviews.dedupFrom ∅ before
     else Reviews.dedupFrom ∅ before ++ [r])).
  { rewrite dedupFrom_app. simpl.
    apply Forall_app in Hwf as [Hb Hr]. rewrite Forall_singleton in Hr.
    destruct (decide (Exists _ before)) as [Hex|Hnex];
      case_decide as Hin; try done.
    - by rewrite app_nil_r.
    - exfalso. apply Hin. apply elem_of_union_l, elem_of_keysOf.
      apply Exists_exists in Hex as (e & He & Hsame).
      exists e. split; [done|]. by apply sameIdentity_key.
    - exfalso. apply Hnex.
      apply elem_of_union in Hin as [Hin|Hin]; [|set_solver].
      apply elem_of_keysOf in Hin as (e & He & Hk).
      apply Exists_exists. exists e. split; [done|].
      apply reviewKey_inj; [|done|done].
      by eapply (proj1 (Forall_forall _ _) Hb). }
  split; [exact Hsnoc|].
  split; [apply dedupFrom_sublist|].
  split; [|split].
  3:{ intros after. rewrite dedupFrom_app. eauto. }
  - intros i j a b Hi Hj Hsame.
    destruct (dedupFrom_keys ∅ (before ++ [r])) as [Hnd _].
    apply sameIdentity_key in Hsame.
    eapply NoDup_lookup; [exact Hnd| |].
    + change (map Reviews.reviewKey ?l) with (Reviews.reviewKey <$> l).
      rewrite list_lookup_fmap, Hi. reflexivity.
    + change (map Reviews.reviewKey ?l) with (Reviews.reviewKey <$> l).
      rewrite list_lookup_fmap, Hj. simpl. by rewrite Hsame.
  - clear Hsnoc. revert Hwf. generalize (before ++ [r]). clear before r.
    intros l.
    induction l as [|x l IH] using rev_ind; intros Hwf e He;
      [by apply elem_of_nil in He|].
    rewrite dedupFrom_app. simpl.
    apply Forall_app in Hwf as [Hl Hx]. rewrite Forall_singleton in Hx.
    apply elem_of_app in He as [He|He].
    + destruct (IH Hl _ He) as (k & Hk & Hsame).
      exists k. split; [|done]. apply elem_of_app. by left.
    + apply list_elem_of_singleton in He as ->.
      case_decide as Hin.
      * apply elem_of_union in Hin as [Hin|Hin]; [|set_solver].
        apply elem_of_keysOf in Hin as (e & He & Hk).
        destruct (IH Hl _ He) as (k & Hkin & Hsame).
        exists k. split; [apply elem_of_app; by left|].
        assert (ReviewSpec.sameIdentity e x) as [E1 E2].
        { apply reviewKey_inj; [|done|done].
          by eapply (proj1 (Forall_forall _ _) Hl). }
        destruct Hsame as [S1 S2]. split; congruence.
      * exists x. split; [|done]. apply elem_of_app. right.
        by apply list_elem_of_singleton.
Qed.

(** The C4 theorem on three reviews, the third repeating the identity of
    the first with another text. *)
Lemma C4_witness_three_reviews :
  ReviewSpec.wellFormed ([DemoReviews.ann; DemoReviews.bob] ++ [DemoReviews.annAgain])
  /\ Reviews.deduplicateReviews
       ([DemoReviews.ann; DemoReviews.bob] ++ [DemoReviews.annAgain]) =
     [DemoReviews.ann; DemoReviews.bob].
Proof.
  assert (Hwf : ReviewSpec.wellFormed
                  ([DemoReviews.ann; DemoReviews.bob] ++ [DemoReviews.annAgain])).
  { repeat constructor. }
  split; [exact Hwf|].
  rewrite (proj1 (C4_dedup_keeps_first_of_each_identity
                    [DemoReviews.ann; DemoReviews.bob] DemoReviews.annAgain Hwf)).
  vm_compute. reflexivity.
Defined.

(** Without the timestamp shape the joined key can collide: these two
    reviews differ in author and in timestamp and still share a key. *)
Example reviewKey_collides_on_free_text :
  Reviews.reviewKey (DemoReviews.review "a_b" 5 EmptyString "c") =
  Reviews.reviewKey (DemoReviews.review "a" 5 EmptyString "b_c").
Proof. reflexivity. Qed.

(** ** Offset pagination *)

Section OffsetFacts.
Import JsString Json Reviews ReviewSpec.

Lemma startIndexOf_nonneg token : 0 <= startIndexOf token.
Proof.
  unfold startIndexOf.
  destruct token as [[|[| | | | |members]]|]; try lia.
  destruct (getField members "startIndex") as [[| |n| | |]|]; try lia.
  destruct (0 <=? n) eqn:E; lia.
Qed.

(** For a window that starts at a non-negative index and does not run
    backwards, [slice] is "drop, then take". *)
Lemma slice_window {A} (l : list A) (start size : Z) :
  0 <= start -> 0 <= size ->
  slice l start (start + size) = take (Z.to_nat size) (drop (Z.to_nat start) l).
Proof.
  intros Hstart Hsize. unfold slice, relativeIndex.
  destruct (start <? 0) eqn:E1; [lia|].
  destruct (start + size <? 0) eqn:E2; [lia|].
  set (len := Z.of_nat (length l)).
  destruct (Z.le_gt_cases len start) as [Hge|Hlt].
  - rewrite !(drop_ge l) by lia. by rewrite !take_nil.
  - rewrite (Z.min_l start len) by lia.
    destruct (Z.le_gt_cases (start + size) len) as [Hin|Hout].
    + rewrite Z.min_l by lia. do 2 f_equal. lia.
    + rewrite Z.min_r by lia.
      rewrite !take_ge; [done| |]; rewrite length_drop; lia.
Qed.

Lemma startIndexOf_offsetToken endIndex placeId total minimum :
  0 <= endIndex ->
  startIndexOf (Some (Document (offsetToken endIndex placeId total minimum)))
  = endIndex.
Proof.
  intros H. unfold startIndexOf, offsetToken.
  destruct minimum; simpl; destruct (0 <=? endIndex) eqn:E; lia.
Qed.

(** One page of the standard mode, spelled out. *)
Lemma getReviews_page s allReviews placeId options :
  0 < pageSizeOf options ->
  let start := startIndexOf (pageToken options) in
  let size := pageSizeOf options in
  let response := getReviews (DetailsOk s) allReviews placeId options in
  results response
    = take (Z.to_nat size) (drop (Z.to_nat start) allReviews)
  /\ saysMore response = (start + size <? Z.of_nat (length allReviews))
  /\ emittedToken response =
     (if saysMore response
      then Some (offsetToken (start + size) placeId
                   (Z.of_nat (length allReviews)) (optMinimumRating options))
      else None).
Proof.
  intros Hsize start size response.
  pose proof (startIndexOf_nonneg (pageToken options)) as Hstart.
  unfold response, getReviews, saysMore, emittedToken. simpl.
  split; [apply slice_window; lia|]. done.
Qed.

(** Following the cursor from any page reaches the last page and collects
    the rest of the list. *)
Lemma followPages_from s allReviews placeId fuel options :
  0 < pageSizeOf options ->
  (length allReviews - Z.to_nat (startIndexOf (pageToken options)) < fuel)%nat ->
  exists pages,
    followPages fuel (DetailsOk s) allReviews placeId options = Some pages
    /\ concat (map results pages)
       = drop (Z.to_nat (startIndexOf (pageToken options))) allReviews.
Proof.
  intros Hsize. revert options Hsize.
  induction fuel as [|fuel IH]; intros options Hsize Hfuel; [lia|].
  pose proof (startIndexOf_nonneg (pageToken options)) as Hstart.
  destruct (getReviews_page s allReviews placeId options Hsize)
    as (Hres & Hmore & Htok).
  cbn [followPages]. cbv zeta. rewrite Htok, Hmore.
  set (start := startIndexOf (pageToken options)) in *.
  set (size := pageSizeOf options) in *.
  destruct (start + size <? Z.of_nat (length allReviews)) eqn:E.
  - apply Z.ltb_lt in E.
    set (next := withPageToken options
                   (Some (Document (offsetToken (start + size) placeId
                      (Z.of_nat (length allReviews)) (optMinimumRating options))))).
    assert (Hnext : startIndexOf (pageToken next) = start + size).
    { unfold next. cbn [withPageToken pageToken].
      apply startIndexOf_offsetToken. lia. }
    destruct (IH next) as (pages & Hrun & Hcat).
    { exact Hsize. }
    { rewrite Hnext. lia. }
    rewrite Hrun. eexists. split; [reflexivity|].
    cbn [map concat]. rewrite Hres, Hcat, Hnext.
    rewrite Z2Nat.inj_add by lia.
    rewrite <- (drop_drop allReviews (Z.to_nat size) (Z.to_nat start)).
    apply take_drop.
  - apply Z.ltb_ge in E. eexists. split; [reflexivity|].
    cbn [map concat]. rewrite app_nil_r, Hres.
    apply take_ge. rewrite length_drop. lia.
Qed.

End OffsetFacts.

(** C5: in the standard mode over a fixed review list and with a positive
    page size, every page is the window of the list that starts at the
    cursor's startIndex and is one page long; hasMoreReviews says whether
    the window ends before the list does; the cursor handed out carries
    the end of the window as its startIndex and is left out exactly when
    hasMoreReviews is false; and a client that starts without a cursor and
    follows the cursor until hasMoreReviews is false gets, page after page,
    the whole list, each review once. *)
Theorem C5_offset_pages_partition_the_list
    (s : Reviews.PlaceSummary) (allReviews : list Reviews.Review)
    (placeId : string) (options : Reviews.ReviewOptions) (fuel : nat) :
  0 < Reviews.pageSizeOf options ->
  (length allReviews < fuel)%nat ->
  let start := Reviews.startIndexOf (Reviews.pageToken options) in
  let size := Reviews.pageSizeOf options in
  let response :=
    Reviews.getReviews (Reviews.DetailsOk s) allReviews placeId options in
  Reviews.results response = Reviews.slice allReviews start (start + size)
  /\ ReviewSpec.saysMore response
     = (start + size <? Z.of_nat (length allReviews))
  /\ (ReviewSpec.saysMore response = true ->
      exists token,
        ReviewSpec.emittedToken response = Some token
        /\ Reviews.startIndexOf (Some (Json.Document token)) = start + size)
  /\ (ReviewSpec.saysMore response = false <->
      ReviewSpec.emittedToken response = None)
  /\ exists pages,
       ReviewSpec.followPages fuel (Reviews.DetailsOk s) allReviews placeId
         (ReviewSpec.withPageToken options None) = Some pages
       /\ concat (map Reviews.results pages) = allReviews.
Proof.
  intros Hsize Hfuel start size response.
  pose proof (startIndexOf_nonneg (Reviews.pageToken options)) as Hstart.
  destruct (getReviews_page s allReviews placeId options Hsize)
    as (Hres & Hmore & Htok).
  fold response in Hres, Hmore, Htok. fold start in Hmore, Htok.
  fold size in Hmore, Htok.
  split; [reflexivity|].
  split; [exact Hmore|].
  split.
  { intros Hyes. rewrite Htok, Hyes. eexists. split; [reflexivity|].
    apply startIndexOf_offsetToken. lia. }
  split.
  { rewrite Htok. destruct (ReviewSpec.saysMore response); split; done. }
  destruct (followPages_from s allReviews placeId fuel
              (ReviewSpec.withPageToken options None))
    as (pages & Hrun & Hcat).
  - exact Hsize.
  - simpl. lia.
  - exists pages. split; [exact Hrun|]. by rewrite Hcat.
Qed.

(** The C5 theorem on four reviews and pages of three. *)
Lemma C5_witness_two_pages :
  exists pages,
    ReviewSpec.followPages 5 (Reviews.DetailsOk DemoReviews.place)
      [DemoReviews.ann; DemoReviews.bob; DemoReviews.cyd; DemoReviews.annAgain]
      "place"
      (ReviewSpec.withPageToken (DemoReviews.options (Some 3) None None) None)
    = Some pages
    /\ concat (map Reviews.results pages) =
       [DemoReviews.ann; DemoReviews.bob; DemoReviews.cyd; DemoReviews.annAgain].
Proof.
  apply (C5_offset_pages_partition_the_list DemoReviews.place
           [DemoReviews.ann; DemoReviews.bob; DemoReviews.cyd; DemoReviews.annAgain]
           "place" (DemoReviews.options (Some 3) None None) 5).
  - reflexivity.
  - simpl. lia.
Defined.

(** ** Chunked pagination *)

Section ChunkFacts.
Import JsString Json Reviews ReviewSpec ChunkSpec.
Variable coerceToNumber : json -> option Z.
Variable dateGetTime : string -> option Z.

Local Abbreviation chunked := (getReviewsChunked coerceToNumber dateGetTime).
Local Abbreviation collect := (collectUnique coerceToNumber).

Lemma sameValueZero_eq a b : sameValueZero a b = true -> a = b.
Proof.
  destruct a, b; simpl; try done.
  - by intros ->%Bool.eqb_prop.
  - by intros ->%Z.eqb_eq.
  - by intros ->%String.eqb_eq.
Qed.

Lemma setHas_app ids1 ids2 v :
  setHas (ids1 ++ ids2) v = setHas ids1 v || setHas ids2 v.
Proof. apply existsb_app. Qed.

Lemma hasKey_setAdd ids v k :
  hasKey (setAdd ids v) k = hasKey ids k || sameValueZero (JString k) v.
Proof.
  unfold hasKey, setAdd. destruct (setHas ids v) eqn:E.
  - destruct (sameValueZero (JString k) v) eqn:E'.
    + apply sameValueZero_eq in E' as <-. by rewrite E.
    + by rewrite orb_false_r.
  - rewrite setHas_app. simpl. by rewrite orb_false_r.
Qed.

Lemma hasKey_fold_setAdd items acc k :
  hasKey (fold_left setAdd items acc) k = hasKey acc k || hasKey items k.
Proof.
  revert acc; induction items as [|v items IH]; intros acc; simpl.
  - by rewrite orb_false_r.
  - rewrite IH, hasKey_setAdd. unfold hasKey at 3. simpl.
    by rewrite orb_assoc.
Qed.

Lemma hasKey_setOfList items k : hasKey (setOfList items) k = hasKey items k.
Proof. unfold setOfList. by rewrite hasKey_fold_setAdd. Qed.

Lemma keyAmong_app l1 l2 k : keyAmong (l1 ++ l2) k = keyAmong l1 k || keyAmong l2 k.
Proof. apply existsb_app. Qed.

Lemma keyAmong_true reviews k :
  keyAmong reviews k = true <-> k ∈ map reviewKey reviews.
Proof.
  unfold keyAmong. rewrite existsb_exists.
  change (map reviewKey reviews) with (reviewKey <$> reviews).
  rewrite list_elem_of_fmap. split.
  - intros (r & Hin & E). apply String.eqb_eq in E.
    exists r. split; [done|]. by apply list_elem_of_In.
  - intros (r & -> & Hin). exists r. split; [by apply list_elem_of_In|].
    apply String.eqb_refl.
Qed.

(** The loop that fills a page: what it adds to the page is new to the
    set it started from, free of repeated keys, and is exactly what it
    adds to the set. *)
Lemma collectUnique_spec size minimum fetched uniqueReviews ids :
  exists added,
    fst (collect size minimum fetched uniqueReviews ids) = uniqueReviews ++ added
    /\ NoDup (map reviewKey added)
    /\ (forall r, r ∈ added -> hasKey ids (reviewKey r) = false)
    /\ (forall k,
          hasKey (snd (collect size minimum fetched uniqueReviews ids)) k
          = hasKey ids k || keyAmong added k)
    /\ added `sublist_of` fetched.
Proof.
  revert uniqueReviews ids.
  induction fetched as [|review rest IH]; intros uniqueReviews ids.
  - exists []. simpl. rewrite app_nil_r.
    repeat split; [constructor | by intros r H%elem_of_nil
                  | intros k; by rewrite orb_false_r | constructor].
  - cbn [collectUnique].
    fold (hasKey ids (reviewKey review)).
    destruct (hasKey ids (reviewKey review)) eqn:Hseen.
    { destruct (IH uniqueReviews ids) as (added & H1 & H2 & H3 & H4 & H5).
      exists added. repeat split; try done. by apply sublist_cons. }
    cbv zeta.
    destruct (belowMinimum coerceToNumber minimum review).
    { destruct (IH uniqueReviews ids) as (added & H1 & H2 & H3 & H4 & H5).
      exists added. repeat split; try done. by apply sublist_cons. }
    assert (Hone : forall k,
              hasKey (setAdd ids (JString (reviewKey review))) k
              = hasKey ids k || String.eqb k (reviewKey review)).
    { intros k. by rewrite hasKey_setAdd. }
    destruct (size <=? Z.of_nat (length (uniqueReviews ++ [review]))).
    { exists [review]. cbn [fst snd]. repeat split.
      - apply NoDup_singleton.
      - by intros r ->%list_elem_of_singleton.
      - intros k. rewrite Hone. unfold keyAmong. simpl.
        by rewrite orb_false_r.
      - apply sublist_skip, sublist_nil_l. }
    destruct (IH (uniqueReviews ++ [review])
                 (setAdd ids (JString (reviewKey review))))
      as (added & H1 & H2 & H3 & H4 & H5).
    exists (review :: added). repeat split.
    + by rewrite H1, <- app_assoc.
    + simpl. apply NoDup_cons. split; [|done].
      intros Hdup.
      change (map reviewKey added) with (reviewKey <$> added) in Hdup.
      apply list_elem_of_fmap in Hdup as (r & Hk & Hr).
      specialize (H3 r Hr). rewrite Hone, <- Hk, String.eqb_refl in H3.
      by rewrite orb_true_r in H3.
    + intros r [->|Hr]%elem_of_cons; [done|].
      specialize (H3 r Hr). rewrite Hone in H3.
      by apply orb_false_iff in H3 as [? _].
    + intros k. rewrite H4, Hone. unfold keyAmong. simpl.
      by rewrite orb_assoc.
    + by apply sublist_skip.
Qed.

(** Only the page token decides which seen keys a call starts from. *)
Lemma reviewIds_decode options :
  reviewIds (decodeChunkToken options) = seenKeys (pageToken options).
Proof.
  unfold seenKeys, decodeChunkToken. simpl.
  destruct (pageToken options) as [[|j]|]; try reflexivity.
  by destruct (andThen (getProp j "sortMethod") _).
Qed.

(** Reading back a token the chunked mode wrote. *)
Lemma seenKeys_chunkToken current fetched ids uniqueReviews minimum :
  seenKeys (Some (Document
    (chunkToken dateGetTime current fetched ids uniqueReviews minimum)))
  = setOfList ids
  /\ writtenKeys (chunkToken dateGetTime current fetched ids uniqueReviews minimum)
     = ids.
Proof. by destruct minimum. Qed.

Lemma fetch_failure reply :
  success (fetchReviewsWithSort reply) = false ->
  results (fetchReviewsWithSort reply) = []
  /\ pagination (fetchReviewsWithSort reply) = None.
Proof.
  destruct reply as [e|st [[|r rs]|]]; simpl; try done;
    destruct (String.eqb st "OK"); simpl; done.
Qed.

(** Every answer of the chunked mode is either a response without
    reviews and without pagination, or a page assembled from the loop's
    result. *)
Lemma chunked_cases details api placeId options :
  let response := chunked details api placeId options in
  let td := decodeChunkToken options in
  (results response = [] /\ pagination response = None)
  \/ exists s methods fetchedAfter,
       details = DetailsOk s
       /\ nextSortMethodsOf coerceToNumber td = Done methods
       /\ (exists already,
             includesMethod (fetchedMethods td) (hd EmptyString methods) = Done already
             /\ (if already then Done (fetchedMethods td)
                 else pushMethod (fetchedMethods td) (hd EmptyString methods))
                = Done fetchedAfter)
       /\ let fetched := results (fetchReviewsWithSort (api (hd EmptyString methods))) in
          let run := collect (pageSizeOf options) (minimumRating td) fetched []
                       (reviewIds td) in
          let more := (1 <? Z.of_nat (length methods)) ||
                      (Z.of_nat (length (fst run)) <? Z.of_nat (length fetched)) in
          results response = fst run
          /\ saysMore response = more
          /\ pagination response <> None
          /\ emittedToken response =
             if more
             then Some (chunkToken dateGetTime (hd EmptyString methods) fetchedAfter
                          (snd run) (fst run) (minimumRating td))
             else None.
Proof.
  intros response td. unfold response, getReviewsChunked.
  destruct details as [s|e]; [|by left].
  unfold chunkedPage. fold td.
  destruct (nextSortMethodsOf coerceToNumber td) as [methods|e]; [|by left].
  cbn [andThen].
  destruct (success (fetchReviewsWithSort (api (hd EmptyString methods)))) eqn:Hok;
    cbn [negb].
  2:{ left. by apply fetch_failure. }
  destruct (collect _ _ _ _ _) as [uniqueReviews ids] eqn:Hrun.
  destruct (includesMethod (fetchedMethods td) (hd EmptyString methods))
    as [already|e] eqn:Hinc; [|by left].
  cbn [andThen].
  destruct (if already then Done (fetchedMethods td)
            else pushMethod (fetchedMethods td) (hd EmptyString methods))
    as [fetchedAfter|e] eqn:Hpush; [|by left].
  cbn [andThen]. right.
  exists s, methods, fetchedAfter.
  split; [done|]. split; [done|].
  split; [by exists already|].
  cbv zeta. rewrite Hrun. unfold saysMore, emittedToken. simpl. done.
Qed.

(** One call of a chain: nothing it emits was among the seen keys it
    started from, it emits no key twice, and the token it hands out
    carries the seen keys it started from plus the keys it emitted. *)
Lemma chunked_step details api placeId options :
  let response := chunked details api placeId options in
  NoDup (map reviewKey (results response))
  /\ (forall r, r ∈ results response ->
        hasKey (seenKeys (pageToken options)) (reviewKey r) = false)
  /\ (forall t, emittedToken response = Some t ->
        forall k,
          hasKey (writtenKeys t) k
          = hasKey (seenKeys (pageToken options)) k
            || keyAmong (results response) k)
  /\ (forall t, emittedToken response = Some t ->
        forall k,
          hasKey (seenKeys (Some (Document t))) k = hasKey (writtenKeys t) k).
Proof.
  intros response.
  destruct (chunked_cases details api placeId options)
    as [[Hres Hpag]|(s & methods & fetchedAfter & _ & _ & _ & Hpage)].
  - fold response in Hres, Hpag. rewrite Hres.
    unfold emittedToken. rewrite Hpag.
    repeat split; [constructor | by intros r H%elem_of_nil | done | done].
  - cbv zeta in Hpage. fold response in Hpage.
    destruct Hpage as (Hres & _ & _ & Htok).
    destruct (collectUnique_spec (pageSizeOf options)
                (minimumRating (decodeChunkToken options))
                (results (fetchReviewsWithSort (api (hd EmptyString methods))))
                [] (reviewIds (decodeChunkToken options)))
      as (added & H1 & H2 & H3 & H4 & _).
    rewrite reviewIds_decode in H1, H3, H4. rewrite reviewIds_decode in Hres, Htok.
    simpl in H1. rewrite Hres, H1.
    split; [done|]. split; [done|].
    split.
    + intros t Ht k. rewrite Htok in Ht.
      destruct (_ || _); [|done]. injection Ht as <-.
      rewrite (proj2 (seenKeys_chunkToken _ _ _ _ _)).
      apply H4.
    + intros t Ht k. rewrite Htok in Ht.
      destruct (_ || _); [|done]. injection Ht as <-.
      rewrite (proj1 (seenKeys_chunkToken _ _ _ _ _)),
              (proj2 (seenKeys_chunkToken _ _ _ _ _)).
      apply hasKey_setOfList.
Qed.

End ChunkFacts.

Section ChainFacts.
Import JsString Json Reviews ReviewSpec ChunkSpec.
Variable coerceToNumber : json -> option Z.
Variable dateGetTime : string -> option Z.

Local Abbreviation chain := (chunkedChain coerceToNumber dateGetTime).
Local Abbreviation answerOf := (answer coerceToNumber dateGetTime).

Lemma answer_step (c : Call) token :
  let response := answerOf c token in
  NoDup (map reviewKey (results response))
  /\ (forall r, r ∈ results response ->
        hasKey (seenKeys token) (reviewKey r) = false)
  /\ (forall t, emittedToken response = Some t ->
        forall k,
          hasKey (writtenKeys t) k
          = hasKey (seenKeys token) k || keyAmong (results response) k)
  /\ (forall t, emittedToken response = Some t ->
        forall k,
          hasKey (seenKeys (Some (Document t))) k = hasKey (writtenKeys t) k).
Proof.
  exact (chunked_step coerceToNumber dateGetTime (callDetails c) (callApi c)
           (callPlace c) (withPageToken (callOptions c) token)).
Qed.

Lemma chain_cons (c : Call) rest token :
  chain (c :: rest) token =
  answerOf c token ::
  match emittedToken (answerOf c token) with
  | Some t => chain rest (Some (Document t))
  | None => []
  end.
Proof. reflexivity. Qed.

Lemma emitted_cons response pages :
  emitted (response :: pages) = results response ++ emitted pages.
Proof. reflexivity. Qed.

(** Along a chain no key is emitted twice, and none that the first token
    listed as seen. *)
Lemma chain_fresh (calls : list Call) token :
  NoDup (map reviewKey (emitted (chain calls token)))
  /\ (forall r, r ∈ emitted (chain calls token) ->
        hasKey (seenKeys token) (reviewKey r) = false).
Proof.
  revert token; induction calls as [|c rest IH]; intros token.
  { split; [constructor | by intros r H%elem_of_nil]. }
  rewrite chain_cons, emitted_cons.
  destruct (answer_step c token) as (Hnd & Hnew & Hwritten & Hread).
  destruct (emittedToken (answerOf c token)) as [t|] eqn:Ht.
  - destruct (IH (Some (Document t))) as [Hnd' Hnew'].
    assert (Hlater : forall r, r ∈ emitted (chain rest (Some (Document t))) ->
                     hasKey (seenKeys token) (reviewKey r) = false
                     /\ keyAmong (results (answerOf c token)) (reviewKey r) = false).
    { intros r Hr. specialize (Hnew' r Hr).
      rewrite (Hread t eq_refl), (Hwritten t eq_refl) in Hnew'.
      by apply orb_false_iff in Hnew'. }
    split.
    + rewrite map_app. apply NoDup_app. split; [done|]. split; [|done].
      intros k Hk Hk'.
      change (map reviewKey ?l) with (reviewKey <$> l) in Hk'.
      apply list_elem_of_fmap in Hk' as (r & -> & Hr).
      destruct (Hlater r Hr) as [_ Hno].
      apply keyAmong_true in Hk. by rewrite Hk in Hno.
    + intros r [Hr|Hr]%elem_of_app; [by apply Hnew|].
      by destruct (Hlater r Hr).
  - change (emitted []) with (@nil Review). rewrite app_nil_r. done.
Qed.

(** Every token of a chain lists what the first token listed and every
    key emitted up to and including the page it comes with. *)
Lemma chain_tokens (calls : list Call) token earlier response later t k :
  chain calls token = earlier ++ response :: later ->
  emittedToken response = Some t ->
  hasKey (seenKeys token) k = true
  \/ keyAmong (emitted (earlier ++ [response])) k = true ->
  hasKey (writtenKeys t) k = true.
Proof.
  revert token earlier; induction calls as [|c rest IH];
    intros token earlier Hrun Ht Hk.
  { by destruct earlier. }
  rewrite chain_cons in Hrun.
  destruct (answer_step c token) as (_ & _ & Hwritten & Hread).
  destruct earlier as [|first earlier]; simpl in Hrun;
    injection Hrun as <- Hrest.
  - rewrite (Hwritten t Ht).
    destruct Hk as [->|Hk]; [done|].
    change (emitted ([] ++ [answerOf c token]))
      with (results (answerOf c token) ++ []) in Hk.
    rewrite app_nil_r in Hk. rewrite Hk. apply orb_true_r.
  - destruct (emittedToken (answerOf c token)) as [t0|] eqn:Ht0;
      [|by destruct earlier].
    apply (IH (Some (Document t0)) earlier Hrest Ht).
    rewrite (Hread t0 eq_refl), (Hwritten t0 eq_refl).
    change (emitted ((answerOf c token :: earlier) ++ [response]))
      with (results (answerOf c token) ++ emitted (earlier ++ [response])) in Hk.
    rewrite keyAmong_app in Hk.
    destruct Hk as [->|[->| ->]%orb_true_iff]; auto using orb_true_r.
Qed.

(** C9: along a continuation chain of the chunked mode, whatever the
    first token and whatever the endpoint answers at each call, no
    identity key is emitted twice; no call emits a review whose key is
    among the seen keys of the token it resumed from; and the token a call
    hands out lists the key of every review emitted on its page and on all
    earlier pages of the chain. *)
Theorem C9_chain_never_repeats_a_key (calls : list Call) (token : option Decoded) :
  let pages := chunkedChain coerceToNumber dateGetTime calls token in
  NoDup (map reviewKey (emitted pages))
  /\ (forall (c : Call) incoming r,
        r ∈ results (answer coerceToNumber dateGetTime c incoming) ->
        setHas (seenKeys incoming) (JString (reviewKey r)) = false)
  /\ (forall r, r ∈ emitted pages ->
        setHas (seenKeys token) (JString (reviewKey r)) = false)
  /\ (forall earlier response later t r,
        pages = earlier ++ response :: later ->
        emittedToken response = Some t ->
        r ∈ emitted (earlier ++ [response]) ->
        setHas (writtenKeys t) (JString (reviewKey r)) = true
        /\ setHas (seenKeys (Some (Document t))) (JString (reviewKey r)) = true).
Proof.
  intros pages. destruct (chain_fresh calls token) as [Hnd Hnew].
  split; [exact Hnd|].
  split.
  { intros c incoming r Hr.
    destruct (answer_step c incoming) as (_ & H & _). by apply H. }
  split; [exact Hnew|].
  intros earlier response later t r Hrun Ht Hr.
  assert (Hw : hasKey (writtenKeys t) (reviewKey r) = true).
  { eapply chain_tokens; [exact Hrun|exact Ht|].
    right. apply keyAmong_true.
    change (map reviewKey ?l) with (reviewKey <$> l).
    apply list_elem_of_fmap. eauto. }
  split; [exact Hw|].
  assert (Hin : In response pages).
  { rewrite Hrun. apply in_or_app. right. by left. }
  clear Hrun Hr.
  (* the token is read back by the call that resumes from it *)
  revert token pages Hnd Hnew Hin.
  induction calls as [|c rest IH]; intros token pages Hnd Hnew Hin;
    [done|].
  unfold pages in Hin. rewrite chain_cons in Hin.
  destruct Hin as [<-|Hin].
  - destruct (answer_step c token) as (_ & _ & _ & Hread).
    fold (hasKey (seenKeys (Some (Document t))) (reviewKey r)).
    by rewrite (Hread t Ht).
  - destruct (emittedToken (answerOf c token)) as [t0|]; [|done].
    destruct (chain_fresh rest (Some (Document t0))) as [Hnd' Hnew'].
    by apply (IH (Some (Document t0)) Hnd' Hnew').
Qed.

End ChainFacts.

(** The C9 theorem on three calls against an endpoint that knows one
    review: the review is handed out once. *)
Lemma C9_witness_three_calls :
  map Reviews.reviewKey (ChunkSpec.emitted DemoChunks.threeCalls)
  = ["Ann_2024-01-01T00:00:00.000Z"]
  /\ NoDup (map Reviews.reviewKey (ChunkSpec.emitted DemoChunks.threeCalls)).
Proof.
  split; [vm_compute; reflexivity|].
  exact (proj1 (C9_chain_never_repeats_a_key
                  DemoReviews.noCoercion DemoReviews.noDate
                  [DemoChunks.annOnly; DemoChunks.annOnly; DemoChunks.annOnly]
                  None)).
Defined.

(** ** The hasMoreReviews flag of the chunked mode *)

Section HasMoreFacts.
Import JsString Json Reviews ReviewSpec ChunkSpec.
Variable coerceToNumber : json -> option Z.
Variable dateGetTime : string -> option Z.

(** The choice of the next sort orders, over an abstract membership test
    [inc] and the outcome [lp] of the length test. *)
Lemma untried_count (inc : string -> bool) (lp : bool) :
  let remaining := List.filter (fun m => negb (inc m)) allSortMethods in
  let methods :=
    if lp then match remaining with [] => ["most_relevant"] | _ => remaining end
    else allSortMethods in
  (lp = false -> forall m, In m allSortMethods -> inc m = false) ->
  (1 <? Z.of_nat (length methods)) = true <->
  exists m, In m allSortMethods /\ ~ (inc m = true \/ m = hd EmptyString methods).
Proof.
  intros remaining methods Hempty. unfold methods, remaining. simpl.
  destruct lp.
  - clear Hempty.
    destruct (inc "most_relevant") eqn:E1, (inc "newest") eqn:E2,
             (inc "highest_rating") eqn:E3; simpl;
      (split;
       [ intros H; try discriminate H;
         first
           [ exists "highest_rating"; split; [cbn; tauto|];
             intros [F|F]; [congruence|discriminate F]
           | exists "newest"; split; [cbn; tauto|];
             intros [F|F]; [congruence|discriminate F] ]
       | intros (m & [<-|[<-|[<-|[]]]] & Hno); try reflexivity;
         exfalso; apply Hno; first [left; assumption | right; reflexivity] ]).
  - split; [|done]. intros _. exists "newest". split; [cbn; tauto|].
    intros [F|F]; [|discriminate F].
    rewrite Hempty in F; [discriminate F|reflexivity|cbn; tauto].
Qed.

Lemma notYetFetched_filter fetched (inc : string -> bool) methods :
  (forall m, includesMethod fetched m = Done (inc m)) ->
  notYetFetched fetched methods
  = Done (List.filter (fun m => negb (inc m)) methods).
Proof.
  intros Hinc. induction methods as [|m methods IH]; [reflexivity|].
  simpl. rewrite Hinc, IH. simpl. by destruct (inc m).
Qed.

(** When the membership test on [fetchedMethods] does not throw, the
    incoming value is an array or a string, and the three tests are the
    values of one function. *)
Lemma includesMethod_total fetched method already :
  includesMethod fetched method = Done already ->
  exists (inc : string -> bool) (lp : bool),
    (forall m, includesMethod fetched m = Done (inc m))
    /\ lengthPositive coerceToNumber fetched = Done lp
    /\ (lp = false -> forall m, In m allSortMethods -> inc m = false).
Proof.
  destruct fetched as [| | |s|items|]; try done; intros _.
  - exists (includes s), (0 <? Z.of_nat (String.length s)).
    split; [done|]. split; [done|].
    destruct s; [|done]. intros _ m [<-|[<-|[<-|[]]]]; reflexivity.
  - exists (fun m => existsb (sameValueZero (JString m)) items),
           (0 <? Z.of_nat (length items)).
    split; [done|]. split; [done|].
    destruct items; [|done]. done.
Qed.

Lemma methods_untried options methods already :
  nextSortMethodsOf coerceToNumber (decodeChunkToken options) = Done methods ->
  includesMethod (fetchedMethods (decodeChunkToken options)) (hd EmptyString methods)
    = Done already ->
  (1 <? Z.of_nat (length methods)) = true <->
  exists m, m ∈ allSortMethods /\ ~ triedAfter coerceToNumber options m.
Proof.
  intros Hnext Hinc.
  assert (Hcur : currentSortMethodOf coerceToNumber options = hd EmptyString methods).
  { unfold currentSortMethodOf. by rewrite Hnext. }
  unfold triedAfter. rewrite Hcur.
  destruct (includesMethod_total _ _ _ Hinc) as (inc & lp & Hall & Hlp & Hempty).
  unfold nextSortMethodsOf in Hnext. rewrite Hlp in Hnext. cbn [andThen] in Hnext.
  rewrite (notYetFetched_filter _ inc _ Hall) in Hnext. cbn [andThen] in Hnext.
  pose proof (untried_count inc lp Hempty) as Hcount. cbv zeta in Hcount.
  assert (Hm : methods =
               if lp
               then match List.filter (fun m => negb (inc m)) allSortMethods with
                    | [] => ["most_relevant"]
                    | _ => List.filter (fun m => negb (inc m)) allSortMethods
                    end
               else allSortMethods).
  { destruct lp; by injection Hnext as <-. }
  rewrite <- Hm in Hcount. rewrite Hcount.
  split; intros (m & Hin & Hno); exists m;
    (split; [by apply list_elem_of_In|]);
    intros [F|F]; apply Hno; auto.
  - left. rewrite Hall in F. by injection F.
  - left. rewrite Hall. by rewrite F.
Qed.

(** What the code computes: when the chunked mode returns a page,
    hasMoreReviews is set if and only if one of the three sort orders is
    still neither listed in the incoming token nor the one just used, or
    the just-fetched sort order returned more reviews than the page
    carries, the reviews skipped as already seen or as below the minimum
    rating counting like the ones cut off by the page size. *)
Lemma hasMore_compares_with_all_fetched
    (details : PlaceDetails) (api : string -> ReviewsReply)
    (placeId : string) (options : ReviewOptions) :
  let response :=
    getReviewsChunked coerceToNumber dateGetTime details api placeId options in
  pagination response <> None ->
  saysMore response = true <->
  (exists m, m ∈ allSortMethods /\ ~ triedAfter coerceToNumber options m)
  \/ (length (results response)
      < length (fetchedFor coerceToNumber api options))%nat.
Proof.
  intros response Hpage.
  destruct (chunked_cases coerceToNumber dateGetTime details api placeId options)
    as [[_ Hnone]|(s & methods & fetchedAfter & _ & Hnext & (already & Hinc & _) & Hrest)].
  { by fold response in Hnone. }
  cbv zeta in Hrest. fold response in Hrest.
  destruct Hrest as (Hres & Hmore & _ & _).
  assert (Hcur : currentSortMethodOf coerceToNumber options = hd EmptyString methods).
  { unfold currentSortMethodOf. by rewrite Hnext. }
  unfold fetchedFor. rewrite Hcur, Hmore, Hres, orb_true_iff.
  rewrite (methods_untried options methods already Hnext Hinc).
  rewrite Z.ltb_lt. split; (intros [H|H]; [by left|right; lia]).
Qed.

End HasMoreFacts.

(** C8: the code sets hasMoreReviews where the claim says it is not set.
    On the third call of a chain against an endpoint that knows one
    review, a page is returned and it is empty; after the call no sort
    order is left untried, and the fetched order yielded no review that is
    new and passes the filter; yet hasMoreReviews is set, because the one
    review fetched, already handed out by the first call, is counted. The
    equivalence the claim states fails on this call. *)
Theorem C8_hasMore_is_set_with_nothing_left :
  let options := DemoChunks.thirdCallOptions in
  let api := DemoReviews.always [DemoReviews.ann] in
  let response :=
    Reviews.getReviewsChunked DemoReviews.noCoercion DemoReviews.noDate
      (Reviews.DetailsOk DemoReviews.place) api "place" options in
  Reviews.pagination response <> None
  /\ Reviews.results response = []
  /\ (forall m, m ∈ Reviews.allSortMethods ->
        ChunkSpec.triedAfter DemoReviews.noCoercion options m)
  /\ ChunkSpec.uniqueCandidates DemoReviews.noCoercion options
       (ChunkSpec.fetchedFor DemoReviews.noCoercion api options) = []
  /\ length (ChunkSpec.fetchedFor DemoReviews.noCoercion api options) = 1%nat
  /\ ReviewSpec.saysMore response = true
  /\ ~ (ReviewSpec.saysMore response = true <->
        (exists m, m ∈ Reviews.allSortMethods
                   /\ ~ ChunkSpec.triedAfter DemoReviews.noCoercion options m)
        \/ (length (Reviews.results response)
            < length (ChunkSpec.uniqueCandidates DemoReviews.noCoercion options
                        (ChunkSpec.fetchedFor DemoReviews.noCoercion api options)))%nat).
Proof.
  intros options api response.
  assert (Hpage : Reviews.pagination response <> None)
    by (vm_compute; discriminate).
  assert (Hempty : Reviews.results response = []) by (vm_compute; reflexivity).
  assert (Htried : forall m, m ∈ Reviews.allSortMethods ->
                     ChunkSpec.triedAfter DemoReviews.noCoercion options m).
  { intros m Hin. apply list_elem_of_In in Hin.
    destruct Hin as [<-|[<-|[<-|[]]]];
      first [left; vm_compute; reflexivity | right; vm_compute; reflexivity]. }
  assert (Hnone : ChunkSpec.uniqueCandidates DemoReviews.noCoercion options
                    (ChunkSpec.fetchedFor DemoReviews.noCoercion api options) = [])
    by (vm_compute; reflexivity).
  assert (Hset : ReviewSpec.saysMore response = true) by (vm_compute; reflexivity).
  split; [done|]. split; [done|]. split; [done|]. split; [done|].
  split; [vm_compute; reflexivity|]. split; [done|].
  intros [Hclaim _].
  destruct (Hclaim Hset) as [(m & Hin & Hno)|Hlt].
  - by apply Hno, Htried.
  - rewrite Hempty, Hnone in Hlt. simpl in Hlt. lia.
Qed.

(** On that endpoint the flag never drops: eight calls in a row each say
    that more is to come, and only the first carries a review. *)
Example chunked_chain_keeps_going :
  map (fun page => (length (Reviews.results page), ReviewSpec.saysMore page))
    (ChunkSpec.chunkedChain DemoReviews.noCoercion DemoReviews.noDate
       (replicate 8 DemoChunks.annOnly) None)
  = (1%nat, true) :: replicate 7 (0%nat, true).
Proof. vm_compute. reflexivity. Qed.

(** ** Cursors across the two modes *)

Section CursorFacts.
Import JsString Json Reviews ReviewSpec ChunkSpec.
Variable coerceToNumber : json -> option Z.
Variable dateGetTime : string -> option Z.

Lemma startIndexOf_usable token :
  hasUsableStartIndex token = false -> startIndexOf (Some token) = 0.
Proof.
  unfold hasUsableStartIndex, startIndexOf.
  destruct token as [|[| | | | |members]]; try done.
  destruct (getField members "startIndex") as [[| |n| | |]|]; try done.
  by intros ->.
Qed.

(** The standard mode looks at its token through [startIndexOf] only. *)
Lemma getReviews_token details allReviews placeId options token token' :
  startIndexOf token = startIndexOf token' ->
  getReviews details allReviews placeId (withPageToken options token)
  = getReviews details allReviews placeId (withPageToken options token').
Proof.
  intros E. unfold getReviews, pageSizeOf. simpl. by rewrite E.
Qed.

Lemma chunkToken_shape current fetched ids uniqueReviews minimum :
  let t := chunkToken dateGetTime current fetched ids uniqueReviews minimum in
  hasUsableStartIndex (Document t) = false
  /\ memberNames t ⊆
     ["sortMethod"; "fetchedMethods"; "reviewIds"; "lastReviewTime"; "minimumRating"].
Proof.
  destruct minimum; (split; [reflexivity|]); cbn; set_solver.
Qed.

Lemma offsetToken_shape endIndex placeId total minimum options :
  let t := offsetToken endIndex placeId total minimum in
  memberNames t ⊆ ["startIndex"; "placeId"; "totalReviews"; "minimumRating"]
  /\ decodeChunkToken (withPageToken options (Some (Document t)))
     = freshTokenData (withMinimumRating options minimum).
Proof.
  destruct minimum; (split; [cbn; set_solver|reflexivity]).
Qed.

(** The chunked mode looks at its options through the page size and the
    decoded token only. *)
Lemma chunked_decode details api placeId options options' :
  pageSizeOf options = pageSizeOf options' ->
  decodeChunkToken options = decodeChunkToken options' ->
  getReviewsChunked coerceToNumber dateGetTime details api placeId options
  = getReviewsChunked coerceToNumber dateGetTime details api placeId options'.
Proof.
  intros Hsize Hdec. unfold getReviewsChunked, chunkedPage.
  by rewrite Hsize, Hdec.
Qed.

(** C7, as the code has it: the two cursor variants carry no discriminant
    member and differ only in which members they carry, the minimum
    rating being the one they may share. A token handed out by the
    chunked mode has no startIndex, so the standard mode answers as if no
    cursor had been sent. A token handed out by the standard mode is not
    turned away by the chunked mode: it is read as the start of a fresh
    chain whose minimum rating is the one stored in the token, in place of
    the request's. *)
Theorem C7_cursors_differ_by_shape_only
    (details : PlaceDetails) (api : string -> ReviewsReply)
    (allReviews : list Review) (placeId : string)
    (options : ReviewOptions) (t : json) :
  (emittedToken
     (getReviewsChunked coerceToNumber dateGetTime details api placeId options)
     = Some t ->
   memberNames t ⊆
     ["sortMethod"; "fetchedMethods"; "reviewIds"; "lastReviewTime"; "minimumRating"]
   /\ forall details' reviews' placeId' options',
        getReviews details' reviews' placeId'
          (withPageToken options' (Some (Document t)))
        = getReviews details' reviews' placeId' (withPageToken options' None))
  /\ (emittedToken (getReviews details allReviews placeId options) = Some t ->
      memberNames t ⊆ ["startIndex"; "placeId"; "totalReviews"; "minimumRating"]
      /\ forall details' api' placeId' options',
           getReviewsChunked coerceToNumber dateGetTime details' api' placeId'
             (withPageToken options' (Some (Document t)))
           = getReviewsChunked coerceToNumber dateGetTime details' api' placeId'
               (withPageToken
                  (withMinimumRating options' (optMinimumRating options)) None)).
Proof.
  split.
  - intros Ht.
    destruct (chunked_cases coerceToNumber dateGetTime details api placeId options)
      as [[_ Hnone]|(s & methods & fetchedAfter & _ & _ & _ & Hrest)].
    { unfold emittedToken in Ht. by rewrite Hnone in Ht. }
    cbv zeta in Hrest. destruct Hrest as (_ & _ & _ & Htok).
    rewrite Htok in Ht. destruct (_ || _); [|done]. injection Ht as <-.
    destruct (chunkToken_shape (hd EmptyString methods) fetchedAfter
                (collectUnique coerceToNumber (pageSizeOf options)
                   (minimumRating (decodeChunkToken options))
                   (results (fetchReviewsWithSort (api (hd EmptyString methods)))) []
                   (reviewIds (decodeChunkToken options))).2
                (collectUnique coerceToNumber (pageSizeOf options)
                   (minimumRating (decodeChunkToken options))
                   (results (fetchReviewsWithSort (api (hd EmptyString methods)))) []
                   (reviewIds (decodeChunkToken options))).1
                (minimumRating (decodeChunkToken options)))
      as [Hstart Hnames].
    split; [exact Hnames|].
    intros details' reviews' placeId' options'.
    apply getReviews_token. by apply startIndexOf_usable.
  - intros Ht. unfold getReviews, emittedToken in Ht.
    destruct details as [s|e]; [|done]. simpl in Ht.
    destruct (_ <? _); [|done]. injection Ht as <-.
    split; [eapply (proj1 (offsetToken_shape _ _ _ _ options))|].
    intros details' api' placeId' options'.
    apply chunked_decode; [reflexivity|].
    by rewrite (proj2 (offsetToken_shape _ _ _ _ options')).
Qed.

End CursorFacts.

(** The C7 theorem on the token the standard mode hands out after a first
    page asked with a minimum rating of 5: sent to the chunked mode
    without a minimum rating, it filters out a three-star review. *)
Lemma C7_witness_offset_token_in_chunked_mode :
  exists t,
    DemoChunks.offsetTokenOfFiveStars = Some t
    /\ Reviews.results
         (Reviews.getReviewsChunked DemoReviews.noCoercion DemoReviews.noDate
            (Reviews.DetailsOk DemoReviews.place)
            (DemoReviews.always [DemoReviews.bob]) "place"
            (ReviewSpec.withPageToken (DemoReviews.options None None None)
               (Some (Json.Document t)))) = [].
Proof.
  eexists. split; [reflexivity|].
  rewrite (proj2 (proj2 (C7_cursors_differ_by_shape_only
             DemoReviews.noCoercion DemoReviews.noDate
             (Reviews.DetailsOk DemoReviews.place)
             (DemoReviews.always [DemoReviews.bob])
             [DemoReviews.ann;
              DemoReviews.review "Dee" 5 "Top" "2024-01-04T00:00:00.000Z"]
             "place" (DemoReviews.options (Some 1) (Some 5) None) _)
             eq_refl)).
  vm_compute. reflexivity.
Defined.

(** C7 as stated fails: a token handed out by the standard mode is taken
    up by the chunked mode, which answers differently with it than
    without it. *)
Lemma C7_counterexample_offset_token_is_used :
  exists t,
    DemoChunks.offsetTokenOfFiveStars = Some t
    /\ Reviews.getReviewsChunked DemoReviews.noCoercion DemoReviews.noDate
         (Reviews.DetailsOk DemoReviews.place)
         (DemoReviews.always [DemoReviews.bob]) "place"
         (DemoReviews.options None None (Some (Json.Document t)))
       <> Reviews.getReviewsChunked DemoReviews.noCoercion DemoReviews.noDate
            (Reviews.DetailsOk DemoReviews.place)
            (DemoReviews.always [DemoReviews.bob]) "place"
            (DemoReviews.options None None None).
Proof.
  eexists. split; [reflexivity|].
  vm_compute. discriminate.
Qed.

(** C6: the standard mode uses a token's startIndex only when it is
    there, a number and not negative, and otherwise answers exactly as
    without a token. The chunked mode does not degrade the same way: on a
    token whose fetchedMethods member is the number 5 the request fails
    with the error of a TypeError, where without a token it returns the
    first page. *)
Theorem C6_chunked_mode_fails_on_mistyped_token
    (coerceToNumber : Json.json -> option Z) (dateGetTime : string -> option Z)
    (details : Reviews.PlaceDetails) (s : Reviews.PlaceSummary)
    (allReviews : list Reviews.Review) (placeId : string)
    (options : Reviews.ReviewOptions) (token : Json.Decoded) :
  Reviews.getReviews details allReviews placeId
    (ReviewSpec.withPageToken options (Some token))
  = Reviews.getReviews details allReviews placeId
      (ReviewSpec.withPageToken options
         (if ReviewSpec.hasUsableStartIndex token then Some token else None))
  /\ Reviews.getReviewsChunked coerceToNumber dateGetTime
       (Reviews.DetailsOk s) (DemoReviews.always [DemoReviews.ann]) placeId
       (DemoReviews.options None None (Some DemoChunks.mistypedToken))
     = Reviews.failureOf
         (Reviews.typeError "tokenData.fetchedMethods.includes is not a function")
  /\ Reviews.results
       (Reviews.getReviewsChunked coerceToNumber dateGetTime
          (Reviews.DetailsOk s) (DemoReviews.always [DemoReviews.ann]) placeId
          (DemoReviews.options None None None))
     = [DemoReviews.ann].
Proof.
  split; [|split; reflexivity].
  destruct (ReviewSpec.hasUsableStartIndex token) eqn:E; [reflexivity|].
  apply getReviews_token. by apply startIndexOf_usable.
Qed.

(** * Further properties *)

(** ** API keys *)

Section AuthFacts.
Import JsString Auth.

Lemma split_nonempty sep s : split sep s <> [].
Proof.
  destruct s as [|c s]; simpl; [done|].
  destruct (Ascii.eqb c sep); [done|]. by destruct (split sep s).
Qed.

Lemma join_cons sep piece rest :
  rest <> [] -> join sep (piece :: rest) = piece +:+ String sep (join sep rest).
Proof. by destruct rest. Qed.

Lemma join_split sep s : join sep (split sep s) = s.
Proof.
  induction s as [|c s IH]; simpl; [reflexivity|].
  destruct (Ascii.eqb c sep) eqn:E.
  - apply Ascii.eqb_eq in E as ->.
    rewrite join_cons by apply split_nonempty. by rewrite IH.
  - pose proof (split_nonempty sep s) as Hne.
    destruct (split sep s) as [|piece pieces]; [done|].
    destruct pieces as [|piece' pieces].
    + simpl in *. by rewrite IH.
    + change (join sep (String c piece :: piece' :: pieces))
        with (String c (piece +:+ String sep (join sep (piece' :: pieces)))).
      change (join sep (piece :: piece' :: pieces))
        with (piece +:+ String sep (join sep (piece' :: pieces))) in IH.
      by rewrite IH.
Qed.

Lemma split_pieces_free sep s piece :
  In piece (split sep s) -> includes piece (String sep EmptyString) = false.
Proof.
  revert piece; induction s as [|c s IH]; simpl; intros piece.
  - by intros [<-|[]].
  - destruct (Ascii.eqb c sep) eqn:E.
    + intros [<-|Hin]; [reflexivity|by apply IH].
    + pose proof (split_nonempty sep s) as Hne.
      destruct (split sep s) as [|p ps]; [done|].
      intros [<-|Hin].
      * simpl. rewrite Ascii.eqb_sym, E. simpl. apply IH. by left.
      * apply IH. by right.
Qed.

End AuthFacts.

(** X1: an API key is accepted exactly when it is not empty and is one of
    the comma-separated entries of the configuration. The entries are what
    lies between the commas of the configured text, so that no accepted
    key is empty or contains a comma, and without a configuration no key
    is accepted. *)
Theorem X1_api_key_is_a_configured_entry (env : option string) (key : string) :
  let configured := match env with Some v => v | None => EmptyString end in
  (Auth.validateApiKey (Auth.ALLOWED_API_KEYS env) (Some key) = true <->
   key <> EmptyString /\ In key (Auth.split ","%char configured))
  /\ Auth.join ","%char (Auth.split ","%char configured) = configured
  /\ (Auth.validateApiKey (Auth.ALLOWED_API_KEYS env) (Some key) = true ->
      JsString.includes key "," = false)
  /\ Auth.validateApiKey (Auth.ALLOWED_API_KEYS env) None = false
  /\ Auth.validateApiKey (Auth.ALLOWED_API_KEYS None) (Some key) = false.
Proof.
  intros configured.
  assert (Hiff : Auth.validateApiKey (Auth.ALLOWED_API_KEYS env) (Some key) = true <->
                 key <> EmptyString /\ In key (Auth.split ","%char configured)).
  { unfold Auth.validateApiKey, Auth.ALLOWED_API_KEYS. fold configured.
    destruct (String.eqb key EmptyString) eqn:E.
    - apply String.eqb_eq in E. split; [done|]. by intros [? _].
    - apply String.eqb_neq in E. rewrite existsb_exists. split.
      + intros (k & Hin & Hk). apply String.eqb_eq in Hk as <-.
        apply filter_In in Hin as [Hin _]. done.
      + intros [_ Hin]. exists key. split; [|apply String.eqb_refl].
        apply filter_In. split; [done|].
        unfold Auth.nonEmpty. apply String.eqb_neq in E. by rewrite E. }
  split; [exact Hiff|].
  split; [apply join_split|].
  split.
  { intros Hok. apply Hiff in Hok as [_ Hin].
    by apply (split_pieces_free ","%char configured). }
  split; [reflexivity|].
  unfold Auth.validateApiKey, Auth.ALLOWED_API_KEYS. simpl.
  by destruct (String.eqb key EmptyString).
Qed.

(** X2: the handler checks the API key before it looks at the body, and
    the body before it consults a provider. A request without an accepted
    key is answered 401 whatever its body; an unreadable body is answered
    500 and a body the schema rejects 400 with the schema's details;
    in none of these cases is any upstream request made. Only an
    authorised, well-formed request reaches the provider selection, whose
    response and upstream traffic are then the handler's. *)
Theorem X2_handler_guards_the_providers
    {Result Options Details : Type} (env : option string)
    (ps : list (Geocoding.GeocodingProvider Result Options))
    (header : option string)
    (parsed : GeocodeRoute.ParsedBody Options Details) :
  let authorised :=
    Auth.validateApiKey (Auth.ALLOWED_API_KEYS env)
      (Auth.getApiKeyFromRequest header) in
  let run := GeocodeRoute.handle (Result := Result) env ps header parsed in
  (authorised = false ->
   run = (GeocodeRoute.Plain
            (Geocoding.jsonStatus
               (Geocoding.ErrorBody "Unauthorized - Invalid API key") 401), []))
  /\ (authorised = true ->
      match parsed with
      | GeocodeRoute.Unreadable =>
          run = (GeocodeRoute.Plain
                   (Geocoding.jsonStatus
                      (Geocoding.ErrorBody "Internal server error") 500), [])
      | GeocodeRoute.Rejected details =>
          run = (GeocodeRoute.InvalidRequest details, [])
      | GeocodeRoute.Parsed req =>
          run = (GeocodeRoute.Plain (Geocoding.value (Geocoding.POST ps req)),
                 Geocoding.effects (Geocoding.POST ps req))
      end)
  /\ (Geocoding.effects run <> [] ->
      authorised = true /\ exists req, parsed = GeocodeRoute.Parsed req)
  /\ (header = None \/ header = Some EmptyString -> authorised = false).
Proof.
  intros authorised run. unfold run, GeocodeRoute.handle. fold authorised.
  destruct authorised eqn:Hauth; simpl.
  - split; [done|]. split.
    + intros _. destruct parsed as [|details|req]; try reflexivity.
      destruct (Geocoding.POST ps req) as [response traffic]. simpl.
      by rewrite app_nil_r.
    + split.
      * intros Htraffic. split; [done|].
        destruct parsed as [|details|req]; try done. by exists req.
      * intros [->| ->]; subst authorised; simpl in Hauth; done.
  - split; [done|]. split; [done|]. split; [done|]. done.
Qed.

(** The X2 theorem on a request that carries no key: nothing is asked of
    any provider. *)
Lemma X2_witness_no_key :
  GeocodeRoute.handle (Details := unit) (Some "geo_key") Demo.registry None
    (GeocodeRoute.Parsed
       {| Geocoding.address := Demo.eiffel;
          Geocoding.preferredProvider := None;
          Geocoding.options := None |})
  = (GeocodeRoute.Plain
       (Geocoding.jsonStatus
          (Geocoding.ErrorBody "Unauthorized - Invalid API key") 401), []).
Proof.
  apply (X2_handler_guards_the_providers (Details := unit)
           (Some "geo_key") Demo.registry None
           (GeocodeRoute.Parsed
              {| Geocoding.address := Demo.eiffel;
                 Geocoding.preferredProvider := None;
                 Geocoding.options := None |})).
  reflexivity.
Defined.

(** ** Outcomes and upstream traffic of the two providers *)

Section ProviderFacts.
Import Geocoding Selection GeocodeSpec.
Context {Result Options CensusAddressMatch GoogleResult : Type}.
Variable censusApi : string -> CensusReply CensusAddressMatch.
Variable googleApi : string -> option Options -> GoogleReply GoogleResult.
Variable fromCensusMatch : CensusAddressMatch -> Result.
Variable transformResult : GoogleResult -> Result.

Local Abbreviation Provider := (GeocodingProvider Result Options).
Local Abbreviation registry :=
  (providers censusApi googleApi fromCensusMatch transformResult).
Local Abbreviation census :=
  (CensusProvider (Options := Options) censusApi fromCensusMatch).
Local Abbreviation google := (GoogleProvider googleApi transformResult).
Local Abbreviation censusRun :=
  (censusGeocode (Options := Options) censusApi fromCensusMatch).
Local Abbreviation googleRun := (googleGeocode googleApi transformResult).

Local Arguments CensusHeuristic.isUSAddress : simpl never.
Local Arguments orDefault : simpl never.

Lemma orDefault_nonempty s d : d <> EmptyString -> orDefault s d <> EmptyString.
Proof.
  intros Hd. unfold orDefault. destruct s as [v|]; [|done].
  destruct (String.eqb v EmptyString) eqn:E; [done|].
  by apply String.eqb_neq in E.
Qed.

Ltac settle_outcome :=
  repeat match goal with
         | |- _ /\ _ => split
         | |- _ <-> _ => split
         | |- exists _, _ => eexists
         end;
  try reflexivity; try done; try (intros [? ?]; done);
  try (simpl; by apply orDefault_nonempty).

Lemma census_outcome address (options : option Options) :
  let r := value (censusRun address options) in
  wellFormedOutcome r
  /\ provider r = "census"
  /\ (success r = true /\ results r <> [] <->
      CensusHeuristic.isUSAddress address = true
      /\ censusHasMatches (censusApi address) = true).
Proof.
  unfold censusGeocode, wellFormedOutcome.
  destruct (CensusHeuristic.isUSAddress address); simpl.
  - destruct (censusApi address) as [e|st txt|[[|m ms]|]]; simpl;
      settle_outcome.
  - settle_outcome.
Qed.

Lemma google_outcome address (options : option Options) :
  let r := value (googleRun address options) in
  wellFormedOutcome r
  /\ provider r = "google"
  /\ effects (googleRun address options) = [Upstream GoogleHost address]
  /\ success r = googleOk (googleApi address options)
  /\ (success r = true /\ results r <> [] <->
      googleHasResults (googleApi address options) = true).
Proof.
  unfold googleGeocode, wellFormedOutcome, request. simpl.
  destruct (googleApi address options) as [e|st raws]; simpl.
  - settle_outcome.
  - destruct (String.eqb st "OK") eqn:E; simpl; destruct raws; settle_outcome.
Qed.

(** X3: whatever the network answers, the outcome of a geocode call of
    either provider is well formed: a success carries no error, a failure
    carries no results and an error with a code and a message that are not
    empty, and the provider member is the adapter's name. A call makes at
    most one upstream request; the free provider makes none exactly when
    its heuristic rejects the address, and its outcome has results exactly
    when the heuristic lets the address through and the upstream has a
    match. *)
Theorem X3_provider_outcomes_are_well_formed
    (address : string) (options : option Options) :
  let c := censusRun address options in
  let g := googleRun address options in
  wellFormedOutcome (value c) /\ provider (value c) = name census
  /\ wellFormedOutcome (value g) /\ provider (value g) = name google
  /\ effects c = (if CensusHeuristic.isUSAddress address
                  then [Upstream CensusHost address] else [])
  /\ effects g = [Upstream GoogleHost address]
  /\ (success (value c) = true /\ results (value c) <> [] <->
      CensusHeuristic.isUSAddress address = true
      /\ censusHasMatches (censusApi address) = true)
  /\ (success (value g) = true /\ results (value g) <> [] <->
      googleHasResults (googleApi address options) = true).
Proof.
  intros c g.
  destruct (census_outcome address options) as (Hc1 & Hc2 & Hc3).
  destruct (google_outcome address options) as (Hg1 & Hg2 & Hg3 & _ & Hg5).
  split; [exact Hc1|]. split; [exact Hc2|].
  split; [exact Hg1|]. split; [exact Hg2|].
  split.
  { unfold c, censusGeocode.
    destruct (CensusHeuristic.isUSAddress address); [|done]. simpl.
    by destruct (censusApi address) as [e|st txt|[[|m ms]|]]. }
  split; [exact Hg3|]. split; [exact Hc3|exact Hg5].
Qed.

(** The availability probes, spelled out. *)
Lemma census_probe :
  isAvailable census =
  (Returned (censusHasMatches (censusApi censusProbeAddress)),
   [Upstream CensusHost censusProbeAddress]).
Proof.
  simpl. unfold censusGeocode. rewrite probe_address_is_US. simpl.
  by destruct (censusApi censusProbeAddress) as [e|st txt|[[|m ms]|]].
Qed.

Lemma google_probe :
  isAvailable google =
  (Returned (googleOk (googleApi googleProbeAddress None)),
   [Upstream GoogleHost googleProbeAddress]).
Proof.
  simpl. unfold googleGeocode, request. simpl.
  destruct (googleApi googleProbeAddress None) as [e|st raws]; simpl; [done|].
  by destruct (String.eqb st "OK").
Qed.

(** The verdict on the free provider. *)
Lemma census_verdict address (options : option Options) :
  verdictOf census address options =
  if censusHasMatches (censusApi censusProbeAddress) then
    let r := value (censusRun address options) in
    if success r
    then match results r with [] => SoftMiss | _ :: _ => Accepted r end
    else Failure (error r)
  else Unavailable.
Proof.
  unfold verdictOf. rewrite census_probe. unfold value at 1. cbn [fst].
  destruct (censusHasMatches _); [|done].
  change (geocode census address options)
    with (await r := censusRun address options in ret (Returned r)).
  by rewrite value_bind.
Qed.

Lemma google_verdict address (options : option Options) :
  verdictOf google address options =
  if googleOk (googleApi googleProbeAddress None) then
    let r := value (googleRun address options) in
    if success r
    then match results r with [] => SoftMiss | _ :: _ => Accepted r end
    else Failure (error r)
  else Unavailable.
Proof.
  unfold verdictOf. rewrite google_probe. unfold value at 1. cbn [fst].
  destruct (googleOk _); [|done].
  change (geocode google address options)
    with (await r := googleRun address options in ret (Returned r)).
  by rewrite value_bind.
Qed.

Lemma census_calls address (options : option Options) :
  callsOf census address options =
  Upstream CensusHost censusProbeAddress ::
  (if censusHasMatches (censusApi censusProbeAddress)
   then effects (censusRun address options) else []).
Proof.
  unfold callsOf. rewrite census_probe. unfold value, effects at 1. cbn [fst snd].
  destruct (censusHasMatches _); [|done].
  change (geocode census address options)
    with (await r := censusRun address options in ret (Returned r)).
  rewrite effects_bind. simpl. by rewrite app_nil_r.
Qed.

Lemma google_calls address (options : option Options) :
  callsOf google address options =
  Upstream GoogleHost googleProbeAddress ::
  (if googleOk (googleApi googleProbeAddress None)
   then [Upstream GoogleHost address] else []).
Proof.
  unfold callsOf. rewrite google_probe. unfold value, effects at 1. cbn [fst snd].
  destruct (googleOk _); [|done].
  change (geocode google address options)
    with (await r := googleRun address options in ret (Returned r)).
  rewrite effects_bind. simpl.
  by rewrite (proj1 (proj2 (proj2 (google_outcome address options)))).
Qed.

(** The fallback on the registry, by the verdict on the free provider. *)
Lemma registry_run address (options : option Options) :
  tryProviders registry address options None =
  match verdictOf census address options with
  | Accepted r => (json (GeocodeBody r), callsOf census address options)
  | Failure e =>
      (value (tryProviders [google] address options e),
       callsOf census address options
       ++ effects (tryProviders [google] address options e))
  | _ =>
      (value (tryProviders [google] address options None),
       callsOf census address options
       ++ effects (tryProviders [google] address options None))
  end.
Proof.
  change registry with (census :: [google]). rewrite tryProviders_step.
  rewrite census_verdict.
  destruct (censusHasMatches _); [|done]. cbv zeta.
  destruct (success _); [|done]. by destruct (results _).
Qed.

Lemma google_alone address (options : option Options) lastError :
  tryProviders [google] address options lastError =
  match verdictOf google address options with
  | Accepted r => (json (GeocodeBody r), callsOf google address options)
  | Failure e => (json (GeocodeBody (exhausted e)), callsOf google address options)
  | _ => (json (GeocodeBody (exhausted lastError)), callsOf google address options)
  end.
Proof.
  rewrite tryProviders_step. rewrite google_verdict.
  assert (Hend : forall (calls : list Event) err,
            (value (tryProviders (Result := Result) (Options := Options)
                      [] address options err),
             calls ++ effects (tryProviders (Result := Result)
                                 (Options := Options) [] address options err))
            = (json (GeocodeBody (exhausted err)), calls)).
  { intros calls err. simpl. by rewrite app_nil_r. }
  destruct (googleOk _); cbv zeta; [|apply Hend].
  destruct (success _); [|apply Hend].
  destruct (results _); [apply Hend|done].
Qed.

End ProviderFacts.

(** ** The fallback on the registry *)

Section RegistryExtras.
Import Geocoding Selection GeocodeSpec.
Context {Result Options CensusAddressMatch GoogleResult : Type}.
Variable censusApi : string -> CensusReply CensusAddressMatch.
Variable googleApi : string -> option Options -> GoogleReply GoogleResult.
Variable fromCensusMatch : CensusAddressMatch -> Result.
Variable transformResult : GoogleResult -> Result.

Local Abbreviation registry :=
  (providers censusApi googleApi fromCensusMatch transformResult).
Local Abbreviation censusRun :=
  (censusGeocode (Options := Options) censusApi fromCensusMatch).
Local Abbreviation googleRun := (googleGeocode googleApi transformResult).

Local Arguments CensusHeuristic.isUSAddress : simpl never.
Local Arguments orDefault : simpl never.

Local Abbreviation google := (GoogleProvider googleApi transformResult).
Local Abbreviation census :=
  (CensusProvider (Options := Options) censusApi fromCensusMatch).

(** The error the loop carries into the second turn. *)
Lemma registry_run_flat address (options : option Options) :
  tryProviders registry address options None =
  match verdictOf census address options with
  | Accepted r => (json (GeocodeBody r), callsOf census address options)
  | _ =>
      (value (tryProviders [google] address options
                (match verdictOf census address options with
                 | Failure e => e
                 | _ => None
                 end)),
       callsOf census address options
       ++ effects (tryProviders [google] address options
                     (match verdictOf census address options with
                      | Failure e => e
                      | _ => None
                      end)))
  end.
Proof.
  rewrite registry_run. by destruct (verdictOf census address options).
Qed.

Ltac run_registry address options :=
  change (POST registry (noProvider address options))
    with (tryProviders registry address options None);
  rewrite registry_run_flat, !google_alone, !census_verdict, !google_verdict,
          census_calls, google_calls;
  unfold censusAnswers, censusGeocode, googleGeocode, request, wellFormedOutcome;
  destruct (censusHasMatches (censusApi censusProbeAddress));
  destruct (CensusHeuristic.isUSAddress address);
  [ destruct (censusApi address) as [? | ? ? | [[|? ?]|]] | | | ];
  destruct (googleOk (googleApi googleProbeAddress None));
  try (destruct (googleApi address options) as [? | st [|? ?]]);
  simpl;
  try match goal with
      | |- context [String.eqb ?st "OK"] => destruct (String.eqb st "OK")
      end;
  simpl.

(** X4: without an explicit provider the registry always answers with
    status 200 and a well-formed outcome. The outcome is a success only
    with at least one result, tagged 'census' exactly when the free
    provider answered the request and otherwise 'google'; or it is the
    failure tagged 'multiple', whose error is the commercial provider's
    when that provider was available and failed, else the free provider's
    when it was available and failed, else the all-providers-failed
    error. *)
Theorem X4_fallback_answer (address : string) (options : option Options) :
  exists r,
    value (POST registry (noProvider address options)) = json (GeocodeBody r)
    /\ wellFormedOutcome r
    /\ (success r = true ->
        results r <> []
        /\ provider r = (if censusAnswers censusApi address then "census" else "google"))
    /\ (success r = false ->
        provider r = "multiple"
        /\ error r =
           if googleOk (googleApi googleProbeAddress None)
              && negb (googleOk (googleApi address options))
           then error (value (googleRun address options))
           else if censusHasMatches (censusApi censusProbeAddress)
                   && negb (success (value (censusRun address options)))
           then error (value (censusRun address options))
           else Some allProvidersFailed).
Proof.
  run_registry address options;
    (eexists; split; [reflexivity|]); simpl;
    repeat match goal with
           | |- _ /\ _ => split
           | |- exists _, _ => eexists
           end;
    try reflexivity; try done;
    try (intros _; split; done);
    try (simpl; by apply orDefault_nonempty).
Qed.

(** X5: the upstream traffic of a request without an explicit provider on
    the registry. It always starts with the free provider's availability
    probe, followed by the address itself if the probe found a match and
    the heuristic lets the address through. The commercial provider is
    contacted, probe first, only when the free provider did not answer
    the request; a request the free provider answers costs exactly two
    requests to the free upstream and none to the commercial one. *)
Theorem X5_fallback_traffic (address : string) (options : option Options) :
  let traffic := effects (POST registry (noProvider address options)) in
  traffic =
    Upstream CensusHost censusProbeAddress ::
    (if censusHasMatches (censusApi censusProbeAddress)
        && CensusHeuristic.isUSAddress address
     then [Upstream CensusHost address] else [])
    ++ (if censusAnswers censusApi address then []
        else Upstream GoogleHost googleProbeAddress ::
             (if googleOk (googleApi googleProbeAddress None)
              then [Upstream GoogleHost address] else []))
  /\ (censusAnswers censusApi address = true ->
      traffic = [Upstream CensusHost censusProbeAddress;
                 Upstream CensusHost address])
  /\ (existsb isGoogleRequest traffic = negb (censusAnswers censusApi address))
  /\ (length traffic <= 4)%nat.
Proof.
  run_registry address options;
    repeat match goal with |- _ /\ _ => split end;
    try reflexivity; try done; simpl; lia.
Qed.

End RegistryExtras.

(** ** Further properties of deduplication *)

Section DedupExtras.
Import Json Reviews ReviewSpec.

Lemma dedupFrom_all_seen seen l :
  (forall r, r ∈ l -> reviewKey r ∈ seen) -> dedupFrom seen l = [].
Proof.
  induction l as [|r l IH]; intros Hall; simpl; [reflexivity|].
  case_decide as Hin.
  - apply IH. intros r' Hr'. apply Hall. by right.
  - exfalso. apply Hin, Hall. by left.
Qed.

Lemma dedupFrom_fresh seen l :
  NoDup (map reviewKey l) -> (forall r, r ∈ l -> reviewKey r ∉ seen) ->
  dedupFrom seen l = l.
Proof.
  revert seen; induction l as [|r l IH]; intros seen Hnd Hfresh; simpl;
    [reflexivity|].
  simpl in Hnd. apply NoDup_cons in Hnd as [Hr Hnd].
  case_decide as Hin.
  - exfalso. by apply (Hfresh r); [left|].
  - f_equal. apply IH; [done|].
    intros r' Hr' Hin'. apply elem_of_union in Hin' as [Heq|Hseen].
    + apply elem_of_singleton in Heq. apply Hr. rewrite <- Heq.
      change (map reviewKey l) with (reviewKey <$> l).
      apply list_elem_of_fmap. eauto.
    + by apply (Hfresh r'); [right|].
Qed.

Lemma keysOf_cons r l : keysOf (r :: l) = {[reviewKey r]} ∪ keysOf l.
Proof. reflexivity. Qed.

Lemma keysOf_dedupFrom seen l : keysOf (dedupFrom seen l) ∪ seen = keysOf l ∪ seen.
Proof.
  revert seen; induction l as [|r l IH]; intros seen; [done|].
  assert (IH1 : forall x, x ∈ keysOf (dedupFrom seen l) ∪ seen
                          <-> x ∈ keysOf l ∪ seen)
    by (intros x; by rewrite IH).
  assert (IH2 : forall x,
            x ∈ keysOf (dedupFrom ({[reviewKey r]} ∪ seen) l)
                ∪ ({[reviewKey r]} ∪ seen)
            <-> x ∈ keysOf l ∪ ({[reviewKey r]} ∪ seen))
    by (intros x; by rewrite IH).
  clear IH. cbn [dedupFrom].
  case_decide as Hin; rewrite ?keysOf_cons; apply set_eq; intros x;
    specialize (IH1 x); specialize (IH2 x); set_solver.
Qed.

End DedupExtras.

(** X6: deduplication is idempotent and does not depend on how often the
    same reviews are merged: deduplicating a deduplicated list changes
    nothing, merging a list with itself (or appending reviews whose keys
    all occurred before) gives the same result as the list alone, the
    result has no two reviews with the same key, and it has exactly the
    keys of the input. *)
Theorem X6_dedup_is_idempotent (reviews more : list Reviews.Review) :
  Reviews.deduplicateReviews (Reviews.deduplicateReviews reviews)
    = Reviews.deduplicateReviews reviews
  /\ Reviews.deduplicateReviews (reviews ++ reviews)
     = Reviews.deduplicateReviews reviews
  /\ ((forall r, r ∈ more -> Reviews.reviewKey r ∈ ReviewSpec.keysOf reviews) ->
      Reviews.deduplicateReviews (reviews ++ more)
      = Reviews.deduplicateReviews reviews)
  /\ NoDup (map Reviews.reviewKey (Reviews.deduplicateReviews reviews))
  /\ ReviewSpec.keysOf (Reviews.deduplicateReviews reviews)
     = ReviewSpec.keysOf reviews.
Proof.
  unfold Reviews.deduplicateReviews.
  destruct (dedupFrom_keys ∅ reviews) as [Hnd Hfresh].
  assert (Hmore : forall extra,
            (forall r, r ∈ extra -> Reviews.reviewKey r ∈ ReviewSpec.keysOf reviews) ->
            Reviews.dedupFrom ∅ (reviews ++ extra) = Reviews.dedupFrom ∅ reviews).
  { intros extra Hall. rewrite dedupFrom_app, (dedupFrom_all_seen _ extra).
    - apply app_nil_r.
    - intros r Hr. apply elem_of_union_l. by apply Hall. }
  split; [by apply dedupFrom_fresh|].
  split.
  { apply Hmore. intros r Hr. apply elem_of_keysOf. eauto. }
  split; [apply Hmore|].
  split; [exact Hnd|].
  pose proof (keysOf_dedupFrom ∅ reviews) as Hkeys.
  by rewrite !union_empty_r_L in Hkeys.
Qed.

(** The X6 theorem on a merged list and a later copy of one of its
    reviews. *)
Lemma X6_witness_repeated_review :
  Reviews.deduplicateReviews
    ([DemoReviews.ann; DemoReviews.bob] ++ [DemoReviews.annAgain])
  = Reviews.deduplicateReviews [DemoReviews.ann; DemoReviews.bob].
Proof.
  apply (proj1 (proj2 (proj2 (X6_dedup_is_idempotent
                  [DemoReviews.ann; DemoReviews.bob] [DemoReviews.annAgain])))).
  intros r Hr. apply list_elem_of_singleton in Hr. subst r.
  apply elem_of_keysOf. exists DemoReviews.ann. split; [by left|reflexivity].
Defined.

(** ** Further properties of the standard mode *)

Section OffsetExtras.
Import Json Reviews ReviewSpec PageSpec.

Lemma ceilDiv_small a b : 0 < a <= b -> ceilDiv a b = 1.
Proof.
  intros H. unfold ceilDiv.
  assert (E : - a / b = -1).
  { symmetry. apply (Z.div_unique _ _ _ (b - a)); [left; lia | lia]. }
  lia.
Qed.

Lemma ceilDiv_step a b : 0 < b -> ceilDiv (a - b) b = ceilDiv a b - 1.
Proof.
  intros H. unfold ceilDiv.
  replace (- (a - b)) with (- a + 1 * b) by lia.
  rewrite Z.div_add by lia. lia.
Qed.

Lemma ceilDiv_covers a b :
  0 < b -> 0 <= a -> (ceilDiv a b - 1) * b < a <= ceilDiv a b * b \/ a = 0.
Proof.
  intros Hb Ha. unfold ceilDiv.
  pose proof (Z.div_mod (- a) b ltac:(lia)) as Hdm.
  pose proof (Z.mod_pos_bound (- a) b Hb) as Hmod.
  destruct (Z.eq_dec a 0) as [->|Hne]; [by right|left]. nia.
Qed.

Lemma page_metadata s allReviews placeId options :
  0 < pageSizeOf options ->
  let response := getReviews (DetailsOk s) allReviews placeId options in
  let start := startIndexOf (pageToken options) in
  let size := pageSizeOf options in
  let total := Z.of_nat (length allReviews) in
  currentPageOf response = Some (start / size + 1)
  /\ totalPagesOf response = Some (ceilDiv total size)
  /\ Z.of_nat (length (results response)) = Z.max 0 (Z.min size (total - start)).
Proof.
  intros Hsize response start size total.
  split; [reflexivity|]. split; [reflexivity|].
  pose proof (startIndexOf_nonneg (pageToken options)) as Hstart.
  destruct (getReviews_page s allReviews placeId options Hsize) as (Hres & _).
  fold response start size in Hres. rewrite Hres.
  rewrite length_take, length_drop. unfold total. lia.
Qed.

Lemma followPages_numbered s allReviews placeId fuel options k :
  0 < pageSizeOf options -> 0 <= k ->
  startIndexOf (pageToken options) = k * pageSizeOf options ->
  (length allReviews - Z.to_nat (startIndexOf (pageToken options)) < fuel)%nat ->
  let size := pageSizeOf options in
  let total := Z.of_nat (length allReviews) in
  exists pages,
    followPages fuel (DetailsOk s) allReviews placeId options = Some pages
    /\ map currentPageOf pages = numbering (k + 1) (length pages)
    /\ Forall (fun p => totalPagesOf p = Some (ceilDiv total size)) pages
    /\ Z.of_nat (length pages) = Z.max 1 (ceilDiv (total - k * size) size)
    /\ Forall (fun p => Z.of_nat (length (results p)) <= size) pages
    /\ (forall earlier p later,
          pages = earlier ++ p :: later -> later <> [] ->
          Z.of_nat (length (results p)) = size).
Proof.
  intros Hsize. revert options k Hsize.
  induction fuel as [|fuel IH]; intros options k Hsize Hk Hstart Hfuel;
    [lia|].
  intros size total.
  destruct (getReviews_page s allReviews placeId options Hsize)
    as (_ & Hmore & Htok).
  destruct (page_metadata s allReviews placeId options Hsize)
    as (Hcur & Htot & Hlen).
  cbn [followPages]. cbv zeta. rewrite Htok, Hmore.
  fold size total in Hcur, Htot, Hlen |- *.
  rewrite Hstart in Hcur, Hlen, Hfuel |- *. fold size in Hcur, Hlen, Hfuel |- *.
  rewrite Z.div_mul in Hcur by lia.
  destruct (k * size + size <? total) eqn:E.
  - apply Z.ltb_lt in E.
    set (next := withPageToken options
                   (Some (Document (offsetToken (k * size + size) placeId
                      total (optMinimumRating options))))).
    assert (Hnext : startIndexOf (pageToken next) = (k + 1) * pageSizeOf next).
    { unfold next. cbn [withPageToken pageToken].
      rewrite startIndexOf_offsetToken by lia.
      change (pageSizeOf (withPageToken options _)) with size. lia. }
    destruct (IH next (k + 1)) as (pages & Hrun & Hnum & Htots & Hcount & Hsizes & Hfull).
    { exact Hsize. }
    { lia. }
    { exact Hnext. }
    { rewrite Hnext. change (pageSizeOf next) with size. lia. }
    change (pageSizeOf next) with size in Hnum, Htots, Hcount, Hsizes, Hfull.
    fold total in Htots, Hcount.
    rewrite Hrun. eexists. split; [reflexivity|].
    cbn [map length numbering]. rewrite Hcur, Hnum.
    split; [by replace (k + 1 + 1) with (k + 1 + 1) by lia|].
    split; [by constructor|].
    split.
    { rewrite Nat2Z.inj_succ, Hcount.
      replace (total - (k + 1) * size) with (total - k * size - size) by lia.
      rewrite ceilDiv_step by lia.
      destruct (ceilDiv_covers (total - k * size) size) as [H|H]; nia. }
    split; [constructor; [lia|done]|].
    intros earlier p later Hpages Hlater.
    destruct earlier as [|first earlier];
      rewrite ?app_nil_l, <- ?app_comm_cons in Hpages;
      injection Hpages as <- Hrest.
    + refine (eq_trans Hlen _). unfold size in *. lia.
    + by eapply Hfull.
  - apply Z.ltb_ge in E. eexists. split; [reflexivity|].
    cbn [map length numbering]. rewrite Hcur.
    split; [done|]. split; [by repeat constructor|].
    split.
    { destruct (Z.le_gt_cases total (k * size)) as [Hle|Hgt].
      - assert (ceilDiv (total - k * size) size <= 0).
        { unfold ceilDiv.
          assert (0 <= - (total - k * size) / size)
            by (apply Z.div_pos; lia). lia. }
        lia.
      - rewrite ceilDiv_small by lia. lia. }
    split; [repeat constructor; lia|].
    intros earlier p later Hpages Hlater.
    destruct earlier as [|? [|? ?]];
      rewrite ?app_nil_l, <- ?app_comm_cons in Hpages;
      injection Hpages as ? Hrest; [by subst later|done|done].
Qed.

End OffsetExtras.

(** X7: page numbers of the standard mode are consistent with the pages
    a client receives. Over a fixed list and with a page size that is a
    positive whole number (a fractional size is not covered), a client
    that starts without a cursor and follows it to the end receives
    the pages numbered 1, 2, 3, ... in order; every page reports
    ceil(total / pageSize) as totalPages, and that is the number of pages
    received unless the list is empty, when one empty page is received;
    no page is longer than the page size and every page before the last
    is exactly that long. *)
Theorem X7_page_numbers_match_the_pages
    (s : Reviews.PlaceSummary) (allReviews : list Reviews.Review)
    (placeId : string) (options : Reviews.ReviewOptions) (fuel : nat) :
  0 < Reviews.pageSizeOf options ->
  (length allReviews < fuel)%nat ->
  let size := Reviews.pageSizeOf options in
  let total := Z.of_nat (length allReviews) in
  exists pages,
    ReviewSpec.followPages fuel (Reviews.DetailsOk s) allReviews placeId
      (ReviewSpec.withPageToken options None) = Some pages
    /\ map PageSpec.currentPageOf pages = PageSpec.numbering 1 (length pages)
    /\ Forall (fun p => PageSpec.totalPagesOf p
                        = Some (Reviews.ceilDiv total size)) pages
    /\ Z.of_nat (length pages) = Z.max 1 (Reviews.ceilDiv total size)
    /\ Forall (fun p => Z.of_nat (length (Reviews.results p)) <= size) pages
    /\ (forall earlier p later,
          pages = earlier ++ p :: later -> later <> [] ->
          Z.of_nat (length (Reviews.results p)) = size).
Proof.
  intros Hsize Hfuel size total.
  destruct (followPages_numbered s allReviews placeId fuel
              (ReviewSpec.withPageToken options None) 0)
    as (pages & H1 & H2 & H3 & H4 & H5 & H6); try done.
  - simpl. lia.
  - exists pages. split; [exact H1|]. split; [exact H2|]. split; [exact H3|].
    split; [|split; [exact H5|exact H6]].
    rewrite H4. f_equal. f_equal. unfold total.
    change (Reviews.pageSizeOf (ReviewSpec.withPageToken options None)) with size.
    lia.
Qed.

(** The X7 theorem on four reviews and pages of three: two pages,
    numbered 1 and 2. *)
Lemma X7_witness_two_pages :
  exists pages,
    ReviewSpec.followPages 5 (Reviews.DetailsOk DemoReviews.place)
      [DemoReviews.ann; DemoReviews.bob; DemoReviews.cyd; DemoReviews.annAgain]
      "place"
      (ReviewSpec.withPageToken (DemoReviews.options (Some 3) None None) None)
    = Some pages
    /\ map PageSpec.currentPageOf pages = PageSpec.numbering 1 (length pages).
Proof.
  destruct (X7_page_numbers_match_the_pages DemoReviews.place
              [DemoReviews.ann; DemoReviews.bob; DemoReviews.cyd; DemoReviews.annAgain]
              "place" (DemoReviews.options (Some 3) None None) 5)
    as (pages & H1 & H2 & _).
  - reflexivity.
  - simpl. lia.
  - exists pages. split; [exact H1|exact H2].
Defined.

(** A page of the standard mode holds at most [pageSize] reviews, all of
    them from the list it is cut from. *)
Lemma getReviews_bounds (d : Reviews.PlaceDetails)
    (allReviews : list Reviews.Review) (placeId : string)
    (options : Reviews.ReviewOptions) :
  0 < Reviews.pageSizeOf options ->
  let response := Reviews.getReviews d allReviews placeId options in
  Z.of_nat (length (Reviews.results response)) <= Reviews.pageSizeOf options
  /\ forall r, r ∈ Reviews.results response -> r ∈ allReviews.
Proof.
  intros Hsize response. destruct d as [s|e].
  - destruct (getReviews_page s allReviews placeId options Hsize)
      as (Hres & _). fold response in Hres. rewrite Hres. split.
    + rewrite length_take. lia.
    + intros r Hr. by apply subseteq_take, subseteq_drop in Hr.
  - simpl. split; [lia|]. by intros r H%elem_of_nil.
Qed.

(** X8: a cursor of the standard mode is nothing but an offset. Whatever
    token is sent, the page is the part of the list from the token's
    usable startIndex (else from 0), one page long at most; a cursor at or
    past the end of the list gives an empty page that announces nothing
    more and hands out no token; and a token handed out for another place,
    another list or another rating filter is honoured like any other: the
    page starts where that other page ended. *)
Theorem X8_cursor_is_only_an_offset
    (s : Reviews.PlaceSummary) (allReviews : list Reviews.Review)
    (placeId : string) (options : Reviews.ReviewOptions)
    (token : Json.Decoded) :
  0 < Reviews.pageSizeOf options ->
  let size := Reviews.pageSizeOf options in
  let start := Reviews.startIndexOf (Some token) in
  let response :=
    Reviews.getReviews (Reviews.DetailsOk s) allReviews placeId
      (ReviewSpec.withPageToken options (Some token)) in
  Reviews.results response
    = take (Z.to_nat size) (drop (Z.to_nat start) allReviews)
  /\ (Z.of_nat (length allReviews) <= start ->
      Reviews.results response = []
      /\ ReviewSpec.saysMore response = false
      /\ ReviewSpec.emittedToken response = None)
  /\ (forall s' otherReviews otherPlace otherOptions t,
        0 < Reviews.pageSizeOf otherOptions ->
        ReviewSpec.emittedToken
          (Reviews.getReviews (Reviews.DetailsOk s') otherReviews otherPlace
             otherOptions) = Some t ->
        token = Json.Document t ->
        start = Reviews.startIndexOf (Reviews.pageToken otherOptions)
                + Reviews.pageSizeOf otherOptions).
Proof.
  intros Hsize size start response.
  pose proof (startIndexOf_nonneg (Some token)) as Hstart.
  destruct (getReviews_page s allReviews placeId
              (ReviewSpec.withPageToken options (Some token)) Hsize)
    as (Hres & Hmore & Htok).
  fold response in Hres, Hmore, Htok.
  change (Reviews.pageSizeOf (ReviewSpec.withPageToken options (Some token)))
    with size in Hres, Hmore, Htok.
  change (Reviews.startIndexOf
            (Reviews.pageToken (ReviewSpec.withPageToken options (Some token))))
    with start in Hres, Hmore, Htok.
  split; [exact Hres|]. split.
  - intros Hpast.
    assert (Hno : ReviewSpec.saysMore response = false).
    { rewrite Hmore. apply Z.ltb_ge. lia. }
    split; [|split; [exact Hno|by rewrite Htok, Hno]].
    rewrite Hres, drop_ge by lia. apply take_nil.
  - intros s' otherReviews otherPlace otherOptions t Hother Ht ->.
    destruct (getReviews_page s' otherReviews otherPlace otherOptions Hother)
      as (_ & _ & Hemit).
    rewrite Hemit in Ht. revert Ht.
    destruct (ReviewSpec.saysMore (Reviews.getReviews (Reviews.DetailsOk s') _ _ _));
      [|done].
    intros [= <-].
    unfold start. apply startIndexOf_offsetToken.
    pose proof (startIndexOf_nonneg (Reviews.pageToken otherOptions)). lia.
Qed.

(** The X8 theorem on a cursor far past the end of a list of two. *)
Lemma X8_witness_cursor_past_the_end :
  Reviews.results
    (Reviews.getReviews (Reviews.DetailsOk DemoReviews.place)
       [DemoReviews.ann; DemoReviews.bob] "place"
       (ReviewSpec.withPageToken (DemoReviews.options None None None)
          (Some (Json.Document
                   (Json.JObject [("startIndex", Json.JNumber 600)]))))) = [].
Proof.
  apply (X8_cursor_is_only_an_offset DemoReviews.place
           [DemoReviews.ann; DemoReviews.bob] "place"
           (DemoReviews.options None None None)
           (Json.Document (Json.JObject [("startIndex", Json.JNumber 600)]))).
  - reflexivity.
  - vm_compute. discriminate.
Defined.
(** ** Further properties of the chunked mode *)

Section ChunkExtras.
Import JsString Json Reviews ReviewSpec ChunkSpec PageSpec.
Variable coerceToNumber : json -> option Z.
Variable dateGetTime : string -> option Z.

Local Abbreviation chunked := (getReviewsChunked coerceToNumber dateGetTime).
Local Abbreviation collect := (collectUnique coerceToNumber).
Local Abbreviation below := (belowMinimum coerceToNumber).
Local Abbreviation chain := (chunkedChain coerceToNumber dateGetTime).
Local Abbreviation answerOf := (answer coerceToNumber dateGetTime).
Local Abbreviation optionsOf := (chainOptions coerceToNumber dateGetTime).
Local Abbreviation sortOf := (currentSortMethodOf coerceToNumber).

(** The loop that fills a page stops at the page size, lets no review
    below the minimum through, and leaves the page short only when every
    fetched review is below the minimum or has its key in the set. *)
Lemma collectUnique_bounds size minimum fetched uniqueReviews ids :
  let run := collect size minimum fetched uniqueReviews ids in
  (Z.of_nat (length uniqueReviews) < size ->
   Z.of_nat (length (fst run)) <= size)
  /\ (forall r, r ∈ fst run -> r ∈ uniqueReviews \/ below minimum r = false)
  /\ (Z.of_nat (length (fst run)) < size ->
      forall r, r ∈ fetched ->
        below minimum r = true \/ hasKey (snd run) (reviewKey r) = true).
Proof.
  revert uniqueReviews ids.
  induction fetched as [|review rest IH]; intros uniqueReviews ids; simpl.
  { split; [lia|]. split; [by left|]. by intros _ r H%elem_of_nil. }
  assert (Hkeep : forall acc ids' k,
            hasKey ids' k = true ->
            hasKey (snd (collect size minimum rest acc ids')) k = true).
  { intros acc ids' k Hk.
    destruct (collectUnique_spec coerceToNumber size minimum rest acc ids')
      as (added & _ & _ & _ & Hids & _).
    by rewrite Hids, Hk. }
  destruct (setHas ids (JString (reviewKey review))) eqn:Hseen.
  { destruct (IH uniqueReviews ids) as (Hlen & Hmin & Hshort).
    split; [done|]. split; [done|].
    intros Hlt r [->|Hr]%elem_of_cons; [|by apply Hshort].
    right. by apply Hkeep. }
  destruct (below minimum review) eqn:Hlow.
  { destruct (IH uniqueReviews ids) as (Hlen & Hmin & Hshort).
    split; [done|]. split; [done|].
    intros Hlt r [->|Hr]%elem_of_cons; [by left|by apply Hshort]. }
  destruct (size <=? Z.of_nat (length (uniqueReviews ++ [review]))) eqn:Hfull;
    simpl.
  { apply Z.leb_le in Hfull. rewrite length_app in *. simpl in *.
    split; [lia|]. split; [|lia].
    intros r [Hr|Hr%list_elem_of_singleton]%elem_of_app; [by left|].
    subst r. by right. }
  apply Z.leb_gt in Hfull.
  destruct (IH (uniqueReviews ++ [review])
              (setAdd ids (JString (reviewKey review))))
    as (Hlen & Hmin & Hshort).
  split; [by intros _; apply Hlen|]. split.
  - intros r Hr. destruct (Hmin r Hr) as [Hin|Hok]; [|by right].
    apply elem_of_app in Hin as [Hin|Hin%list_elem_of_singleton];
      [by left|]. subst r. by right.
  - intros Hlt r [->|Hr]%elem_of_cons; [|by apply Hshort].
    right. apply Hkeep. rewrite hasKey_setAdd. simpl.
    by rewrite String.eqb_refl, orb_true_r.
Qed.

(** A page holds at most [pageSize] reviews, none of them rated below the
    minimum in force. *)
Lemma chunked_bounds details api placeId options :
  0 < pageSizeOf options ->
  let response := chunked details api placeId options in
  Z.of_nat (length (results response)) <= pageSizeOf options
  /\ forall r, r ∈ results response ->
       below (minimumInForce options) r = false.
Proof.
  intros Hsize response.
  destruct (chunked_cases coerceToNumber dateGetTime details api placeId options)
    as [[Hres _]|(s & methods & fetchedAfter & _ & _ & _ & Hpage)].
  { fold response in Hres. rewrite Hres. simpl.
    split; [lia|]. by intros r H%elem_of_nil. }
  simpl in Hpage. destruct Hpage as (Hres & _).
  fold response in Hres. rewrite Hres.
  destruct (collectUnique_bounds (pageSizeOf options)
              (minimumRating (decodeChunkToken options))
              (results (fetchReviewsWithSort (api (hd EmptyString methods))))
              [] (reviewIds (decodeChunkToken options)))
    as (Hlen & Hmin & _).
  split; [apply Hlen; simpl; lia|].
  intros r Hr. by destruct (Hmin r Hr) as [H%elem_of_nil|H].
Qed.

(** X9: a page of the chunked mode, for a page size that is a positive
    whole number (a fractional size is not covered). It holds at most
    [pageSize] reviews,
    all of them taken, in order, from the one batch fetched for the sort
    order of the call, and none of them rated below the minimum in force.
    A page that is produced and is shorter than the page size holds back
    nothing: every fetched review that passes the minimum is on the page
    or was already listed in the token. *)
Theorem X9_chunked_page_is_a_filtered_batch
    (details : PlaceDetails) (api : string -> ReviewsReply)
    (placeId : string) (options : ReviewOptions) :
  0 < pageSizeOf options ->
  let response := chunked details api placeId options in
  let fetched := fetchedFor coerceToNumber api options in
  let minimum := minimumInForce options in
  Z.of_nat (length (results response)) <= pageSizeOf options
  /\ results response `sublist_of` fetched
  /\ (forall r, r ∈ results response -> below minimum r = false)
  /\ (pagination response <> None ->
      Z.of_nat (length (results response)) < pageSizeOf options ->
      forall r, r ∈ fetched -> below minimum r = false ->
        hasKey (seenKeys (pageToken options)) (reviewKey r) = true
        \/ keyAmong (results response) (reviewKey r) = true).
Proof.
  intros Hsize response fetched minimum.
  destruct (chunked_cases coerceToNumber dateGetTime details api placeId options)
    as [[Hres Hpg]|(s & methods & fetchedAfter & _ & Hmethods & _ & Hpage)].
  { fold response in Hres, Hpg. rewrite Hres. simpl.
    split; [lia|]. split; [apply sublist_nil_l|].
    split; [by intros r H%elem_of_nil|]. done. }
  simpl in Hpage. destruct Hpage as (Hres & _ & _ & _).
  fold response in Hres.
  assert (Hfetched : results (fetchReviewsWithSort (api (hd EmptyString methods)))
                     = fetched).
  { unfold fetched, fetchedFor, currentSortMethodOf. by rewrite Hmethods. }
  rewrite Hfetched in Hres.
  change (minimumRating (decodeChunkToken options)) with minimum in Hres.
  destruct (collectUnique_bounds (pageSizeOf options) minimum fetched []
              (reviewIds (decodeChunkToken options)))
    as (Hlen & Hmin & Hshort).
  destruct (collectUnique_spec coerceToNumber (pageSizeOf options) minimum
              fetched [] (reviewIds (decodeChunkToken options)))
    as (added & Hadded & _ & _ & Hids & Hsub).
  simpl in Hlen, Hmin, Hshort. rewrite <- Hres in Hlen, Hmin, Hshort.
  rewrite <- Hres in Hadded. simpl in Hadded. subst added.
  split; [apply Hlen; simpl; lia|]. split; [done|]. split.
  - intros r Hr. by destruct (Hmin r Hr) as [H%elem_of_nil|H].
  - intros _ Hlt r Hr Hok.
    destruct (Hshort Hlt r Hr) as [Hlow|Hkey]; [congruence|].
    rewrite Hids, reviewIds_decode in Hkey.
    by apply orb_true_iff in Hkey.
Qed.

(** What the chunked mode reads back from a token it wrote. *)
Lemma decode_chunkToken options current fetched ids uniqueReviews minimum :
  let td := decodeChunkToken
              (withPageToken options
                 (Some (Document (chunkToken dateGetTime current fetched ids
                                    uniqueReviews minimum)))) in
  minimumRating td = minimum
  /\ fetchedMethods td = orElse (Some fetched) (JArray []).
Proof. by destruct minimum. Qed.

(** The listed sort orders are read from the token alone. *)
Lemma fetchedBefore_token options options' token :
  fetchedBefore (withPageToken options token)
  = fetchedBefore (withPageToken options' token).
Proof.
  unfold fetchedBefore, decodeChunkToken. simpl.
  destruct token as [[|parsedToken]|]; try reflexivity.
  by destruct (_ : Outcome TokenData).
Qed.

(** One step of the rotation: with the first [k] sort orders listed, the
    call uses the next one and lists it as well; once all three are
    listed, it uses the first again. *)
Lemma rotation_step (td : TokenData) (k : nat) :
  (k <= 3)%nat ->
  fetchedMethods td = listed k ->
  exists methods,
    nextSortMethodsOf coerceToNumber td = Done methods
    /\ hd EmptyString methods = rotation k
    /\ ((k < 2)%nat -> (1 <? Z.of_nat (length methods)) = true)
    /\ exists already,
         includesMethod (fetchedMethods td) (rotation k) = Done already
         /\ (if already then Done (fetchedMethods td)
             else pushMethod (fetchedMethods td) (rotation k))
            = Done (listed (Nat.min (S k) 3)).
Proof.
  intros Hk Hlisted. unfold nextSortMethodsOf. rewrite Hlisted.
  destruct k as [|[|[|[|k]]]]; [| | | |lia].
  - exists allSortMethods.
    split; [done|]. split; [done|]. split; [done|]. by exists false.
  - exists ["newest"; "highest_rating"].
    split; [done|]. split; [done|]. split; [done|]. by exists false.
  - exists ["highest_rating"].
    split; [done|]. split; [done|]. split; [lia|]. by exists false.
  - exists ["most_relevant"].
    split; [done|]. split; [done|]. split; [lia|]. by exists true.
Qed.

(** The calls, options and responses of a chain go together. *)
Lemma chain_lookup (calls : list Call) token k o :
  optionsOf calls token !! k = Some o ->
  exists c, calls !! k = Some c
            /\ o = withPageToken (callOptions c) (pageToken o)
            /\ chain calls token !! k = Some (answerOf c (pageToken o)).
Proof.
  revert token k; induction calls as [|c rest IH]; intros token k; [done|].
  rewrite chain_cons. simpl. destruct k as [|k]; simpl.
  - intros [= <-]. by exists c.
  - destruct (emittedToken (answerOf c token)) as [t|]; [|done].
    apply IH.
Qed.

(** From a call whose token lists the first [min j 3] sort orders, the
    [k]-th call onwards finds the first [min (j + k) 3] listed. *)
Lemma chain_listed (calls : list Call) token (j k : nat) o :
  (forall options, fetchedBefore (withPageToken options token)
                   = listed (Nat.min j 3)) ->
  optionsOf calls token !! k = Some o ->
  fetchedBefore o = listed (Nat.min (j + k) 3).
Proof.
  revert token j k; induction calls as [|c rest IH]; intros token j k Hj;
    [done|].
  simpl. destruct k as [|k]; simpl.
  { intros [= <-]. by rewrite Nat.add_0_r. }
  destruct (emittedToken (answerOf c token)) as [t|] eqn:Ht; [|done].
  intros Ho. replace (j + S k)%nat with (S j + k)%nat by lia.
  apply (IH (Some (Document t))); [|done].
  intros options.
  unfold answer in Ht.
  destruct (chunked_cases coerceToNumber dateGetTime (callDetails c) (callApi c)
              (callPlace c) (withPageToken (callOptions c) token))
    as [[_ Hpg]|(s & methods & fetchedAfter & _ & Hmethods & Hafter & Hpage)].
  { unfold emittedToken in Ht. by rewrite Hpg in Ht. }
  simpl in Hpage. destruct Hpage as (_ & _ & _ & Htok).
  destruct (rotation_step
              (decodeChunkToken (withPageToken (callOptions c) token))
              (Nat.min j 3) ltac:(lia) (Hj (callOptions c)))
    as (methods' & Hmethods' & Hhd & _ & already' & Hinc' & Hafter').
  rewrite Hmethods in Hmethods'. injection Hmethods' as <-.
  destruct Hafter as (already & Hinc & Hafter).
  rewrite Hhd in Hinc, Hafter. rewrite Hinc in Hinc'. injection Hinc' as <-.
  rewrite Hafter in Hafter'. injection Hafter' as ->.
  rewrite Ht in Htok. destruct (_ || _); [|done]. injection Htok as ->.
  unfold fetchedBefore.
  rewrite (proj2 (decode_chunkToken _ _ _ _ _ _)).
  replace (Nat.min (S j) 3) with (Nat.min (S (Nat.min j 3)) 3) by lia.
  reflexivity.
Qed.

(** X10: the sort orders of a chain that starts without a token. The
    first three calls fetch by relevance, by date and by rating, in this
    order, and every later call by relevance again; each call finds listed
    in its token the orders used before it; its page comes from the batch
    of its own order; and the first two pages always announce more. *)
Theorem X10_sort_orders_rotate (calls : list Call) (k : nat)
    (o : ReviewOptions) :
  optionsOf calls None !! k = Some o ->
  sortOf o = rotation k
  /\ fetchedBefore o = listed (Nat.min k 3)
  /\ exists c,
       calls !! k = Some c
       /\ chain calls None !! k = Some (answerOf c (pageToken o))
       /\ results (answerOf c (pageToken o))
            `sublist_of` results (fetchReviewsWithSort (callApi c (rotation k)))
       /\ ((k < 2)%nat -> pagination (answerOf c (pageToken o)) <> None ->
           saysMore (answerOf c (pageToken o)) = true).
Proof.
  intros Ho.
  assert (Hlisted : fetchedBefore o = listed (Nat.min k 3)).
  { by apply (chain_listed calls None 0 k o). }
  destruct (rotation_step (decodeChunkToken o) (Nat.min k 3) ltac:(lia) Hlisted)
    as (methods & Hmethods & Hhd & Hmany & _).
  assert (Hrot : rotation (Nat.min k 3) = rotation k).
  { destruct k as [|[|[|k]]]; try reflexivity.
    replace (Nat.min (S (S (S k))) 3) with 3%nat by lia.
    unfold rotation. rewrite (nth_overflow _ _ (n := S (S (S k)))); [done|].
    simpl. lia. }
  assert (Hsort : sortOf o = rotation k).
  { unfold currentSortMethodOf. by rewrite Hmethods, Hhd. }
  split; [done|]. split; [done|].
  destruct (chain_lookup calls None k o Ho) as (c & Hc & Hopts & Hresp).
  exists c. split; [done|]. split; [done|].
  unfold answer. rewrite <- Hopts.
  destruct (chunked_cases coerceToNumber dateGetTime (callDetails c) (callApi c)
              (callPlace c) o)
    as [[Hres Hpg]|(s & methods' & fetchedAfter & _ & Hmethods' & _ & Hpage)].
  { rewrite Hres. split; [apply sublist_nil_l|]. by intros _ []. }
  rewrite Hmethods in Hmethods'. injection Hmethods' as <-.
  simpl in Hpage. destruct Hpage as (Hres & Hmore & _ & _).
  rewrite Hhd, Hrot in Hres. split.
  - rewrite Hres.
    destruct (collectUnique_spec coerceToNumber (pageSizeOf o)
                (minimumRating (decodeChunkToken o))
                (results (fetchReviewsWithSort (callApi c (rotation k)))) []
                (reviewIds (decodeChunkToken o)))
      as (added & -> & _ & _ & _ & Hsub). done.
  - intros Hk _. rewrite Hmore, Hmany; [done|lia].
Qed.

(** The minimum rating a token carries is the one that was in force when
    it was written. *)
Lemma minimum_step (c : Call) token t options :
  emittedToken (answerOf c token) = Some t ->
  minimumInForce (withPageToken options (Some (Document t)))
  = minimumInForce (withPageToken (callOptions c) token).
Proof.
  unfold answer. intros Ht.
  destruct (chunked_cases coerceToNumber dateGetTime (callDetails c) (callApi c)
              (callPlace c) (withPageToken (callOptions c) token))
    as [[_ Hpg]|(s & methods & fetchedAfter & _ & _ & _ & Hpage)].
  { unfold emittedToken in Ht. by rewrite Hpg in Ht. }
  simpl in Hpage. destruct Hpage as (_ & _ & _ & Htok).
  rewrite Ht in Htok. destruct (_ || _); [|done]. injection Htok as ->.
  unfold minimumInForce. by rewrite (proj1 (decode_chunkToken _ _ _ _ _ _)).
Qed.

Lemma chain_minimum (c : Call) rest token k o :
  optionsOf (c :: rest) token !! k = Some o ->
  minimumInForce o = minimumInForce (withPageToken (callOptions c) token).
Proof.
  revert c token k; induction rest as [|c' rest IH]; intros c token k;
    simpl; (destruct k as [|k]; simpl; [by intros [= <-]|]);
    destruct (emittedToken (answerOf c token)) as [t|] eqn:Ht; try done.
  intros Ho. rewrite (IH c' (Some (Document t)) k Ho).
  by apply minimum_step.
Qed.

(** X11: the rating filter of a chain is the one of its first call. The
    minimum rating of the first request is written into every token, and
    a call with a token filters by the token's minimum, not by the one of
    its own request: along a chain that starts without a token every call
    has the first request's minimum in force (none, if the first request
    had none), and every review handed out is rated at least that. *)
Theorem X11_first_call_fixes_the_rating_filter
    (c : Call) (rest : list Call) (k : nat) (o : ReviewOptions) :
  optionsOf (c :: rest) None !! k = Some o ->
  minimumInForce o = JNumber <$> optMinimumRating (callOptions c)
  /\ forall response r m,
       chain (c :: rest) None !! k = Some response ->
       r ∈ results response ->
       optMinimumRating (callOptions c) = Some m ->
       m <= rating r.
Proof.
  intros Ho.
  assert (Hmin : minimumInForce o = JNumber <$> optMinimumRating (callOptions c)).
  { by rewrite (chain_minimum c rest None k o Ho). }
  split; [done|]. intros response r m Hresp Hr Hm.
  destruct (chain_lookup (c :: rest) None k o Ho) as (ck & _ & Hopts & Hresp').
  rewrite Hresp' in Hresp. injection Hresp as <-.
  unfold answer in Hr. rewrite <- Hopts in Hr.
  destruct (chunked_cases coerceToNumber dateGetTime (callDetails ck)
              (callApi ck) (callPlace ck) o)
    as [[Hres _]|(s & methods & fetchedAfter & _ & _ & _ & Hpage)].
  { rewrite Hres in Hr. by apply elem_of_nil in Hr. }
  simpl in Hpage. destruct Hpage as (Hres & _). rewrite Hres in Hr.
  destruct (collectUnique_bounds (pageSizeOf o) (minimumRating (decodeChunkToken o))
              (results (fetchReviewsWithSort (callApi ck (hd EmptyString methods))))
              [] (reviewIds (decodeChunkToken o)))
    as (_ & Hpass & _).
  destruct (Hpass r Hr) as [Hnil%elem_of_nil|Hok]; [done|].
  change (minimumRating (decodeChunkToken o)) with (minimumInForce o) in Hok.
  rewrite Hmin, Hm in Hok. simpl in Hok. by apply Z.ltb_ge in Hok.
Qed.

End ChunkExtras.

(** The X9 theorem on a call for six reviews against an endpoint that
    knows three, one of them rated below the minimum asked for. *)
Lemma X9_witness_three_fetched :
  Z.of_nat (length (Reviews.results
    (Reviews.getReviewsChunked DemoReviews.noCoercion DemoReviews.noDate
       (Reviews.DetailsOk DemoReviews.place)
       (DemoReviews.always [DemoReviews.ann; DemoReviews.bob; DemoReviews.cyd])
       "place" (DemoReviews.options None (Some 4) None)))) <= 6.
Proof.
  apply (X9_chunked_page_is_a_filtered_batch
           DemoReviews.noCoercion DemoReviews.noDate
           (Reviews.DetailsOk DemoReviews.place)
           (DemoReviews.always [DemoReviews.ann; DemoReviews.bob; DemoReviews.cyd])
           "place" (DemoReviews.options None (Some 4) None)).
  reflexivity.
Defined.

(** The X10 theorem on the third call of [DemoChunks.threeCalls]. *)
Lemma X10_witness_third_call :
  ChunkSpec.currentSortMethodOf DemoReviews.noCoercion
    DemoChunks.thirdCallOptions = "highest_rating".
Proof.
  apply (X10_sort_orders_rotate DemoReviews.noCoercion DemoReviews.noDate
           [DemoChunks.annOnly; DemoChunks.annOnly; DemoChunks.annOnly] 2
           DemoChunks.thirdCallOptions).
  vm_compute. reflexivity.
Defined.

(** The X11 theorem on a second call that asks for no minimum after a
    first call that asked for 4. *)
Lemma X11_witness_lax_second_call :
  PageSpec.minimumInForce DemoFilter.secondCallOptions
  = Some (Json.JNumber 4).
Proof.
  apply (X11_first_call_fixes_the_rating_filter
           DemoReviews.noCoercion DemoReviews.noDate
           DemoFilter.pickyCall [DemoFilter.laxCall] 1
           DemoFilter.secondCallOptions).
  vm_compute. reflexivity.
Defined.
(** ** The reviews provider: caches and upstream traffic *)

Section ReviewsProviderFacts.
Import JsString Json Reviews ReviewSpec GoogleReviewsProvider ProviderSpec.
Variable apiKey : string.
Variable clock : nat -> Z.

Local Abbreviation details := (getPlaceDetails apiKey clock).
Local Abbreviation listing := (getReviewsForPlace apiKey clock).

Lemma sent_app (st st' : State) new :
  traffic st' = traffic st ++ new -> sent st st' = new.
Proof. unfold sent. intros ->. by rewrite drop_app_length. Qed.

(** A usable entry answers the call: the clock is read once and nothing
    else happens. *)
Lemma details_hit up placeId lang st entry :
  detailsCache st !! detailsKey placeId lang = Some entry ->
  usableAt (clock (reads st)) (storedAt entry) ->
  details up placeId lang st = (DetailsOk (cachedSummary entry), later 1 st).
Proof.
  intros Hentry Hfresh. unfold getPlaceDetails, unexpired, seq, ret, dateNow.
  rewrite Hentry. simpl.
  apply Z.ltb_lt in Hfresh. by rewrite Hfresh.
Qed.

Ltac provider_step :=
  unfold seq, ret, dateNow, axiosGet, setDetails, setReviews; simpl.

(** Every way through [getPlaceDetails]. *)
Lemma details_run up placeId lang st :
  let run := details up placeId lang st in
  let cacheKey := detailsKey placeId lang in
  exists new,
    traffic (snd run) = traffic st ++ new
    /\ (length new <= 2)%nat
    /\ Forall (fun r => isDetailsRequest r /\ place_id r = placeId
                        /\ key r = apiKey /\ reqLanguage r = lang) new
    /\ reviewsCache (snd run) = reviewsCache st
    /\ (apiKey = EmptyString -> new = [])
    /\ match fst run with
       | DetailsFailed e =>
           detailsCache (snd run) = detailsCache st
       | DetailsOk s =>
           exists entry,
             detailsCache (snd run) !! cacheKey = Some entry
             /\ cachedSummary entry = s
             /\ (new = [] -> detailsCache (snd run) = detailsCache st)
             /\ (new <> [] ->
                 detailsCache (snd run) = <[cacheKey := entry]> (detailsCache st))
       end.
Proof.
  intros run cacheKey. unfold run, getPlaceDetails, unexpired.
  fold cacheKey.
  destruct (detailsCache st !! cacheKey) as [entry|] eqn:Hentry;
    provider_step.
  1: destruct (clock (reads st) - storedAt entry <? CACHE_EXPIRATION)
       eqn:Hfresh; simpl.
  1: { exists []. rewrite app_nil_r.
       repeat split; try done; try (simpl; lia).
       exists entry. by repeat split. }
  all: destruct (String.eqb apiKey EmptyString) eqn:Hkey; simpl;
    [exists []; rewrite app_nil_r; repeat split; try done; simpl; lia|];
    apply String.eqb_neq in Hkey;
    destruct (detailsOf up (detailsRequest apiKey placeId lang
                "name,rating,user_ratings_total,formatted_address"))
      as [e|status error_message basicResult]; simpl;
    [eexists [_]; split; [reflexivity|]; simpl;
     split; [lia|]; split; [by repeat constructor|]; done|];
    destruct (String.eqb status "OK"); simpl;
    [|eexists [_]; split; [reflexivity|]; simpl;
      split; [lia|]; split; [by repeat constructor|]; done];
    destruct (detailsOf up (detailsRequest apiKey placeId lang "url"))
      as [e|? ? detailsResult]; simpl;
    [eexists [_; _]; rewrite <- app_assoc; split; [reflexivity|]; simpl;
     split; [lia|]; split; [by repeat constructor|]; done|];
    destruct basicResult as [basic|]; simpl;
    [|eexists [_; _]; rewrite <- app_assoc; split; [reflexivity|]; simpl;
      split; [lia|]; split; [by repeat constructor|]; done];
    eexists [_; _]; rewrite <- app_assoc; split; [reflexivity|]; simpl;
    split; [lia|]; split; [by repeat constructor|]; split; [done|];
    split; [done|]; eexists; rewrite lookup_insert_eq;
    split; [reflexivity|]; split; [reflexivity|]; by split.
Qed.

(** Without a usable entry and without an API key the call fails before
    any request. *)
Lemma details_no_key up placeId lang st :
  apiKey = EmptyString ->
  noneUsable storedAt (detailsCache st !! detailsKey placeId lang)
    (clock (reads st)) ->
  fst (details up placeId lang st)
  = DetailsFailed {| code := "API_KEY_MISSING";
                     message := "Google Maps API key is not configured" |}.
Proof.
  intros -> Hnone. unfold getPlaceDetails, unexpired.
  destruct (detailsCache st !! detailsKey placeId lang) as [entry|] eqn:Hentry;
    provider_step; [|done].
  destruct (clock (reads st) - storedAt entry <? CACHE_EXPIRATION) eqn:Hfresh;
    [|done].
  apply Z.ltb_lt in Hfresh. by destruct (Hnone entry eq_refl).
Qed.

Lemma listing_hit up placeId lang minimum st entry :
  reviewsCache st !! reviewsKey placeId lang = Some entry ->
  usableAt (clock (reads st)) (timestamp entry) ->
  listing up placeId lang minimum st
  = (applyRatingFilter minimum (cachedReviews entry), later 1 st).
Proof.
  intros Hentry Hfresh. unfold getReviewsForPlace, unexpired, seq, ret, dateNow.
  rewrite Hentry. simpl.
  apply Z.ltb_lt in Hfresh. by rewrite Hfresh.
Qed.

(** Every way through [getReviewsForPlace]: the list is read from a
    usable entry, or the entry is refilled with three requests. *)
Lemma listing_run up placeId lang minimum st :
  let run := listing up placeId lang minimum st in
  let cacheKey := reviewsKey placeId lang in
  detailsCache (snd run) = detailsCache st
  /\ exists entry,
       reviewsCache (snd run) !! cacheKey = Some entry
       /\ fst run = applyRatingFilter minimum (cachedReviews entry)
       /\ ((reviewsCache st !! cacheKey = Some entry
            /\ usableAt (clock (reads st)) (timestamp entry)
            /\ snd run = later 1 st)
           \/ (noneUsable timestamp (reviewsCache st !! cacheKey)
                 (clock (reads st))
               /\ traffic (snd run) = traffic st ++ refill apiKey placeId lang
               /\ reviewsCache (snd run) = <[cacheKey := entry]> (reviewsCache st)
               /\ cachedReviews entry = combined apiKey up placeId lang
               /\ timestamp entry = clock (pred (reads (snd run))))).
Proof.
  intros run cacheKey. unfold run, getReviewsForPlace, unexpired.
  fold cacheKey.
  destruct (reviewsCache st !! cacheKey) as [entry|] eqn:Hentry;
    provider_step.
  1: destruct (clock (reads st) - timestamp entry <? CACHE_EXPIRATION)
       eqn:Hfresh; simpl.
  1: { split; [done|]. exists entry. split; [done|]. split; [done|].
       left. apply Z.ltb_lt in Hfresh. by repeat split. }
  all: split; [done|]; eexists; rewrite lookup_insert_eq;
    split; [reflexivity|]; split; [reflexivity|]; right; simpl;
    split; [|by rewrite <- !app_assoc].
  - intros e [= <-]. apply Z.ltb_ge in Hfresh. unfold usableAt. lia.
  - by intros e.
Qed.

(** X12: [getPlaceDetails] and its cache. A call sends at most two
    requests, both for the place and language asked for, and never touches
    the reviews cache. A usable entry answers the call without any request,
    API key or not; without an API key no request is ever sent, and without
    a usable entry either the call fails with [API_KEY_MISSING]. A failure
    leaves the cache as it was. A success leaves under the key an entry
    with the summary returned, and any later call that finds this entry
    less than an hour after its time stamp returns the same summary
    without a request, whatever the upstream would answer by then. *)
Theorem X12_place_details_are_cached_on_success
    (up : Upstream) (placeId lang : string) (st : State) :
  let run := details up placeId lang st in
  let cacheKey := detailsKey placeId lang in
  let new := sent st (snd run) in
  traffic (snd run) = traffic st ++ new
  /\ (length new <= 2)%nat
  /\ Forall (fun r => isDetailsRequest r /\ place_id r = placeId
                      /\ key r = apiKey /\ reqLanguage r = lang) new
  /\ reviewsCache (snd run) = reviewsCache st
  /\ (forall entry,
        detailsCache st !! cacheKey = Some entry ->
        usableAt (clock (reads st)) (storedAt entry) ->
        run = (DetailsOk (cachedSummary entry), later 1 st))
  /\ (apiKey = EmptyString ->
      new = [] /\ detailsCache (snd run) = detailsCache st
      /\ (noneUsable storedAt (detailsCache st !! cacheKey) (clock (reads st)) ->
          exists e, fst run = DetailsFailed e /\ code e = "API_KEY_MISSING"))
  /\ (forall e, fst run = DetailsFailed e ->
        detailsCache (snd run) = detailsCache st)
  /\ (forall s, fst run = DetailsOk s ->
        exists entry,
          detailsCache (snd run) !! cacheKey = Some entry
          /\ cachedSummary entry = s
          /\ forall up' st',
               detailsCache st' !! cacheKey = Some entry ->
               usableAt (clock (reads st')) (storedAt entry) ->
               details up' placeId lang st' = (DetailsOk s, later 1 st')).
Proof.
  intros run cacheKey new.
  destruct (details_run up placeId lang st)
    as (new' & Htraffic & Hlen & Hreqs & Hreviews & Hnokey & Hcache).
  fold run cacheKey in Htraffic, Hreviews, Hcache.
  assert (Hnew : new = new') by (by apply sent_app). rewrite Hnew.
  split; [done|]. split; [done|]. split; [done|]. split; [done|].
  split; [by intros entry; apply details_hit|]. split; [|split].
  - intros Hkey. split; [by apply Hnokey|]. split.
    + destruct (fst run); [|done].
      destruct Hcache as (entry & _ & _ & Hsame & _). by apply Hsame, Hnokey.
    + intros Hnone. eexists. split; [by apply details_no_key|done].
  - intros e He. by rewrite He in Hcache.
  - intros s Hs. rewrite Hs in Hcache.
    destruct Hcache as (entry & Hentry & <- & _).
    exists entry. split; [done|]. split; [done|].
    intros up' st' Hentry' Hfresh. by apply details_hit.
Qed.

(** X13: [isAvailable]. Without an API key the provider is unavailable
    and nothing is asked or read. With one, it is available exactly when
    [getPlaceDetails] succeeds for the probe place in English, at the cost
    of that call; so a usable cache entry for the probe place makes the
    provider available whatever the upstream answers. *)
Theorem X13_availability_is_a_details_probe (up : Upstream) (st : State) :
  let run := isAvailable apiKey clock up st in
  let probe := details up probePlace "en" st in
  (apiKey = EmptyString -> run = (false, st))
  /\ (apiKey <> EmptyString ->
      snd run = snd probe
      /\ (fst run = true <-> exists s, fst probe = DetailsOk s))
  /\ (apiKey <> EmptyString ->
      forall entry,
        detailsCache st !! detailsKey probePlace "en" = Some entry ->
        usableAt (clock (reads st)) (storedAt entry) ->
        run = (true, later 1 st))
  /\ (length (sent st (snd run)) <= 2)%nat.
Proof.
  intros run probe. unfold run, isAvailable.
  destruct (details_run up probePlace "en" st)
    as (new & Htraffic & Hlen & _).
  destruct (String.eqb apiKey EmptyString) eqn:Hkey.
  - apply String.eqb_eq in Hkey. split; [done|]. split; [done|].
    split; [done|]. unfold ret, sent. simpl. rewrite drop_all. simpl. lia.
  - apply String.eqb_neq in Hkey. split; [done|].
    unfold seq, ret. fold probe. fold probe in Htraffic.
    destruct probe as [d st'] eqn:Hprobe.
    simpl in *. split; [|split].
    + intros _. split; [done|]. destruct d; simpl; split; try done.
      * by eexists.
      * by intros [s Hs].
    + intros _ entry Hentry Hfresh.
      pose proof (details_hit up probePlace "en" st entry Hentry Hfresh) as Hhit.
      fold probe in Hhit. rewrite Hprobe in Hhit. by injection Hhit as -> ->.
    + by rewrite (sent_app st st' new Htraffic).
Qed.

(** X14: [getReviewsForPlace] and its cache. The details cache is never
    touched. The answer is the rating filter applied to the list the
    cache holds under the key after the call. That list was either read
    from a usable entry, without a request, or it has just been stored:
    then exactly three requests were sent, one per sort order in the
    order of the array literal, and the list is the deduplicated
    concatenation of the three replies, stored unfiltered. A later call
    that finds the entry less than an hour after its time stamp filters
    the same list by its own minimum, without a request. *)
Theorem X14_reviews_are_cached_unfiltered
    (up : Upstream) (placeId lang : string) (minimum : option Z) (st : State) :
  let run := listing up placeId lang minimum st in
  let cacheKey := reviewsKey placeId lang in
  let new := sent st (snd run) in
  detailsCache (snd run) = detailsCache st
  /\ (forall r m, r ∈ fst run -> minimum = Some m -> m <= rating r)
  /\ exists entry,
       reviewsCache (snd run) !! cacheKey = Some entry
       /\ fst run = applyRatingFilter minimum (cachedReviews entry)
       /\ ((new = [] /\ reviewsCache st !! cacheKey = Some entry
            /\ usableAt (clock (reads st)) (timestamp entry))
           \/ (new = refill apiKey placeId lang
               /\ noneUsable timestamp (reviewsCache st !! cacheKey)
                    (clock (reads st))
               /\ cachedReviews entry = combined apiKey up placeId lang
               /\ reviewsCache (snd run) = <[cacheKey := entry]> (reviewsCache st)))
       /\ forall up' minimum' st',
            reviewsCache st' !! cacheKey = Some entry ->
            usableAt (clock (reads st')) (timestamp entry) ->
            listing up' placeId lang minimum' st'
            = (applyRatingFilter minimum' (cachedReviews entry), later 1 st').
Proof.
  intros run cacheKey new.
  destruct (listing_run up placeId lang minimum st)
    as (Hdetails & entry & Hentry & Hanswer & Hhow).
  fold run cacheKey in Hdetails, Hentry, Hanswer, Hhow.
  split; [done|]. split.
  { intros r m Hr ->. rewrite Hanswer in Hr. simpl in Hr.
    by apply list_elem_of_filter in Hr as [Hr _]. }
  exists entry. split; [done|]. split; [done|]. split.
  - destruct Hhow as [(Hold & Hfresh & Hst)|(Hnone & Htraffic & Hset & Hlist & _)].
    + left. split; [|done]. unfold new. rewrite Hst. unfold sent. simpl.
      apply drop_all.
    + right. split; [by apply sent_app|done].
  - intros up' minimum' st' Hentry' Hfresh. by apply listing_hit.
Qed.

(** X15: an outage is remembered. When no usable entry exists and none of
    the three requests yields reviews, be it that they are rejected,
    answered with a status other than OK or answered without reviews, the
    empty list is stored like any other; for the next hour every call for the place answers with
    the empty list without asking the upstream again, even if the
    upstream would by then return reviews. *)
Theorem X15_an_outage_is_cached_for_an_hour
    (up : Upstream) (placeId lang : string) (minimum : option Z) (st : State) :
  noneUsable timestamp (reviewsCache st !! reviewsKey placeId lang)
    (clock (reads st)) ->
  (forall r, yieldsNothing (reviewsOf up r)) ->
  let run := listing up placeId lang minimum st in
  fst run = []
  /\ sent st (snd run) = refill apiKey placeId lang
  /\ forall up' minimum' st',
       reviewsCache st' !! reviewsKey placeId lang
       = reviewsCache (snd run) !! reviewsKey placeId lang ->
       usableAt (clock (reads st')) (clock (pred (reads (snd run)))) ->
       listing up' placeId lang minimum' st' = ([], later 1 st').
Proof.
  intros Hnone Hdown run.
  assert (Hempty : forall r, results (fetchReviewsWithSort (reviewsOf up r)) = []).
  { intros r. specialize (Hdown r).
    destruct (reviewsOf up r) as [e|status reviews]; simpl in *; [done|].
    destruct (String.eqb status "OK") eqn:Hstatus; simpl; [|done].
    apply String.eqb_eq in Hstatus.
    by destruct Hdown as [?|[->| ->]]. }
  destruct (listing_run up placeId lang minimum st)
    as (_ & entry & Hentry & Hanswer & Hhow).
  fold run in Hentry, Hanswer, Hhow.
  destruct Hhow as [(Hold & Hfresh & _)|(_ & Htraffic & _ & Hlist & Hstamp)].
  { by destruct (Hnone entry Hold). }
  assert (Hnil : cachedReviews entry = []).
  { rewrite Hlist. unfold combined. by rewrite !Hempty. }
  split; [|split].
  - rewrite Hanswer, Hnil. by destruct minimum.
  - by apply sent_app.
  - intros up' minimum' st' Hsame Hfresh.
    rewrite Hentry in Hsame. rewrite <- Hstamp in Hfresh.
    rewrite (listing_hit up' placeId lang minimum' st' entry Hsame Hfresh), Hnil.
    by destruct minimum'.
Qed.

(** [getPlaceDetails] reads the details cache and the clock, and nothing
    else of the state. *)
Lemma details_frame up placeId lang st st' :
  detailsCache st' = detailsCache st -> reads st' = reads st ->
  fst (details up placeId lang st') = fst (details up placeId lang st).
Proof.
  intros Hcache Hreads. unfold getPlaceDetails, unexpired.
  rewrite Hcache.
  destruct (detailsCache st !! detailsKey placeId lang) as [entry|];
    provider_step; rewrite ?Hreads.
  1: destruct (clock (reads st) - storedAt entry <? CACHE_EXPIRATION);
       simpl; [done|].
  all: destruct (String.eqb apiKey EmptyString); simpl; [done|];
    destruct (detailsOf up _) as [e|status error_message basicResult];
    simpl; [done|];
    destruct (String.eqb status "OK"); simpl; [|done];
    destruct (detailsOf up _) as [e|? ? detailsResult]; simpl; [done|];
    by destruct basicResult.
Qed.

Lemma getReviews_run up placeId options st :
  GoogleReviewsProvider.getReviews apiKey clock up placeId options st
  = let '(d, st1) := details up placeId (languageOf options) st in
    match d with
    | DetailsFailed _ => (detailsResponse d, st1)
    | DetailsOk _ =>
        let '(allReviews, st2) :=
          listing up placeId (languageOf options) (optMinimumRating options)
            st1 in
        (Reviews.getReviews d allReviews placeId options, st2)
    end.
Proof.
  unfold GoogleReviewsProvider.getReviews, seq, ret, languageOf.
  by destruct (details up placeId _ st) as [[s|e] st1].
Qed.

(** X16: the pages of the standard mode. A call sends at most five
    requests. When the details fail, the failure is the answer: no
    request for reviews is sent and both caches stay as they were. When
    the call succeeds, both caches hold what the page was cut from, and
    every later call for the place in the same language that finds the
    two entries less than an hour after their time stamps cuts its page
    from the same summary and the same list, filtered by its own minimum,
    without any request, whatever page token or page size it brings. *)
Theorem X16_standard_pages_come_from_one_snapshot
    (up : Upstream) (placeId : string) (options : ReviewOptions) (st : State) :
  let lang := languageOf options in
  let run := GoogleReviewsProvider.getReviews apiKey clock up placeId options st in
  let new := sent st (snd run) in
  (length new <= 5)%nat
  /\ (success (fst run) = false ->
      Forall isDetailsRequest new
      /\ reviewsCache (snd run) = reviewsCache st
      /\ detailsCache (snd run) = detailsCache st
      /\ results (fst run) = [] /\ pagination (fst run) = None)
  /\ (success (fst run) = true ->
      exists dEntry rEntry,
        detailsCache (snd run) !! detailsKey placeId lang = Some dEntry
        /\ reviewsCache (snd run) !! reviewsKey placeId lang = Some rEntry
        /\ fst run
           = Reviews.getReviews (DetailsOk (cachedSummary dEntry))
               (applyRatingFilter (optMinimumRating options)
                  (cachedReviews rEntry))
               placeId options
        /\ forall up' options' st',
             languageOf options' = lang ->
             detailsCache st' !! detailsKey placeId lang = Some dEntry ->
             reviewsCache st' !! reviewsKey placeId lang = Some rEntry ->
             usableAt (clock (reads st')) (storedAt dEntry) ->
             usableAt (clock (S (reads st'))) (timestamp rEntry) ->
             GoogleReviewsProvider.getReviews apiKey clock up' placeId options' st'
             = (Reviews.getReviews (DetailsOk (cachedSummary dEntry))
                  (applyRatingFilter (optMinimumRating options')
                     (cachedReviews rEntry))
                  placeId options',
                later 2 st')).
Proof.
  intros lang run new. subst new run. rewrite getReviews_run. fold lang.
  destruct (details_run up placeId lang st)
    as (new1 & Htraffic1 & Hlen1 & Hreqs1 & Hreviews1 & _ & Hcache1).
  destruct (details up placeId lang st) as [d st1] eqn:Hdetails.
  simpl in Htraffic1, Hreviews1, Hcache1.
  destruct d as [s|e].
  2: { simpl. rewrite (sent_app st st1 new1 Htraffic1).
       split; [lia|]. split; [|done]. intros _.
       split; [|done].
       eapply Forall_impl; [exact Hreqs1|]. by intros r [Hr _]. }
  destruct Hcache1 as (dEntry & HdEntry & <- & _).
  destruct (listing_run up placeId lang (optMinimumRating options) st1)
    as (Hdetails2 & rEntry & HrEntry & Hanswer & Hhow).
  destruct (listing up placeId lang (optMinimumRating options) st1)
    as [allReviews st2] eqn:Hlisting.
  simpl in Hdetails2, HrEntry, Hanswer, Hhow. simpl.
  assert (Hlen : (length (sent st st2) <= 5)%nat).
  { destruct Hhow as [(_ & _ & ->)|(_ & Htraffic2 & _)].
    - unfold sent. simpl. rewrite Htraffic1, drop_app_length. lia.
    - rewrite (sent_app st st2 (new1 ++ refill apiKey placeId lang)).
      + rewrite length_app. simpl. lia.
      + by rewrite Htraffic2, Htraffic1, <- app_assoc. }
  split; [done|]. split; [done|]. intros _.
  exists dEntry, rEntry. split; [by rewrite Hdetails2|]. split; [done|].
  split; [by rewrite Hanswer|].
  intros up' options' st' Hlang HdEntry' HrEntry' Hfresh1 Hfresh2.
  rewrite getReviews_run, Hlang.
  rewrite (details_hit up' placeId lang st' dEntry HdEntry' Hfresh1).
  by rewrite (listing_hit up' placeId lang (optMinimumRating options')
                (later 1 st') rEntry HrEntry' Hfresh2).
Qed.

Variable coerceToNumber : json -> option Z.
Variable dateGetTime : string -> option Z.

(** The answer and the final state of the chunked mode, in terms of
    [getPlaceDetails]. *)
Lemma chunked_run up placeId options st :
  let lang := languageOf options in
  let run := GoogleReviewsProvider.getReviewsChunked apiKey clock
               coerceToNumber dateGetTime up placeId options st in
  fst run
  = match fst (details up placeId lang st) with
    | DetailsOk s =>
        Reviews.getReviewsChunked coerceToNumber dateGetTime (DetailsOk s)
          (fun sortBy => reviewsOf up (reviewsRequest apiKey placeId lang sortBy))
          placeId options
    | DetailsFailed e => detailsResponse (DetailsFailed e)
    end
  /\ snd run
     = match fst (details up placeId lang st),
             nextSortMethodsOf coerceToNumber (decodeChunkToken options) with
       | DetailsOk _, Done methods =>
           snd (axiosGet (reviewsOf up)
                  (reviewsRequest apiKey placeId lang (hd EmptyString methods))
                  (snd (details up placeId lang st)))
       | _, _ => snd (details up placeId lang st)
       end.
Proof.
  intros lang run. unfold run, GoogleReviewsProvider.getReviewsChunked.
  fold (languageOf options). fold lang. unfold seq, ret.
  destruct (details up placeId lang st) as [[s|e] st1]; simpl; [|done].
  by destruct (nextSortMethodsOf coerceToNumber (decodeChunkToken options)).
Qed.

(** X17: the pages of the chunked mode. The reviews cache is neither
    read nor written: the answer does not depend on it, and it is the
    same after the call. Whenever a page is produced, exactly one request
    for reviews has been sent, the last request of the call, for the sort
    order of the call; up to two requests for the details come before it.
    The page is the one [getReviewsChunked] cuts from the reply to that
    request. *)
Theorem X17_chunked_pages_cost_a_request_each
    (up : Upstream) (placeId : string) (options : ReviewOptions) (st : State) :
  let lang := languageOf options in
  let chunked := GoogleReviewsProvider.getReviewsChunked apiKey clock
                   coerceToNumber dateGetTime up placeId options in
  let new := sent st (snd (chunked st)) in
  reviewsCache (snd (chunked st)) = reviewsCache st
  /\ (length new <= 3)%nat
  /\ (forall st', detailsCache st' = detailsCache st -> reads st' = reads st ->
        fst (chunked st') = fst (chunked st))
  /\ (pagination (fst (chunked st)) <> None ->
      exists before,
        new = before ++
              [reviewsRequest apiKey placeId lang
                 (ChunkSpec.currentSortMethodOf coerceToNumber options)]
        /\ Forall isDetailsRequest before)
  /\ (forall s, fst (details up placeId lang st) = DetailsOk s ->
        fst (chunked st)
        = Reviews.getReviewsChunked coerceToNumber dateGetTime (DetailsOk s)
            (fun sortBy => reviewsOf up (reviewsRequest apiKey placeId lang sortBy))
            placeId options).
Proof.
  intros lang chunked new.
  pose proof (fun st0 => proj1 (chunked_run up placeId options st0)) as Hvalue.
  pose proof (proj2 (chunked_run up placeId options st)) as Hstate.
  fold lang chunked in Hvalue, Hstate.
  destruct (details_run up placeId lang st)
    as (new1 & Htraffic1 & Hlen1 & Hreqs1 & Hreviews1 & _).
  assert (Hreqs : Forall isDetailsRequest new1).
  { eapply Forall_impl; [exact Hreqs1|]. by intros r [Hr _]. }
  split; [|split; [|split; [|split]]].
  - rewrite Hstate.
    destruct (fst (details up placeId lang st)); [|done].
    by destruct (nextSortMethodsOf _ _).
  - unfold new. rewrite Hstate.
    destruct (fst (details up placeId lang st)).
    2: { rewrite (sent_app _ _ new1 Htraffic1). lia. }
    destruct (nextSortMethodsOf _ _) as [methods|].
    2: { rewrite (sent_app _ _ new1 Htraffic1). lia. }
    erewrite sent_app.
    2: { simpl. rewrite Htraffic1, <- app_assoc. reflexivity. }
    rewrite length_app. simpl. lia.
  - intros st' Hcache Hreads. rewrite !Hvalue.
    by rewrite (details_frame up placeId lang st st' Hcache Hreads).
  - intros Hpage. rewrite Hvalue in Hpage. unfold new. rewrite Hstate.
    destruct (fst (details up placeId lang st)) as [s|e]; [|done].
    unfold ChunkSpec.currentSortMethodOf.
    unfold Reviews.getReviewsChunked, chunkedPage in Hpage.
    destruct (nextSortMethodsOf coerceToNumber (decodeChunkToken options))
      as [methods|]; [|done].
    exists new1. split; [|done]. apply sent_app. simpl.
    by rewrite Htraffic1, <- app_assoc.
  - intros s Hs. by rewrite Hvalue, Hs.
Qed.

End ReviewsProviderFacts.

(** The X12 theorem on a provider that has asked for the cafe while the
    upstream was reachable and asks again after it has gone. *)
Lemma X12_witness_details_survive_an_outage :
  let st1 :=
    snd (GoogleReviewsProvider.getPlaceDetails "key" DemoProvider.seconds
           DemoProvider.online "place" "en" DemoProvider.start) in
  fst (GoogleReviewsProvider.getPlaceDetails "key" DemoProvider.seconds
         DemoProvider.offline "place" "en" st1)
  = Reviews.DetailsOk
      (GoogleReviewsProvider.summaryOf "place" DemoProvider.cafe
         (Some DemoProvider.cafe)).
Proof.
  intros st1.
  destruct (X12_place_details_are_cached_on_success "key" DemoProvider.seconds
              DemoProvider.online "place" "en" DemoProvider.start)
    as (_ & _ & _ & _ & _ & _ & _ & Hok).
  destruct (Hok _ eq_refl) as (entry & Hentry & Hsummary & Hlater).
  fold st1 in Hentry.
  rewrite (Hlater DemoProvider.offline st1 Hentry); [done|].
  vm_compute in Hentry. injection Hentry as <-. by vm_compute.
Defined.

(** The X16 theorem on a provider that has served a first page while the
    upstream was reachable and is asked again after it has gone. *)
Lemma X16_witness_pages_survive_an_outage :
  let st1 :=
    snd (GoogleReviewsProvider.getReviews "key" DemoProvider.seconds
           DemoProvider.online "place" (DemoReviews.options (Some 2) None None)
           DemoProvider.start) in
  snd (GoogleReviewsProvider.getReviews "key" DemoProvider.seconds
         DemoProvider.offline "place" (DemoReviews.options (Some 2) None None)
         st1)
  = ProviderSpec.later 2 st1.
Proof.
  intros st1.
  destruct (X16_standard_pages_come_from_one_snapshot "key"
              DemoProvider.seconds DemoProvider.online "place"
              (DemoReviews.options (Some 2) None None) DemoProvider.start)
    as (_ & _ & Hok).
  assert (Hsuccess :
            Reviews.success
              (fst (GoogleReviewsProvider.getReviews "key" DemoProvider.seconds
                      DemoProvider.online "place"
                      (DemoReviews.options (Some 2) None None)
                      DemoProvider.start)) = true)
    by (vm_compute; reflexivity).
  destruct (Hok Hsuccess) as (dEntry & rEntry & Hd & Hr & _ & Hlater).
  fold st1 in Hd, Hr.
  rewrite (Hlater DemoProvider.offline (DemoReviews.options (Some 2) None None)
             st1 eq_refl Hd Hr); [done| |].
  - vm_compute in Hd. injection Hd as <-. by vm_compute.
  - vm_compute in Hr. injection Hr as <-. by vm_compute.
Defined.

(** The X15 theorem on a provider that starts while the upstream is
    unreachable. *)
Lemma X15_witness_offline_start :
  fst (GoogleReviewsProvider.getReviewsForPlace "key" DemoProvider.seconds
         DemoProvider.offline "place" "en" None DemoProvider.start) = [].
Proof.
  apply (X15_an_outage_is_cached_for_an_hour "key" DemoProvider.seconds
           DemoProvider.offline "place" "en" None DemoProvider.start).
  - intros entry Hentry. by vm_compute in Hentry.
  - intros r. exact I.
Defined.
(** ** The reviews route *)

Section RouteFacts.
Import JsString Json Reviews ReviewSpec Auth GoogleReviewsProvider ProviderSpec.
Import ReviewsRoute RouteSpec.
Context {Details : Type}.
Variable env : option string.
Variable apiKey : string.
Variable clock : nat -> Z.
Variable coerceToNumber : Json.json -> option Z.
Variable dateGetTime : string -> option Z.

Local Abbreviation handler :=
  (POST (Details := Details) env apiKey clock coerceToNumber dateGetTime).
Local Abbreviation modeOf :=
  (RouteSpec.modeOf apiKey clock coerceToNumber dateGetTime).

Lemma isAvailable_run up st :
  isAvailable apiKey clock up st
  = if String.eqb apiKey EmptyString then (false, st)
    else (success (detailsResponse
                     (fst (getPlaceDetails apiKey clock up probePlace "en" st))),
          snd (getPlaceDetails apiKey clock up probePlace "en" st)).
Proof.
  unfold isAvailable, seq, ret.
  destruct (String.eqb apiKey EmptyString); [done|].
  by destruct (getPlaceDetails apiKey clock up probePlace "en" st).
Qed.

(** The probe sends at most two requests, for details only, and leaves
    the reviews cache alone. *)
Lemma isAvailable_traffic up st :
  let run := isAvailable apiKey clock up st in
  exists new,
    traffic (snd run) = traffic st ++ new
    /\ (length new <= 2)%nat
    /\ Forall isDetailsRequest new
    /\ reviewsCache (snd run) = reviewsCache st
    /\ (apiKey = EmptyString -> run = (false, st)).
Proof.
  intros run. unfold run. rewrite isAvailable_run.
  destruct (String.eqb apiKey EmptyString) eqn:Hkey.
  - exists []. rewrite app_nil_r. simpl. repeat split; try done; lia.
  - apply String.eqb_neq in Hkey.
    destruct (details_run apiKey clock up probePlace "en" st)
      as (new & Htraffic & Hlen & Hreqs & Hreviews & _).
    exists new. simpl. split; [done|]. split; [done|]. split; [|done].
    eapply Forall_impl; [exact Hreqs|]. by intros r [Hr _].
Qed.

(** Either mode sends at most five requests. *)
Lemma mode_traffic query req up st :
  exists new,
    traffic (snd (modeOf query req up st)) = traffic st ++ new
    /\ (length new <= 5)%nat.
Proof.
  unfold RouteSpec.modeOf. destruct (useChunkedLoading query req).
  - pose proof (proj2 (chunked_run apiKey clock coerceToNumber dateGetTime up
                         (placeId req) (options req) st)) as Hstate.
    simpl in Hstate. rewrite Hstate.
    destruct (details_run apiKey clock up (placeId req)
                (languageOf (options req)) st)
      as (new & Htraffic & Hlen & _).
    destruct (fst (getPlaceDetails _ _ _ _ _ _));
      [destruct (nextSortMethodsOf _ _)|].
    + exists (new ++ [reviewsRequest apiKey (placeId req)
                        (languageOf (options req)) (hd EmptyString a)]).
      simpl. rewrite Htraffic, <- app_assoc, length_app. simpl.
      split; [done|lia].
    + exists new. split; [done|lia].
    + exists new. split; [done|lia].
  - rewrite getReviews_run.
    destruct (details_run apiKey clock up (placeId req)
                (languageOf (options req)) st)
      as (new & Htraffic & Hlen & _).
    destruct (getPlaceDetails _ _ _ _ _ st) as [[s|e] st1]; simpl in *.
    2: { exists new. split; [done|lia]. }
    destruct (listing_run apiKey clock up (placeId req)
                (languageOf (options req)) (optMinimumRating (options req)) st1)
      as (_ & entry & _ & _ & Hhow).
    destruct (getReviewsForPlace _ _ _ _ _ _ st1) as [allReviews st2].
    simpl in *.
    destruct Hhow as [(_ & _ & ->)|(_ & Htraffic2 & _)].
    + exists new. simpl. split; [done|lia].
    + exists (new ++ refill apiKey (placeId req) (languageOf (options req))).
      rewrite Htraffic2, Htraffic, <- app_assoc, length_app. simpl.
      split; [done|lia].
Qed.

(** The handler on an authorised request that passes the schema. *)
Lemma handler_run header query req up st :
  authorised env header = true ->
  handler header query (Parsed req) up st
  = let probe := isAvailable apiKey clock up st in
    if fst probe
    then (json (ReviewsBody (fst (modeOf query req up (snd probe)))),
          snd (modeOf query req up (snd probe)))
    else (jsonStatus (ErrorBody "Reviews provider is not available") 503,
          snd probe).
Proof.
  unfold authorised, POST, RouteSpec.modeOf. intros ->. simpl. unfold seq, ret.
  destruct (isAvailable apiKey clock up st) as [[|] st1]; simpl; [|done].
  by destruct (if useChunkedLoading query req then _ else _).
Qed.

(** X18: the handler of the reviews route. A request without an accepted
    API key is answered 401, an unreadable body 500 and a body the schema
    rejects 400, each without touching the provider. Every other request
    first probes the provider: when the probe fails, and always when the
    server has no Google key, the answer is 503 and no request for
    reviews is sent. Otherwise the chosen mode runs from the state the
    probe leaves, and its response is sent with status 200, failures of
    the provider included. A request costs at most seven upstream
    requests. *)
Theorem X18_reviews_route_probes_before_it_serves
    (header query : option string) (parsed : ParsedBody Details)
    (up : Upstream) (st : State) :
  let run := handler header query parsed up st in
  let new := sent st (snd run) in
  (authorised env header = false ->
   run = (jsonStatus (ErrorBody "Unauthorized - Invalid API key") 401, st))
  /\ (authorised env header = true ->
      match parsed with
      | Unreadable =>
          run = (jsonStatus (ErrorBody "Internal server error") 500, st)
      | Rejected details =>
          run = (jsonStatus (InvalidRequest details) 400, st)
      | Parsed req =>
          let probe := isAvailable apiKey clock up st in
          (apiKey = EmptyString ->
           run = (jsonStatus (ErrorBody "Reviews provider is not available") 503,
                  st))
          /\ (fst probe = false ->
              run = (jsonStatus (ErrorBody "Reviews provider is not available")
                       503, snd probe))
          /\ (fst probe = true ->
              run = (json (ReviewsBody (fst (modeOf query req up (snd probe)))),
                     snd (modeOf query req up (snd probe))))
      end)
  /\ (status (fst run) <> 200 ->
      Forall isDetailsRequest new
      /\ reviewsCache (snd run) = reviewsCache st)
  /\ (new <> [] ->
      authorised env header = true /\ exists req, parsed = Parsed req)
  /\ (forall response, body (fst run) = ReviewsBody response ->
        status (fst run) = 200)
  /\ (length new <= 7)%nat.
Proof.
  intros run new. subst new run.
  assert (Hnone : sent st st = []) by (unfold sent; apply drop_all).
  destruct (authorised env header) eqn:Hauth.
  2: { assert (Hrun : handler header query parsed up st
                      = (jsonStatus (ErrorBody "Unauthorized - Invalid API key")
                           401, st)).
       { unfold POST. unfold authorised in Hauth. by rewrite Hauth. }
       rewrite Hrun. simpl. rewrite Hnone.
       repeat split; try done. simpl; lia. }
  destruct parsed as [|details|req].
  1, 2: unfold POST; unfold authorised in Hauth; rewrite Hauth; simpl;
    unfold ret; simpl; rewrite Hnone;
    repeat split; try done; simpl; lia.
  rewrite handler_run by done.
  destruct (isAvailable_traffic up st)
    as (new1 & Htraffic1 & Hlen1 & Hreqs1 & Hreviews1 & Hnokey).
  simpl in Htraffic1, Hreviews1, Hnokey.
  destruct (isAvailable apiKey clock up st) as [available st1] eqn:Hprobe.
  simpl in Htraffic1, Hreviews1. simpl.
  destruct available; simpl.
  - destruct (mode_traffic query req up st1) as (new2 & Htraffic2 & Hlen2).
    assert (Hsent : sent st (snd (modeOf query req up st1)) = new1 ++ new2).
    { apply sent_app. by rewrite Htraffic2, Htraffic1, <- app_assoc. }
    split; [done|]. split.
    { intros _. split; [|by split]. intros Hkey.
      by specialize (Hnokey Hkey). }
    split; [done|]. split; [by intros _; split; [|exists req]|].
    split; [done|]. rewrite Hsent, length_app. lia.
  - rewrite (sent_app st st1 new1 Htraffic1).
    split; [done|]. split.
    { intros _. split; [|by split]. intros Hkey.
      specialize (Hnokey Hkey). by injection Hnokey as ->. }
    split; [done|]. split; [by intros _; split; [|exists req]|].
    split; [done|]. lia.
Qed.

(** X19: what a client gets for a request with a whole-number
    [maxResults] (or none) that the schema accepts. The page size is the
    [maxResults] asked for, 6 by default, and at most 100; the response
    carries at most that many reviews, in either mode; and when a minimum
    rating is asked for, every review of the standard mode, and every
    review of a chunked call that brings no page token, is rated at least
    that. A fractional [maxResults], which the schema lets through as
    well, is not covered. *)
Theorem X19_accepted_requests_get_bounded_pages
    (header query : option string) (req : ReviewRequest)
    (up : Upstream) (st : State) (response : ReviewResponse) :
  schemaAcceptsWhole req ->
  body (fst (handler header query (Parsed req) up st)) = ReviewsBody response ->
  let size := pageSizeOf (options req) in
  0 < size <= 100
  /\ size = default DEFAULT_PAGE_SIZE (maxResults (options req))
  /\ Z.of_nat (length (results response)) <= size
  /\ (useChunkedLoading query req = false \/ pageToken (options req) = None ->
      forall r m, r ∈ results response ->
        optMinimumRating (options req) = Some m -> m <= rating r).
Proof.
  intros (_ & Hmax & _) Hbody size.
  assert (Hsize : 0 < size <= 100 /\
                  size = default DEFAULT_PAGE_SIZE (maxResults (options req))).
  { unfold size, pageSizeOf.
    destruct (maxResults (options req)) as [n|]; simpl; [|done].
    specialize (Hmax n eq_refl).
    destruct (n =? 0) eqn:Hn; [apply Z.eqb_eq in Hn; lia|done]. }
  destruct Hsize as [Hsize Hdefault]. split; [done|]. split; [done|].
  destruct (authorised env header) eqn:Hauth.
  2: { unfold POST in Hbody. unfold authorised in Hauth.
       by rewrite Hauth in Hbody. }
  rewrite handler_run in Hbody by done. simpl in Hbody.
  destruct (fst (isAvailable apiKey clock up st)); [|done].
  simpl in Hbody. injection Hbody as <-.
  set (st1 := snd (isAvailable apiKey clock up st)).
  unfold RouteSpec.modeOf. destruct (useChunkedLoading query req).
  - pose proof (proj1 (chunked_run apiKey clock coerceToNumber dateGetTime up
                         (placeId req) (options req) st1)) as Hvalue.
    simpl in Hvalue. rewrite Hvalue.
    destruct (fst (getPlaceDetails _ _ _ _ _ st1)) as [s|e].
    2: { simpl. split; [lia|]. by intros _ r m H%elem_of_nil. }
    destruct (chunked_bounds coerceToNumber dateGetTime (DetailsOk s)
                (fun sortBy => reviewsOf up
                   (reviewsRequest apiKey (placeId req)
                      (languageOf (options req)) sortBy))
                (placeId req) (options req) (proj1 Hsize))
      as (Hlen & Hpass).
    split; [done|]. intros [?|Htoken] r m Hr Hm; [done|].
    specialize (Hpass r Hr).
    unfold PageSpec.minimumInForce, decodeChunkToken in Hpass.
    rewrite Htoken in Hpass. simpl in Hpass. rewrite Hm in Hpass.
    simpl in Hpass. by apply Z.ltb_ge in Hpass.
  - rewrite getReviews_run.
    destruct (getPlaceDetails _ _ _ _ _ st1) as [[s|e] st2].
    2: { simpl. split; [lia|]. by intros _ r m H%elem_of_nil. }
    destruct (listing_run apiKey clock up (placeId req)
                (languageOf (options req)) (optMinimumRating (options req)) st2)
      as (_ & entry & _ & Hanswer & _).
    destruct (getReviewsForPlace _ _ _ _ _ _ st2) as [allReviews st3].
    simpl in Hanswer. simpl.
    destruct (getReviews_bounds (DetailsOk s) allReviews (placeId req)
                (options req) (proj1 Hsize)) as (Hlen & Hfrom).
    split; [done|]. intros _ r m Hr Hm.
    apply Hfrom in Hr. rewrite Hanswer, Hm in Hr. simpl in Hr.
    by apply list_elem_of_filter in Hr as [Hr _].
Qed.

End RouteFacts.

(** The X19 theorem on the demo request. *)
Lemma X19_witness_demo_request :
  Z.of_nat (length (Reviews.results DemoRoute.answered)) <= 6
  /\ Forall (fun r => 4 <= Reviews.rating r)
       (Reviews.results DemoRoute.answered).
Proof.
  destruct (X19_accepted_requests_get_bounded_pages (Details := unit)
              (Some "k1,k2") "key" DemoProvider.seconds
              DemoReviews.noCoercion DemoReviews.noDate
              (Some "k1") None DemoRoute.request DemoProvider.online
              DemoProvider.start DemoRoute.answered)
    as (_ & _ & Hlen & Hmin).
  - split; [done|]. split; [by intros n [=]|].
    intros m [= <-]. lia.
  - vm_compute. reflexivity.
  - split; [exact Hlen|]. apply Forall_forall. intros r Hr.
    apply (Hmin (or_introl eq_refl) r 4 Hr eq_refl).
Defined.
(** ** Census batch geocoding *)

Section BatchFacts.
Import JsString Auth Reviews CensusBatch.
Variable V : Type.
Variable isZero : V -> bool.
Variable parseFloat : string -> JsNumber V.
Variable E : Type.
Variable upstream : BatchRequest -> FetchReply E.

Local Abbreviation parse := (parseBatchResults V parseFloat).
Local Abbreviation convert := (convertBatchResultsToStandardFormat V isZero).
Local Abbreviation submit := (submitBatchGeocode V parseFloat E upstream).
Local Abbreviation loop := (batchLoop V parseFloat E upstream).
Local Abbreviation resultsOf := (chunkResults V parseFloat E upstream).
Local Abbreviation requestsOf := (chunkRequests V parseFloat E upstream).

(** Splitting a text that does not contain the separator gives the text
    itself. *)
Lemma split_free sep s :
  includes s (String sep EmptyString) = false -> split sep s = [s].
Proof.
  induction s as [|c s IH]; simpl; [done|].
  intros [Hc Hs]%orb_false_iff.
  destruct (Ascii.eqb sep c) eqn:E1; [by destruct s|].
  rewrite Ascii.eqb_sym, E1. by rewrite (IH Hs).
Qed.

(** A line yields at most one result, and its latitude is never a
    number. *)
Lemma parseLine_latitude line r :
  In r (parseLine V parseFloat line) ->
  (latitude V r = None /\ longitude V r = None)
  \/ (latitude V r = Some NaN
      /\ exists text, coordinates V r = Some (replaceQuotes EmptyString text)
                      /\ longitude V r = Some (parseFloat text)).
Proof.
  unfold parseLine. destruct (String.eqb (trim line) EmptyString); [done|].
  destruct (split ","%char line) as [|id [|input [|m [|mt [|coords rest]]]]]
    eqn:Hfields; try done.
  intros [<-|[]]. simpl.
  destruct (String.eqb coords EmptyString); simpl; [by left|]. right.
  assert (Hfree : includes coords "," = false).
  { apply (split_pieces_free ","%char line). rewrite Hfields.
    do 4 right. by left. }
  rewrite (split_free _ _ Hfree). simpl. split; [done|]. by exists coords.
Qed.

(** X20: results parsed from the reply of the batch endpoint never carry
    a position. The coordinates are looked for in one field of a line
    already split at the commas, so that splitting the field again gives
    no second part: the latitude of a result is either absent or not a
    number, while the longitude is read from the whole field. The
    standard format therefore lists no location for any result, matched
    or not; a matched result is a success without results, an unmatched
    one carries the error [NO_MATCH]. *)
Theorem X20_batch_results_never_carry_a_position (csvData : string) :
  Forall (fun r => truthyNumber V isZero (latitude V r) = false)
    (parse csvData)
  /\ Forall (fun r =>
              (latitude V r = None /\ longitude V r = None)
              \/ (latitude V r = Some NaN
                  /\ exists text,
                       coordinates V r = Some (replaceQuotes EmptyString text)
                       /\ longitude V r = Some (parseFloat text)))
       (parse csvData)
  /\ Forall2 (fun r response =>
               results V response = []
               /\ success V response = matched V r
               /\ (matched V r = false ->
                   exists e, error V response = Some e /\ code e = "NO_MATCH"))
       (parse csvData) (convert (parse csvData)).
Proof.
  assert (Hlat : Forall (fun r =>
              (latitude V r = None /\ longitude V r = None)
              \/ (latitude V r = Some NaN
                  /\ exists text,
                       coordinates V r = Some (replaceQuotes EmptyString text)
                       /\ longitude V r = Some (parseFloat text)))
            (parse csvData)).
  { apply List.Forall_forall. intros r Hr. unfold parseBatchResults in Hr.
    apply in_flat_map in Hr as (line & _ & Hr).
    by apply (parseLine_latitude line). }
  assert (Hfalsy : Forall (fun r => truthyNumber V isZero (latitude V r) = false)
                     (parse csvData)).
  { eapply Forall_impl; [exact Hlat|]. simpl.
    by intros r [[-> _]|[-> _]]. }
  split; [done|]. split; [done|].
  unfold convertBatchResultsToStandardFormat.
  clear Hlat.
  induction Hfalsy as [|r rs Hr _ IH]; simpl; [constructor|].
  constructor; [|done].
  unfold convertOne. simpl. rewrite Hr, andb_false_r. simpl.
  split; [done|]. split; [done|]. intros ->. by eexists.
Qed.

(** The loop from index [i] with a positive chunk size. *)
Lemma batchLoop_chunks fuel addresses chunkSize returnType benchmarkName
    i collected :
  1 <= chunkSize -> 0 <= i ->
  (Z.to_nat (Z.of_nat (length addresses) - i) < fuel)%nat ->
  exists chunks,
    concat chunks = drop (Z.to_nat i) addresses
    /\ Forall (fun chunk => 0 < Z.of_nat (length chunk) <= chunkSize) chunks
    /\ loop fuel addresses chunkSize returnType benchmarkName i collected
       = Some (collected ++
                 concat (map (resultsOf returnType benchmarkName) chunks),
               concat (map (requestsOf returnType benchmarkName) chunks)).
Proof.
  intros Hsize. revert i collected.
  induction fuel as [|fuel IH]; intros i collected Hi Hfuel; [lia|].
  simpl. destruct (i <? Z.of_nat (length addresses)) eqn:Hin.
  2: { apply Z.ltb_ge in Hin. exists []. simpl.
       rewrite drop_ge by lia. by rewrite app_nil_r. }
  apply Z.ltb_lt in Hin.
  rewrite slice_window by lia.
  set (chunk := take (Z.to_nat chunkSize) (drop (Z.to_nat i) addresses)).
  destruct (IH (i + chunkSize)
              (collected ++ resultsOf returnType benchmarkName chunk))
    as (chunks & Hconcat & Hbounds & Hloop); [lia|lia|].
  exists (chunk :: chunks). split; [|split].
  - simpl. rewrite Hconcat. unfold chunk.
    replace (Z.to_nat (i + chunkSize))
      with (Z.to_nat i + Z.to_nat chunkSize)%nat by lia.
    by rewrite <- drop_drop, take_drop.
  - constructor; [|done]. unfold chunk.
    rewrite length_take, length_drop. lia.
  - unfold chunkResults in Hloop.
    destruct (submit chunk returnType benchmarkName) as [outcome sent] eqn:Hsub.
    simpl in Hloop.
    assert (Hcollected :
              match outcome with
              | inl _ => collected
              | inr parsed => collected ++ parsed
              end = collected ++ match outcome with
                                 | inl _ => []
                                 | inr parsed => parsed
                                 end).
    { destruct outcome; [by rewrite app_nil_r|done]. }
    rewrite Hcollected, Hloop. simpl.
    unfold chunkResults, chunkRequests. rewrite Hsub. simpl.
    by rewrite <- app_assoc.
Qed.

(** X21: [processLargeBatch] with a chunk size of at least one. The loop
    ends, and it has cut the addresses into consecutive non-empty chunks
    of at most [chunkSize] addresses, submitted in order. The results are
    those of the chunks that were answered, in order: a chunk whose
    submission throws contributes nothing and does not stop the others.
    A chunk of more than 10000 addresses is dropped without a request;
    every other chunk costs exactly one request. *)
Theorem X21_large_batches_are_cut_into_chunks
    (fuel : nat) (addresses : list BatchGeocodeAddress) (chunkSize : Z)
    (returnType benchmarkName : string) :
  1 <= chunkSize ->
  (length addresses < fuel)%nat ->
  exists chunks,
    concat chunks = addresses
    /\ Forall (fun chunk => 0 < Z.of_nat (length chunk) <= chunkSize) chunks
    /\ processLargeBatch V parseFloat E upstream fuel addresses chunkSize
         returnType benchmarkName
       = Some (concat (map (resultsOf returnType benchmarkName) chunks),
               concat (map (requestsOf returnType benchmarkName) chunks))
    /\ Forall (fun chunk =>
                if 10000 <? Z.of_nat (length chunk)
                then requestsOf returnType benchmarkName chunk = []
                     /\ resultsOf returnType benchmarkName chunk = []
                else requestsOf returnType benchmarkName chunk
                     = [batchRequest chunk returnType benchmarkName])
         chunks.
Proof.
  intros Hsize Hfuel.
  destruct (batchLoop_chunks fuel addresses chunkSize returnType benchmarkName
              0 [] Hsize ltac:(lia) ltac:(lia))
    as (chunks & Hconcat & Hbounds & Hloop).
  exists chunks. split; [done|]. split; [done|]. split; [done|].
  eapply Forall_impl; [exact Hbounds|]. simpl. intros chunk Hlen.
  unfold chunkRequests, chunkResults, submitBatchGeocode.
  destruct (length chunk =? 0)%nat eqn:Hzero;
    [apply Nat.eqb_eq in Hzero; lia|].
  by destruct (10000 <? Z.of_nat (length chunk)).
Qed.

(** The loop never ends when the index does not advance. *)
Lemma batchLoop_stuck fuel addresses chunkSize returnType benchmarkName
    i collected :
  chunkSize <= 0 -> i < Z.of_nat (length addresses) ->
  loop fuel addresses chunkSize returnType benchmarkName i collected = None.
Proof.
  intros Hsize. revert i collected.
  induction fuel as [|fuel IH]; intros i collected Hi; simpl; [done|].
  apply Z.ltb_lt in Hi as Hlt. rewrite Hlt.
  destruct (submit _ _ _) as [outcome sent].
  by rewrite IH by lia.
Qed.

(** X22: [processLargeBatch] with a chunk size of zero or less never
    returns, whatever the upstream answers, as soon as there is one
    address: the index of the loop does not advance. *)
Theorem X22_nonpositive_chunk_size_never_returns
    (fuel : nat) (addresses : list BatchGeocodeAddress) (chunkSize : Z)
    (returnType benchmarkName : string) :
  chunkSize <= 0 -> addresses <> [] ->
  processLargeBatch V parseFloat E upstream fuel addresses chunkSize
    returnType benchmarkName = None.
Proof.
  intros Hsize Hsome. apply batchLoop_stuck; [done|].
  destruct addresses; [done|]. simpl. lia.
Qed.

End BatchFacts.

(** The X21 theorem on three addresses cut into chunks of two. *)
Lemma X21_witness_three_addresses :
  exists chunks,
    concat chunks = DemoBatch.threeAddresses
    /\ CensusBatch.processLargeBatch Z DemoBatch.notANumber unit
         DemoBatch.headerOnly 4 DemoBatch.threeAddresses 2
         "locations" "Public_AR_Current"
       = Some (concat (map (CensusBatch.chunkResults Z DemoBatch.notANumber unit
                              DemoBatch.headerOnly "locations"
                              "Public_AR_Current") chunks),
               concat (map (CensusBatch.chunkRequests Z DemoBatch.notANumber unit
                              DemoBatch.headerOnly "locations"
                              "Public_AR_Current") chunks)).
Proof.
  destruct (X21_large_batches_are_cut_into_chunks Z DemoBatch.notANumber unit
              DemoBatch.headerOnly 4 DemoBatch.threeAddresses 2
              "locations" "Public_AR_Current")
    as (chunks & Hconcat & _ & Hrun & _).
  - lia.
  - simpl. lia.
  - exists chunks. split; [exact Hconcat|exact Hrun].
Defined.

(** The X22 theorem on three addresses and a chunk size of zero. *)
Lemma X22_witness_chunk_size_zero :
  CensusBatch.processLargeBatch Z DemoBatch.notANumber unit
    DemoBatch.headerOnly 1000 DemoBatch.threeAddresses 0
    "locations" "Public_AR_Current" = None.
Proof.
  apply (X22_nonpositive_chunk_size_never_returns Z DemoBatch.notANumber unit
           DemoBatch.headerOnly 1000 DemoBatch.threeAddresses 0
           "locations" "Public_AR_Current").
  - lia.
  - discriminate.
Defined.

(** X23: the distance route checks the API key with code of its own,
    which keeps the empty entries of the configured list; it accepts
    exactly the keys that [validateApiKey] accepts for the same
    configuration and header. *)
Theorem X23_distance_route_accepts_the_same_keys (env header : option string) :
  DistanceRoute.authorised env header
  = Auth.validateApiKey (Auth.ALLOWED_API_KEYS env)
      (Auth.getApiKeyFromRequest header).
Proof.
  unfold DistanceRoute.authorised, Auth.getApiKeyFromRequest.
  destruct header as [apiKey|]; [|done].
  destruct (String.eqb apiKey EmptyString) eqn:Hempty; simpl; [done|].
  rewrite Hempty, negb_involutive.
  unfold Auth.ALLOWED_API_KEYS, DistanceRoute.ALLOWED_API_KEYS.
  destruct env as [v|]; [|done].
  induction (Auth.split ","%char v) as [|piece pieces IH]; simpl; [done|].
  unfold Auth.nonEmpty at 1.
  destruct (String.eqb piece EmptyString) eqn:Hpiece; simpl.
  - apply String.eqb_eq in Hpiece as ->. by rewrite Hempty.
  - by rewrite IH.
Qed.
(** ** The health route *)

Section HealthFacts.
Import JsString Auth Reviews GoogleReviewsProvider ProviderSpec HealthRoute.
Context {Result Options GoogleResult : Type}.
Variable env : option string.
Variable googleApi : string -> option Options -> Geocoding.GoogleReply GoogleResult.
Variable transformResult : GoogleResult -> Result.
Variable apiKey : string.
Variable clock : nat -> Z.

(** With an API key and no cache entry at all, [getPlaceDetails] asks the
    upstream, and succeeds exactly when both requests are answered. *)
Lemma details_uncached up placeId lang st :
  apiKey <> EmptyString ->
  detailsCache st !! detailsKey placeId lang = None ->
  let run := getPlaceDetails apiKey clock up placeId lang st in
  exists new,
    traffic (snd run) = traffic st ++ new
    /\ (1 <= length new <= 2)%nat
    /\ success (detailsResponse (fst run))
       = detailsAnswered apiKey up placeId lang.
Proof.
  intros Hkey Hnone run. unfold run, getPlaceDetails, unexpired, detailsAnswered.
  rewrite Hnone. unfold seq, ret, dateNow, axiosGet, setDetails. simpl.
  apply String.eqb_neq in Hkey. rewrite Hkey. simpl.
  destruct (detailsOf up (detailsRequest apiKey placeId lang
              "name,rating,user_ratings_total,formatted_address"))
    as [e|status error_message basicResult]; simpl.
  { eexists [_]. split; [reflexivity|]. simpl. split; [lia|done]. }
  destruct (String.eqb status "OK"); simpl.
  2: { eexists [_]. split; [reflexivity|]. simpl. split; [lia|].
       by destruct basicResult. }
  destruct (detailsOf up (detailsRequest apiKey placeId lang "url"))
    as [e|? ? detailsResult]; simpl.
  { eexists [_; _]. rewrite <- app_assoc. split; [reflexivity|]. simpl.
    split; [lia|]. by destruct basicResult. }
  destruct basicResult as [basic|]; simpl;
    eexists [_; _]; rewrite <- app_assoc; (split; [reflexivity|]); simpl;
    (split; [lia|done]).
Qed.

(** X24: the health route. Without an accepted API key the answer is 401
    and nothing is asked. Otherwise the answer is always the 200 with the
    two flags, never the 500: the geocoding flag says whether the Google
    geocoder answered its probe address with status OK, at the cost of
    one request. Both providers are created by the call, so the reviews
    flag is never served from a cache: without a Google key it is false
    and nothing is asked; with one, one or two requests for the probe
    place are sent and the flag says whether both were answered. *)
Theorem X24_health_check_always_asks_upstream
    (header : option string) (up : Upstream) (n : nat) :
  let run := GET env googleApi transformResult apiKey clock header up n in
  let authorised :=
    validateApiKey (ALLOWED_API_KEYS env) (getApiKeyFromRequest header) in
  (authorised = false -> run = (Unauthorized, [], []))
  /\ (authorised = true ->
      exists reviews asked,
        run = (Healthy
                 (GeocodeSpec.googleOk
                    (googleApi Geocoding.googleProbeAddress None))
                 reviews,
               [Geocoding.Upstream Geocoding.GoogleHost
                  Geocoding.googleProbeAddress],
               asked)
        /\ (apiKey = EmptyString -> reviews = false /\ asked = [])
        /\ (apiKey <> EmptyString ->
            (1 <= length asked <= 2)%nat
            /\ Forall isDetailsRequest asked
            /\ reviews = detailsAnswered apiKey up probePlace "en")).
Proof.
  intros run authorised. unfold run, GET. fold authorised.
  rewrite (google_probe googleApi transformResult).
  destruct authorised; simpl; [|done]. split; [done|]. intros _.
  eexists _, _. split; [reflexivity|].
  unfold isAvailable.
  destruct (String.eqb apiKey EmptyString) eqn:Hkey.
  - apply String.eqb_eq in Hkey. split; [done|]. by intros Hno.
  - apply String.eqb_neq in Hkey. split; [done|]. intros _.
    destruct (details_uncached up probePlace "en" (fresh n) Hkey
                (lookup_empty _))
      as (new & Htraffic & Hlen & Hflag).
    destruct (details_run apiKey clock up probePlace "en" (fresh n))
      as (new' & Htraffic' & _ & Hreqs & _).
    rewrite Htraffic in Htraffic'. simpl in Htraffic'. subst new'.
    unfold seq, ret.
    destruct (getPlaceDetails apiKey clock up probePlace "en" (fresh n))
      as [d st1].
    simpl in *. rewrite Htraffic. split; [done|]. split; [|done].
    eapply Forall_impl; [exact Hreqs|]. by intros r [Hr _].
Qed.

End HealthFacts.
